(** * ASTRAL_TURF: the defensive computation layer

    A shallow embedding of [src/utils/bulletproofSafety.ts] (SafeNumber,
    SafeArray, SafeMath, DataValidators, ChartSafety) and of the
    performance utilities built on it (SafeMemoization,
    SafeVirtualScrolling, IntelligentCache), with the properties the
    specification states about them and further ones read off the code.

    Numbers.  A JavaScript [number] is modelled by [number] below: the three
    non-finite values are explicit and a finite number is an exact rational.
    The model does not round or overflow, and has one zero.  It agrees
    with the IEEE-754 doubles of the program wherever the exact result of
    an operation is itself a double ([binary64]): the statements that
    depend on the value of a sum, product or quotient carry that as a
    hypothesis, and the inputs where rounding or overflow decides are
    replayed on the doubles of the machine ([findStart_binary64],
    [tick_binary64], [average_binary64], [scale_binary64]). *)

From Stdlib Require Import ZArith QArith Qround Qreduction Lqa.
From Stdlib Require Import List String Ascii Bool Lia Permutation Sorted.
From Stdlib Require Floats.
Import ListNotations.

Local Open Scope Q_scope.

(* ================================================================== *)
(** ** JavaScript numbers                                              *)
(* ================================================================== *)

Inductive number : Type :=
| NaN
| PosInfinity
| NegInfinity
| Fin (q : Q).

Declare Scope js_scope.
Delimit Scope js_scope with js.
Bind Scope js_scope with number.

Definition ofZ (z : Z) : number := Fin (inject_Z z).
Definition ofNat (n : nat) : number := ofZ (Z.of_nat n).

Definition Qlt_bool (a b : Q) : bool := negb (Qle_bool b a).

(** The global [isNaN] and [isFinite], applied to a number. *)
Definition isNaN (x : number) : bool :=
  match x with NaN => true | _ => false end.

Definition isFinite (x : number) : bool :=
  match x with Fin _ => true | _ => false end.

(** [Number.isInteger]. *)
Definition Number_isInteger (x : number) : bool :=
  match x with
  | Fin q => Qeq_bool (inject_Z (Qfloor q)) q
  | _ => false
  end.

Definition neg (x : number) : number :=
  match x with
  | NaN => NaN
  | PosInfinity => NegInfinity
  | NegInfinity => PosInfinity
  | Fin q => Fin (Qred (- q))
  end.

Definition add (x y : number) : number :=
  match x, y with
  | NaN, _ | _, NaN => NaN
  | PosInfinity, NegInfinity | NegInfinity, PosInfinity => NaN
  | PosInfinity, _ | _, PosInfinity => PosInfinity
  | NegInfinity, _ | _, NegInfinity => NegInfinity
  | Fin a, Fin b => Fin (Qred (a + b))
  end.

Definition sub (x y : number) : number := add x (neg y).

(** The infinity of the sign of [s * q], or [NaN] when [q] is zero. *)
Definition inf_times (positive : bool) (q : Q) : number :=
  if Qeq_bool q 0 then NaN
  else if Bool.eqb positive (Qlt_bool 0 q) then PosInfinity else NegInfinity.

Definition mul (x y : number) : number :=
  match x, y with
  | NaN, _ | _, NaN => NaN
  | PosInfinity, PosInfinity | NegInfinity, NegInfinity => PosInfinity
  | PosInfinity, NegInfinity | NegInfinity, PosInfinity => NegInfinity
  | PosInfinity, Fin q | Fin q, PosInfinity => inf_times true q
  | NegInfinity, Fin q | Fin q, NegInfinity => inf_times false q
  | Fin a, Fin b => Fin (Qred (a * b))
  end.

(** Division; a zero divisor is read as [+0]. *)
Definition div (x y : number) : number :=
  match x, y with
  | NaN, _ | _, NaN => NaN
  | Fin a, Fin b =>
      if Qeq_bool b 0 then
        if Qeq_bool a 0 then NaN
        else if Qlt_bool 0 a then PosInfinity else NegInfinity
      else Fin (Qred (a / b))
  | Fin _, _ => Fin 0
  | PosInfinity, Fin b => if Qlt_bool b 0 then NegInfinity else PosInfinity
  | NegInfinity, Fin b => if Qlt_bool b 0 then PosInfinity else NegInfinity
  | _, _ => NaN
  end.

(** [x < y]; every comparison with [NaN] is false. *)
Definition lt (x y : number) : bool :=
  match x, y with
  | NaN, _ | _, NaN => false
  | _, NegInfinity => false
  | NegInfinity, _ => true
  | PosInfinity, _ => false
  | _, PosInfinity => true
  | Fin a, Fin b => Qlt_bool a b
  end.

(** [x <= y]. *)
Definition le (x y : number) : bool :=
  match x, y with
  | NaN, _ | _, NaN => false
  | NegInfinity, _ => true
  | _, PosInfinity => true
  | _, NegInfinity => false
  | PosInfinity, _ => false
  | Fin a, Fin b => Qle_bool a b
  end.

Definition gt (x y : number) : bool := lt y x.
Definition ge (x y : number) : bool := le y x.

(** [x === y] on numbers. *)
Definition strict_eq (x y : number) : bool :=
  match x, y with
  | PosInfinity, PosInfinity | NegInfinity, NegInfinity => true
  | Fin a, Fin b => Qeq_bool a b
  | _, _ => false
  end.

Definition Math_max (x y : number) : number :=
  match x, y with
  | NaN, _ | _, NaN => NaN
  | _, _ => if lt x y then y else x
  end.

Definition Math_min (x y : number) : number :=
  match x, y with
  | NaN, _ | _, NaN => NaN
  | _, _ => if lt y x then y else x
  end.


Notation "x + y" := (add x y) : js_scope.
Notation "x - y" := (sub x y) : js_scope.
Notation "x * y" := (mul x y) : js_scope.
Notation "x / y" := (div x y) : js_scope.
Notation "x <? y" := (lt x y) (at level 70) : js_scope.
Notation "x <=? y" := (le x y) (at level 70) : js_scope.
Notation "x >? y" := (gt x y) (at level 70) : js_scope.
Notation "x >=? y" := (ge x y) (at level 70) : js_scope.
Notation "x === y" := (strict_eq x y) (at level 70) : js_scope.

(** Two numbers denote the same value. *)
Definition same (x y : number) : Prop :=
  match x, y with
  | NaN, NaN | PosInfinity, PosInfinity | NegInfinity, NegInfinity => True
  | Fin a, Fin b => a == b
  | _, _ => False
  end.

(* ================================================================== *)
(** ** JavaScript values                                               *)
(* ================================================================== *)

(** The values the safety layer is handed as [unknown] or [any]. *)
#[warnings="-register-all"]
Inductive jsval : Type :=
| VUndefined
| VNull
| VBoolean (b : bool)
| VNumber (n : number)
| VString (s : string)
| VArray (items : list jsval)
| VObject (props : list (string * jsval)).

Inductive jstype : Type :=
| TUndefined | TObject | TBoolean | TNumber | TString.

Definition typeof (v : jsval) : jstype :=
  match v with
  | VUndefined => TUndefined
  | VNull | VArray _ | VObject _ => TObject
  | VBoolean _ => TBoolean
  | VNumber _ => TNumber
  | VString _ => TString
  end.

Definition jstype_eqb (a b : jstype) : bool :=
  match a, b with
  | TUndefined, TUndefined | TObject, TObject | TBoolean, TBoolean
  | TNumber, TNumber | TString, TString => true
  | _, _ => false
  end.

(** ToBoolean: what [if (v)], [!v] and [v || w] test. *)
Definition truthy (v : jsval) : bool :=
  match v with
  | VUndefined | VNull => false
  | VBoolean b => b
  | VNumber n => negb (isNaN n || strict_eq n (Fin 0))
  | VString s => negb (String.eqb s "")
  | VArray _ | VObject _ => true
  end.

(** [a || b]. *)
Definition or_else (a b : jsval) : jsval := if truthy a then a else b.

(** [Number.isNaN(v)]: true on the number [NaN] only. *)
Definition Number_isNaN (v : jsval) : bool :=
  match v with VNumber n => isNaN n | _ => false end.

Fixpoint lookup (name : string) (props : list (string * jsval)) : jsval :=
  match props with
  | [] => VUndefined
  | (k, v) :: rest => if String.eqb k name then v else lookup name rest
  end.

(** [v.name] on a value that is not [null] or [undefined]; the properties
    read below ([id], [height]) exist on plain objects only. *)
Definition member (v : jsval) (name : string) : jsval :=
  match v with
  | VObject props => lookup name props
  | _ => VUndefined
  end.

(** The host's [Number(v)] on a value that is not a number (string parsing,
    object-to-primitive conversion): a parameter of the development. *)
Class Host : Type := { ToNumber : jsval -> number }.

(* ================================================================== *)
(** ** SafeNumber                                                      *)
(* ================================================================== *)

Module SafeNumber.

Record t : Type := mk {
  value : number;
  isValid : bool;
  isFinite : bool;
  isInteger : bool
}.

End SafeNumber.

(** The [number | SafeNumber] argument of the arithmetic methods. *)
Inductive operand : Type :=
| Num (n : number)
| Safe (s : SafeNumber.t).

Section SafeNumberImpl.
Context {host : Host}.

(** [typeof input === 'number' ? input : Number(input)]. *)
Definition coerce (input : jsval) : number :=
  match input with VNumber n => n | _ => ToNumber input end.

(** [new SafeNumberImpl(input, fallback)]. *)
Definition SafeNumberImpl (input : jsval) (fallback : number) : SafeNumber.t :=
  let num := coerce input in
  let valid := negb (isNaN num) && isFinite num in
  {| SafeNumber.value := if valid then num else fallback;
     SafeNumber.isValid := valid;
     SafeNumber.isFinite := isFinite num;
     SafeNumber.isInteger := Number_isInteger num |}.

Definition otherVal (other : operand) : number :=
  match other with Num n => n | Safe s => SafeNumber.value s end.

Definition SafeNumber_add (this : SafeNumber.t) (other : operand)
    : SafeNumber.t :=
  SafeNumberImpl (VNumber (SafeNumber.value this + otherVal other)%js) (Fin 0).

Definition SafeNumber_subtract (this : SafeNumber.t) (other : operand)
    : SafeNumber.t :=
  SafeNumberImpl (VNumber (SafeNumber.value this - otherVal other)%js) (Fin 0).

Definition SafeNumber_multiply (this : SafeNumber.t) (other : operand)
    : SafeNumber.t :=
  SafeNumberImpl (VNumber (SafeNumber.value this * otherVal other)%js) (Fin 0).

Definition SafeNumber_divide (this : SafeNumber.t) (other : operand)
    : SafeNumber.t :=
  if (otherVal other === Fin 0)%js then SafeNumberImpl (VNumber (Fin 0)) (Fin 0)
  else SafeNumberImpl (VNumber (SafeNumber.value this / otherVal other)%js) (Fin 0).

Definition SafeNumber_clamp (this : SafeNumber.t) (min max : number)
    : SafeNumber.t :=
  SafeNumberImpl
    (VNumber (Math_max min (Math_min max (SafeNumber.value this)))) (Fin 0).

(** [safeNumber(input, fallback = 0)]. *)
Definition safeNumber (input : jsval) (fallback : number) : SafeNumber.t :=
  SafeNumberImpl input fallback.

End SafeNumberImpl.

(* ================================================================== *)
(** ** Callbacks and loops                                             *)
(* ================================================================== *)

(** How a call of a caller-supplied function ends. *)
Inductive completion (A : Type) : Type :=
| Return (a : A)
| Throw (message : string).
Arguments Return {A} a.
Arguments Throw {A} message.

(** [while (cond) body], cut off after [fuel] tests of the condition:
    [None] means the loop was still running. *)
Fixpoint while {S : Type} (fuel : nat) (cond : S -> bool) (body : S -> S)
    (s : S) : option S :=
  match fuel with
  | O => None
  | Datatypes.S fuel' =>
      if cond s then while fuel' cond body (body s) else Some s
  end.

(** [l.map((item, index) => f(item, index))], indices counted from [i]. *)
Fixpoint mapi_from {A B : Type} (f : A -> nat -> B) (i : nat) (l : list A)
    : list B :=
  match l with
  | [] => []
  | x :: rest => f x i :: mapi_from f (S i) rest
  end.

(** [l.reduce((acc, item, index) => f(acc, item, index), acc)]. *)
Fixpoint reducei_from {A U : Type} (f : U -> A -> nat -> U) (i : nat)
    (l : list A) (acc : U) : U :=
  match l with
  | [] => acc
  | x :: rest => reducei_from f (S i) rest (f acc x i)
  end.

(* ================================================================== *)
(** ** SafeArray                                                       *)
(* ================================================================== *)

Module SafeArray.

Record t : Type := mk {
  data : list jsval;
  length : nat
}.

End SafeArray.

(** The filter of a constructor call without validator. *)
Definition default_validator (item : jsval) : bool :=
  match item with
  | VNull | VUndefined => false
  | _ => negb (Number_isNaN item)
  end.

(** [new SafeArrayImpl(input, validator)]. *)
Definition SafeArrayImpl (input : jsval) (validator : option (jsval -> bool))
    : SafeArray.t :=
  match input with
  | VArray items =>
      let data :=
        match validator with
        | Some v => filter v items
        | None => filter default_validator items
        end in
      {| SafeArray.data := data; SafeArray.length := List.length data |}
  | _ => {| SafeArray.data := []; SafeArray.length := 0 |}
  end.

Definition safeArray := SafeArrayImpl.

(** [data[idx]] for a number [idx]: an element at a non-negative integer
    below the length, [undefined] anywhere else. *)
Definition element (data : list jsval) (idx : number) : jsval :=
  match idx with
  | Fin q =>
      if Number_isInteger idx && Qle_bool 0 q
      then nth (Z.to_nat (Qfloor q)) data VUndefined
      else VUndefined
  | _ => VUndefined
  end.

Section SafeArrayMethods.
Context {host : Host}.

Definition SafeArray_map (this : SafeArray.t)
    (fn : jsval -> nat -> completion jsval) : SafeArray.t :=
  let mapped :=
    mapi_from
      (fun item index =>
         match fn item index with
         | Return v => v
         | Throw _ => VNull
         end)
      0 (SafeArray.data this) in
  SafeArrayImpl (VArray mapped) None.

Definition SafeArray_filter (this : SafeArray.t)
    (fn : jsval -> nat -> completion bool) : SafeArray.t :=
  let keep :=
    mapi_from
      (fun item index =>
         match fn item index with
         | Return b => (item, b)
         | Throw _ => (item, false)
         end)
      0 (SafeArray.data this) in
  SafeArrayImpl (VArray (map fst (filter snd keep))) None.

Definition SafeArray_reduce {U : Type} (this : SafeArray.t)
    (fn : U -> jsval -> nat -> completion U) (initial : U) : U :=
  reducei_from
    (fun acc item index =>
       match fn acc item index with
       | Return acc' => acc'
       | Throw _ => acc
       end)
    0 (SafeArray.data this) initial.

Definition SafeArray_at (this : SafeArray.t) (index : number) : jsval :=
  let safeIndex := SafeNumberImpl (VNumber index) (Fin 0) in
  if negb (SafeNumber.isValid safeIndex) || negb (SafeNumber.isInteger safeIndex)
  then VNull
  else
    let idx := SafeNumber.value safeIndex in
    if (idx <? Fin 0)%js || (idx >=? ofNat (SafeArray.length this))%js
    then VNull
    else or_else (element (SafeArray.data this) idx) VNull.

Definition SafeArray_isEmpty (this : SafeArray.t) : bool :=
  Nat.eqb (SafeArray.length this) 0.

Definition SafeArray_toArray (this : SafeArray.t) : list jsval :=
  SafeArray.data this.

End SafeArrayMethods.

(* ================================================================== *)
(** ** SafeMath.calculate                                              *)
(* ================================================================== *)

Module SafeCalculationResult.

Record t (T : Type) : Type := mk {
  success : bool;
  value : option T;
  error : option string;
  fallback : T
}.
Arguments mk {T}.
Arguments success {T}.
Arguments value {T}.
Arguments error {T}.
Arguments fallback {T}.

End SafeCalculationResult.

(** [SafeMath.calculate(calculation, fallback, context)]; a calculation
    returns a value, or [null]/[undefined] ([None]), or throws. *)
Definition calculate {T : Type} (calculation : unit -> completion (option T))
    (fallback : T) : SafeCalculationResult.t T :=
  match calculation tt with
  | Return None =>
      SafeCalculationResult.mk false None
        (Some "Calculation returned null/undefined"%string) fallback
  | Return (Some result) =>
      SafeCalculationResult.mk true (Some result) None fallback
  | Throw message =>
      SafeCalculationResult.mk false None (Some message) fallback
  end.

(* ================================================================== *)
(** ** ChartSafety.generateSafeTicks                                   *)
(* ================================================================== *)

Section ChartSafety.
Context {host : Host}.

(** The loop [for (let i = 0; i < safeTickCount; i++) ticks.push(...)]
    on the pair of [i] and [ticks]. *)
Definition ticks_cond (safeTickCount : number) (s : nat * list number) : bool :=
  (ofNat (fst s) <? safeTickCount)%js.

Definition ticks_body (safeMin step : number) (s : nat * list number)
    : nat * list number :=
  (S (fst s), snd s ++ [(safeMin + ofNat (fst s) * step)%js]).

(** [None] when the loop is still running after [fuel] tests. *)
Definition generateSafeTicks (fuel : nat) (min max tickCount : number)
    : option (list number) :=
  let safeMin := SafeNumber.value (safeNumber (VNumber min) (Fin 0)) in
  let safeMax := SafeNumber.value (safeNumber (VNumber max) (Fin 0)) in
  let safeTickCount :=
    SafeNumber.value
      (SafeNumber_clamp (safeNumber (VNumber tickCount) (Fin 5)) (Fin 2) (Fin 20)) in
  if (safeMax <=? safeMin)%js then Some [safeMin]
  else
    let step := ((safeMax - safeMin) / (safeTickCount - Fin 1))%js in
    option_map snd
      (while fuel (ticks_cond safeTickCount) (ticks_body safeMin step) (O, [])).

End ChartSafety.

(* ================================================================== *)
(** ** SafeVirtualScrolling.calculateVisibleItems                      *)
(* ================================================================== *)

Module VirtualScrollState.

Record t : Type := mk {
  scrollTop : number;
  containerHeight : number;
  itemHeight : number;
  overscan : number
}.

End VirtualScrollState.

Module VisibleRange.

Record t : Type := mk {
  startIndex : number;
  endIndex : number;
  totalHeight : number;
  offsetY : number
}.

End VisibleRange.

Section SafeVirtualScrolling.
Context {host : Host}.

(** The type guard handed to [safeArray]: a truthy item whose [id] is a
    string and whose [height] is a number, not [NaN], above zero. *)
Definition isVirtualScrollItem (item : jsval) : bool :=
  truthy item
  && jstype_eqb (typeof (member item "id")) TString
  && match member item "height" with
     | VNumber height => negb (isNaN height) && (height >? Fin 0)%js
     | _ => false
     end.

(** [state.itemHeight || 50]. *)
Definition defaultItemHeight (state : VirtualScrollState.t) : number :=
  if truthy (VNumber (VirtualScrollState.itemHeight state))
  then VirtualScrollState.itemHeight state
  else Fin 50.

(** [safeNumber(item.height, state.itemHeight || 50).value]. *)
Definition heightOf (state : VirtualScrollState.t) (item : jsval) : number :=
  SafeNumber.value (safeNumber (member item "height") (defaultItemHeight state)).

Section Loops.
Variable safeItems : SafeArray.t.
Variable state : VirtualScrollState.t.
Variables scrollTop containerHeight overscan : number.

(** "Find start index": the value of [startIndex] after
    [for (let i = ...; i < safeItems.length; i++)], entered at [i] with
    [remaining = safeItems.length - i]. *)
Fixpoint findStart (remaining i : nat) (currentOffset : number) : number :=
  match remaining with
  | O => Fin 0
  | S remaining' =>
      let item := SafeArray_at safeItems (ofNat i) in
      if negb (truthy item) then findStart remaining' (S i) currentOffset
      else
        let itemHeight := heightOf state item in
        if (currentOffset + itemHeight >? scrollTop)%js
        then Math_max (Fin 0) (ofNat i - overscan)%js
        else findStart remaining' (S i) (currentOffset + itemHeight)%js
  end.

(** "Calculate offset for start index": [currentOffset] after
    [for (let i = ...; i < startIndex; i++)].  [startIndex] is below
    [safeItems.length], which bounds the iterations. *)
Fixpoint offsetBefore (remaining i : nat) (startIndex currentOffset : number)
    : number :=
  match remaining with
  | O => currentOffset
  | S remaining' =>
      if (ofNat i <? startIndex)%js then
        let item := SafeArray_at safeItems (ofNat i) in
        offsetBefore remaining' (S i) startIndex
          (if truthy item then (currentOffset + heightOf state item)%js
           else currentOffset)
      else currentOffset
  end.

(** "Find end index": the value of [endIndex] after
    [for (let i = startIndex; i < safeItems.length; i++)]; [i] starts at
    zero or above, so [safeItems.length] bounds the iterations. *)
Fixpoint findEnd (remaining : nat) (i visibleHeight : number) : number :=
  match remaining with
  | O => Fin 0
  | S remaining' =>
      if (i <? ofNat (SafeArray.length safeItems))%js then
        let item := SafeArray_at safeItems i in
        if negb (truthy item) then findEnd remaining' (i + Fin 1)%js visibleHeight
        else
          let visibleHeight' := (visibleHeight + heightOf state item)%js in
          if (visibleHeight' >? containerHeight)%js
          then Math_min (ofNat (SafeArray.length safeItems) - Fin 1)%js
                        (i + overscan)%js
          else findEnd remaining' (i + Fin 1)%js visibleHeight'
      else Fin 0
  end.

End Loops.

Definition emptyRange : VisibleRange.t :=
  VisibleRange.mk (Fin 0) (Fin 0) (Fin 0) (Fin 0).

(** The function handed to [SafeMath.calculate]. *)
Definition visibleItems (items : jsval) (state : VirtualScrollState.t)
    : VisibleRange.t :=
  let safeItems := safeArray items (Some isVirtualScrollItem) in
  if SafeArray_isEmpty safeItems then emptyRange
  else
    let scrollTop :=
      SafeNumber.value
        (SafeNumber_clamp
           (safeNumber (VNumber (VirtualScrollState.scrollTop state)) (Fin 0))
           (Fin 0) PosInfinity) in
    let containerHeight :=
      SafeNumber.value
        (SafeNumber_clamp
           (safeNumber (VNumber (VirtualScrollState.containerHeight state)) (Fin 400))
           (Fin 100) (Fin 2000)) in
    let overscan :=
      SafeNumber.value
        (SafeNumber_clamp
           (safeNumber (VNumber (VirtualScrollState.overscan state)) (Fin 5))
           (Fin 0) (Fin 20)) in
    let n := SafeArray.length safeItems in
    let startIndex := findStart safeItems state scrollTop overscan n 0 (Fin 0) in
    let currentOffset := offsetBefore safeItems state n 0 startIndex (Fin 0) in
    let endIndex :=
      findEnd safeItems state containerHeight overscan n startIndex (Fin 0) in
    let totalHeight :=
      SafeArray_reduce safeItems
        (fun sum item _ => Return (sum + heightOf state item)%js) (Fin 0) in
    VisibleRange.mk startIndex (Math_max endIndex startIndex) totalHeight
      currentOffset.

(** [calculateVisibleItems(items, state)]: the [value] of the calculation
    result, [None] standing for [null]. *)
Definition calculateVisibleItems (items : jsval) (state : VirtualScrollState.t)
    : option VisibleRange.t :=
  SafeCalculationResult.value
    (calculate (fun _ => Return (Some (visibleItems items state))) emptyRange).

End SafeVirtualScrolling.

(* ================================================================== *)
(** ** IntelligentCache                                                *)
(* ================================================================== *)

Module CacheEntry.

Record t (T : Type) : Type := mk {
  data : T;
  timestamp : Z;
  accessCount : Z;
  size : Z;
  dependencies : list jsval
}.
Arguments mk {T}.
Arguments data {T}.
Arguments timestamp {T}.
Arguments accessCount {T}.
Arguments size {T}.
Arguments dependencies {T}.

End CacheEntry.

(** A [Map<string, V>]: the entries in insertion order, one per key. *)
Section StringMap.
Context {V : Type}.

Fixpoint Map_get (key : string) (m : list (string * V)) : option V :=
  match m with
  | [] => None
  | (k, v) :: rest => if String.eqb k key then Some v else Map_get key rest
  end.

(** A present key keeps its place, a new one goes last. *)
Fixpoint Map_set (key : string) (v : V) (m : list (string * V))
    : list (string * V) :=
  match m with
  | [] => [(key, v)]
  | (k, v0) :: rest =>
      if String.eqb k key then (k, v) :: rest
      else (k, v0) :: Map_set key v rest
  end.

Definition Map_delete (key : string) (m : list (string * V))
    : list (string * V) :=
  filter (fun kv => negb (String.eqb (fst kv) key)) m.

End StringMap.

Module IntelligentCache.

Record t (T : Type) : Type := mk {
  cache : list (string * CacheEntry.t T);
  maxSize : number;
  maxMemory : number;
  currentMemory : Z
}.
Arguments mk {T}.
Arguments cache {T}.
Arguments maxSize {T}.
Arguments maxMemory {T}.
Arguments currentMemory {T}.

End IntelligentCache.

Section IntelligentCacheMethods.
Context {host : Host}.

(** The cached values and what the host tells about them:
    [blobSize obj] is [new Blob([JSON.stringify(obj)]).size], [None] when
    that throws; [stringLength obj] is [obj.length] when [obj] is a string. *)
Context {T : Type}.
Variable blobSize : T -> option Z.
Variable stringLength : T -> option Z.

(** [Date.now()] at its [n]-th call; operations thread the number of calls
    made so far. *)
Variable clock : nat -> Z.

(** [new IntelligentCache(maxSize = 1000, maxMemoryMB = 100)]. *)
Definition new_IntelligentCache (maxSize maxMemoryMB : number)
    : IntelligentCache.t T :=
  IntelligentCache.mk []
    (SafeNumber.value
       (SafeNumber_clamp (safeNumber (VNumber maxSize) (Fin 1000))
          (Fin 100) (Fin 10000)))
    (SafeNumber.value
       (SafeNumber_clamp (safeNumber (VNumber maxMemoryMB) (Fin 100))
          (Fin 10) (Fin 1000)) * Fin 1024 * Fin 1024)%js
    0%Z.

Definition estimateSize (obj : T) : Z :=
  match blobSize obj with
  | Some n => n
  | None =>
      match stringLength obj with
      | Some len => (len * 2)%Z
      | None => 1024%Z
      end
  end.

(** One turn of the loop of [evictLeastUsed] over [cache.entries()]:
    the state is [leastUsedKey], [leastUsedScore] and the clock calls. *)
Definition scanLeastUsed (acc : option string * number * nat)
    (kv : string * CacheEntry.t T) : option string * number * nat :=
  let '(leastUsedKey, leastUsedScore, calls) := acc in
  let age := (clock calls - CacheEntry.timestamp (snd kv))%Z in
  let score := (ofZ age / ofZ (Z.max (CacheEntry.accessCount (snd kv)) 1))%js in
  if (score <? leastUsedScore)%js then (Some (fst kv), score, S calls)
  else (leastUsedKey, leastUsedScore, S calls).

(** [this.currentMemory -= entry.size; this.cache.delete(key)] for the
    entry under [key]; [if (key)] lets the empty string through untouched. *)
Definition evictKey (this : IntelligentCache.t T) (key : option string)
    : IntelligentCache.t T :=
  match key with
  | None => this
  | Some k =>
      if String.eqb k "" then this
      else
        match Map_get k (IntelligentCache.cache this) with
        | None => this
        | Some entry =>
            IntelligentCache.mk
              (Map_delete k (IntelligentCache.cache this))
              (IntelligentCache.maxSize this)
              (IntelligentCache.maxMemory this)
              (IntelligentCache.currentMemory this - CacheEntry.size entry)%Z
        end
  end.

Definition evictLeastUsed (s : IntelligentCache.t T * nat)
    : IntelligentCache.t T * nat :=
  let '(this, calls) := s in
  let '(leastUsedKey, _, calls') :=
    fold_left scanLeastUsed (IntelligentCache.cache this)
      (None, PosInfinity, calls) in
  (evictKey this leastUsedKey, calls').

(** One turn of the loop of [evictLargest]: [largestKey], [largestSize]. *)
Definition scanLargest (acc : option string * Z) (kv : string * CacheEntry.t T)
    : option string * Z :=
  let '(largestKey, largestSize) := acc in
  if (CacheEntry.size (snd kv) >? largestSize)%Z
  then (Some (fst kv), CacheEntry.size (snd kv))
  else (largestKey, largestSize).

Definition evictLargest (s : IntelligentCache.t T * nat)
    : IntelligentCache.t T * nat :=
  let '(this, calls) := s in
  let '(largestKey, _) :=
    fold_left scanLargest (IntelligentCache.cache this) (None, 0%Z) in
  (evictKey this largestKey, calls).

(** [ensureSpace(requiredSize)]: each of the two loops may test its
    condition [fuel] times. *)
Definition overSize (s : IntelligentCache.t T * nat) : bool :=
  (ofNat (List.length (IntelligentCache.cache (fst s)))
     >=? IntelligentCache.maxSize (fst s))%js.

Definition overMemory (requiredSize : Z) (s : IntelligentCache.t T * nat)
    : bool :=
  (ofZ (IntelligentCache.currentMemory (fst s) + requiredSize)
     >? IntelligentCache.maxMemory (fst s))%js.

Definition ensureSpace (fuel : nat) (requiredSize : Z)
    (s : IntelligentCache.t T * nat) : option (IntelligentCache.t T * nat) :=
  match while fuel overSize evictLeastUsed s with
  | None => None
  | Some s' => while fuel (overMemory requiredSize) evictLargest s'
  end.

(** [set(key, data, dependencies = [])]; [None] when a loop of
    [ensureSpace] is still running after [fuel] tests. *)
Definition set (fuel : nat) (key : string) (data : T) (dependencies : jsval)
    (s : IntelligentCache.t T * nat) : option (IntelligentCache.t T * nat) :=
  let '(this, calls) := s in
  let size := estimateSize data in
  let entry :=
    CacheEntry.mk data (clock calls) 1%Z size
      (SafeArray_toArray (safeArray dependencies None)) in
  let calls := S calls in
  let this :=
    match Map_get key (IntelligentCache.cache this) with
    | Some existing =>
        IntelligentCache.mk (IntelligentCache.cache this)
          (IntelligentCache.maxSize this) (IntelligentCache.maxMemory this)
          (IntelligentCache.currentMemory this - CacheEntry.size existing)%Z
    | None => this
    end in
  match ensureSpace fuel size (this, calls) with
  | None => None
  | Some (this, calls) =>
      Some (IntelligentCache.mk
              (Map_set key entry (IntelligentCache.cache this))
              (IntelligentCache.maxSize this) (IntelligentCache.maxMemory this)
              (IntelligentCache.currentMemory this + size)%Z,
            calls)
  end.

(** [get(key)]: the data, [None] for [null], and the updated cache. *)
Definition get (key : string) (s : IntelligentCache.t T * nat)
    : option T * (IntelligentCache.t T * nat) :=
  let '(this, calls) := s in
  match Map_get key (IntelligentCache.cache this) with
  | None => (None, s)
  | Some entry =>
      let entry' :=
        CacheEntry.mk (CacheEntry.data entry) (clock calls)
          (CacheEntry.accessCount entry + 1)%Z (CacheEntry.size entry)
          (CacheEntry.dependencies entry) in
      (Some (CacheEntry.data entry),
       (IntelligentCache.mk
          (Map_set key entry' (IntelligentCache.cache this))
          (IntelligentCache.maxSize this) (IntelligentCache.maxMemory this)
          (IntelligentCache.currentMemory this),
        S calls))
  end.

(** [entry.dependencies.includes(dependency)] for a string. *)
Definition includes (dependencies : list jsval) (dependency : string) : bool :=
  existsb
    (fun d => match d with VString s => String.eqb s dependency | _ => false end)
    dependencies.

(** [invalidateByDependency(dependency)]: the count and the new cache. *)
Definition invalidateByDependency (dependency : string)
    (this : IntelligentCache.t T) : nat * IntelligentCache.t T :=
  let hit (kv : string * CacheEntry.t T) :=
    includes (CacheEntry.dependencies (snd kv)) dependency in
  let removed := filter hit (IntelligentCache.cache this) in
  (List.length removed,
   IntelligentCache.mk
     (filter (fun kv => negb (hit kv)) (IntelligentCache.cache this))
     (IntelligentCache.maxSize this) (IntelligentCache.maxMemory this)
     (fold_left (fun m kv => (m - CacheEntry.size (snd kv))%Z) removed
        (IntelligentCache.currentMemory this))).

Definition clear (this : IntelligentCache.t T) : IntelligentCache.t T :=
  IntelligentCache.mk [] (IntelligentCache.maxSize this)
    (IntelligentCache.maxMemory this) 0%Z.

End IntelligentCacheMethods.

Module CacheStats.

Record t : Type := mk {
  entries : number;
  memoryUsage : number;
  memoryUsagePercent : number;
  hitRate : number
}.

End CacheStats.

Section getStats.
Context {T : Type}.

Definition totalAccess (this : IntelligentCache.t T) : Z :=
  fold_left (fun sum entry => (sum + CacheEntry.accessCount entry)%Z)
    (map snd (IntelligentCache.cache this)) 0%Z.


End getStats.

(* ================================================================== *)
(** ** SafeArray: find and slice                                       *)
(* ================================================================== *)

(** The loop of [find]: the first element, from index [i] on, for which
    the callback returns true; a throwing call is passed over. *)
Fixpoint find_from (fn : jsval -> nat -> completion bool) (i : nat)
    (l : list jsval) : jsval :=
  match l with
  | [] => VNull
  | x :: rest =>
      match fn x i with
      | Return true => x
      | _ => find_from fn (S i) rest
      end
  end.

Definition SafeArray_find (this : SafeArray.t)
    (fn : jsval -> nat -> completion bool) : jsval :=
  find_from fn 0 (SafeArray.data this).

(** ToIntegerOrInfinity on a finite number: rounding towards zero. *)
Definition truncate (q : Q) : Z :=
  if Qlt_bool q 0 then Qceiling q else Qfloor q.

(** The position an argument of [Array.prototype.slice] stands for in an
    array of [len] elements: negative arguments count from the end. *)
Definition relativeIndex (k : number) (len : nat) : nat :=
  match k with
  | NaN | NegInfinity => O
  | PosInfinity => len
  | Fin q =>
      let t := truncate q in
      if (t <? 0)%Z then Z.to_nat (Z.max (Z.of_nat len + t) 0)
      else Nat.min (Z.to_nat t) len
  end.

(** [l.slice(start, end)]; [None] is an [end] left [undefined]. *)
Definition Array_slice {A : Type} (l : list A) (start : number)
    (end_ : option number) : list A :=
  let len := List.length l in
  let k := relativeIndex start len in
  let final :=
    match end_ with
    | None => len
    | Some e => relativeIndex e len
    end in
  firstn (final - k) (skipn k l).

Section SafeArraySlice.
Context {host : Host}.

(** [slice(start = 0, end?)]. *)
Definition SafeArray_slice (this : SafeArray.t) (start : number)
    (end_ : option number) : SafeArray.t :=
  let safeStart := SafeNumber.value (SafeNumberImpl (VNumber start) (Fin 0)) in
  let safeEnd :=
    match end_ with
    | Some e => Some (SafeNumber.value (SafeNumberImpl (VNumber e) (Fin 0)))
    | None => None
    end in
  SafeArrayImpl (VArray (Array_slice (SafeArray.data this) safeStart safeEnd))
    None.

End SafeArraySlice.

(* ================================================================== *)
(** ** SafeMath: min, max, average                                     *)
(* ================================================================== *)

(** The type guard of the three aggregates:
    [typeof n === 'number' && !isNaN(n) && isFinite(n)]. *)
Definition isFiniteNumber (n : jsval) : bool :=
  match n with
  | VNumber x => negb (isNaN x) && isFinite x
  | _ => false
  end.

Section SafeMath.
Context {host : Host}.

(** [SafeMath.min(numbers, fallback = 0)]; [Math.min] coerces its
    arguments to numbers. *)
Definition SafeMath_min (numbers : jsval) (fallback : number) : number :=
  let safeNumbers := safeArray numbers (Some isFiniteNumber) in
  if SafeArray_isEmpty safeNumbers then fallback
  else
    SafeArray_reduce safeNumbers
      (fun min num _ => Return (Math_min min (coerce num))) PosInfinity.

(** [SafeMath.max(numbers, fallback = 0)]. *)
Definition SafeMath_max (numbers : jsval) (fallback : number) : number :=
  let safeNumbers := safeArray numbers (Some isFiniteNumber) in
  if SafeArray_isEmpty safeNumbers then fallback
  else
    SafeArray_reduce safeNumbers
      (fun max num _ => Return (Math_max max (coerce num))) NegInfinity.

(** [SafeMath.average(numbers, fallback = 0)].  The callback [acc + num]
    is only ever handed numbers, the elements the type guard let
    through, and is written for them. *)
Definition SafeMath_average (numbers : jsval) (fallback : number) : number :=
  let safeNumbers := safeArray numbers (Some isFiniteNumber) in
  if SafeArray_isEmpty safeNumbers then fallback
  else
    let sum :=
      SafeArray_reduce safeNumbers
        (fun acc num _ => Return (acc + coerce num)%js) (Fin 0) in
    (sum / ofNat (SafeArray.length safeNumbers))%js.

End SafeMath.

(* ================================================================== *)
(** ** DataValidators                                                  *)
(* ================================================================== *)

Module Point.

Record t : Type := mk {
  x : number;
  y : number
}.

End Point.

(** The object [{ x, y }]. *)
Definition pointObject (p : Point.t) : jsval :=
  VObject [("x"%string, VNumber (Point.x p)); ("y"%string, VNumber (Point.y p))].

(** The type guard of [validateChartData]: an object whose [x] and [y]
    are numbers, neither [NaN] nor infinite. *)
Definition isChartPoint (item : jsval) : bool :=
  truthy item
  && jstype_eqb (typeof item) TObject
  && match member item "x", member item "y" with
     | VNumber x, VNumber y =>
         negb (isNaN x) && negb (isNaN y) && isFinite x && isFinite y
     | _, _ => false
     end.

(** The type guard of [validatePlayerData]. *)
Definition isPlayer (player : jsval) : bool :=
  truthy player
  && jstype_eqb (typeof player) TObject
  && jstype_eqb (typeof (member player "id")) TString
  && jstype_eqb (typeof (member player "name")) TString
  && truthy (member player "position")
  && match member (member player "position") "x",
           member (member player "position") "y" with
     | VNumber x, VNumber y =>
         negb (isNaN x) && negb (isNaN y) && isFinite x && isFinite y
     | _, _ => false
     end.

Section DataValidators.
Context {host : Host}.

(** [extractCoordinates(obj, fallback = { x: 0, y: 0 })]. *)
Definition extractCoordinates (obj : jsval) (fallback : Point.t) : Point.t :=
  if negb (truthy obj) || negb (jstype_eqb (typeof obj) TObject) then fallback
  else
    Point.mk
      (SafeNumber.value (safeNumber (member obj "x") (Point.x fallback)))
      (SafeNumber.value (safeNumber (member obj "y") (Point.y fallback))).

(** The filter of [validateCoordinateArray]:
    [coord.x >= 0 && coord.x <= 100 && coord.y >= 0 && coord.y <= 100];
    the comparisons coerce what they read to numbers. *)
Definition onBoard (coord : jsval) : bool :=
  (coerce (member coord "x") >=? Fin 0)%js
  && (coerce (member coord "x") <=? Fin 100)%js
  && (coerce (member coord "y") >=? Fin 0)%js
  && (coerce (member coord "y") <=? Fin 100)%js.

(** [validateCoordinateArray(arr)]. *)
Definition validateCoordinateArray (arr : jsval) : list jsval :=
  SafeArray_toArray
    (SafeArray_filter
       (SafeArray_map (safeArray arr None)
          (fun item _ =>
             Return (pointObject (extractCoordinates item (Point.mk (Fin 0) (Fin 0))))))
       (fun coord _ => Return (onBoard coord))).

(** [validateChartData(data)]. *)
Definition validateChartData (data : jsval) : list jsval :=
  SafeArray_toArray (safeArray data (Some isChartPoint)).

(** [validatePlayerData(players)]. *)
Definition validatePlayerData (players : jsval) : list jsval :=
  SafeArray_toArray (safeArray players (Some isPlayer)).

End DataValidators.

(* ================================================================== *)
(** ** ChartSafety: createSafeScale and createSafePath                 *)
(* ================================================================== *)

Section ChartSafetyMore.
Context {host : Host}.

(** [createSafeScale(domain, range)]: the scale function it returns. *)
Definition createSafeScale (domain range : number * number) : number -> number :=
  let domainMin := SafeNumber.value (safeNumber (VNumber (fst domain)) (Fin 0)) in
  let domainMax := SafeNumber.value (safeNumber (VNumber (snd domain)) (Fin 0)) in
  let rangeMin := SafeNumber.value (safeNumber (VNumber (fst range)) (Fin 0)) in
  let rangeMax := SafeNumber.value (safeNumber (VNumber (snd range)) (Fin 0)) in
  let domainSpan :=
    if truthy (VNumber (domainMax - domainMin)%js)
    then (domainMax - domainMin)%js
    else Fin 1 in
  let rangeSpan := (rangeMax - rangeMin)%js in
  fun value =>
    let safeValue := SafeNumber.value (safeNumber (VNumber value) (Fin 0)) in
    (rangeMin + (safeValue - domainMin) / domainSpan * rangeSpan)%js.

(** How the host prints a number in a template string. *)
Variable numberToString : number -> string.

(** The piece of the path for one point:
    [`${index === 0 ? 'M' : 'L'} ${x} ${y}`]. *)
Definition pathCommand (point : jsval) (index : nat) : string :=
  let x := SafeNumber.value (safeNumber (member point "x") (Fin 0)) in
  let y := SafeNumber.value (safeNumber (member point "y") (Fin 0)) in
  ((if Nat.eqb index 0 then "M" else "L")
   ++ " " ++ numberToString x ++ " " ++ numberToString y)%string.

(** [createSafePath(points)]. *)
Definition createSafePath (points : jsval) : string :=
  let validPoints := validateChartData points in
  if Nat.eqb (List.length validPoints) 0 then ""%string
  else String.concat " " (mapi_from pathCommand 0 validPoints).

End ChartSafetyMore.

(* ================================================================== *)
(** ** SafeMemoization                                                 *)
(* ================================================================== *)

Module MemoEntry.

Record t : Type := mk {
  value : jsval;
  timestamp : Z;
  hitCount : Z
}.

End MemoEntry.

Module SafeMemoization.

(** [cache] holds the own properties of the plain object [this.cache] in
    the order of their creation.  Keys that name a property of
    [Object.prototype] are outside the model. *)
Record t : Type := mk {
  cache : list (string * MemoEntry.t);
  maxSize : number;
  ttl : number
}.

End SafeMemoization.

Module MemoStats.

Record t : Type := mk {
  size : number;
  hitRate : number;
  entries : number
}.

End MemoStats.

(** What [SafeMath.calculate] makes of a result: [null] and [undefined]
    are no value. *)
Definition nullish (v : jsval) : option jsval :=
  match v with
  | VNull | VUndefined => None
  | _ => Some v
  end.

(** [entries.sort((a, b) => a[1].hitCount - b[1].hitCount)].  The sort of
    the language is stable, and the comparator is an order on the hit
    counts: the result is the one stable arrangement by rising hit count,
    reached here by insertion from the right. *)
Fixpoint insertByUsage (x : string * MemoEntry.t)
    (sorted : list (string * MemoEntry.t)) : list (string * MemoEntry.t) :=
  match sorted with
  | [] => [x]
  | y :: rest =>
      if (MemoEntry.hitCount (snd x) - MemoEntry.hitCount (snd y) <=? 0)%Z
      then x :: sorted
      else y :: insertByUsage x rest
  end.

Definition sortByUsage (entries : list (string * MemoEntry.t))
    : list (string * MemoEntry.t) :=
  fold_right insertByUsage [] entries.

Section SafeMemoizationMethods.
Context {host : Host}.

(** [Date.now()] at its [n]-th call, as for the cache below. *)
Variable clock : nat -> Z.

(** [Object.entries] on the cache object: the host lists the own
    properties in an order of its own (keys that are array indices first,
    then the others as created). *)
Variable Object_entries :
  list (string * MemoEntry.t) -> list (string * MemoEntry.t).

(** [new SafeMemoization(maxSize = 100, ttl = 5 * 60 * 1000)]. *)
Definition new_SafeMemoization (maxSize ttl : number) : SafeMemoization.t :=
  SafeMemoization.mk []
    (SafeNumber.value
       (SafeNumber_clamp (safeNumber (VNumber maxSize) (Fin 100))
          (Fin 10) (Fin 1000)))
    (SafeNumber.value
       (SafeNumber_clamp (safeNumber (VNumber ttl) (Fin 300000))
          (Fin 1000) (Fin 3600000))).

(** [now - entry.timestamp > this.ttl]. *)
Definition expired (this : SafeMemoization.t) (now : Z) (entry : MemoEntry.t)
    : bool :=
  (ofZ (now - MemoEntry.timestamp entry) >? SafeMemoization.ttl this)%js.

(** [cleanCache()]. *)
Definition cleanCache (s : SafeMemoization.t * nat) : SafeMemoization.t * nat :=
  let '(this, calls) := s in
  let now := clock calls in
  let entries := Object_entries (SafeMemoization.cache this) in
  let unexpired :=
    fold_left
      (fun cache kv =>
         if expired this now (snd kv) then Map_delete (fst kv) cache else cache)
      entries (SafeMemoization.cache this) in
  let remainingEntries := Object_entries unexpired in
  let cache :=
    if (ofNat (List.length remainingEntries) >? SafeMemoization.maxSize this)%js
    then
      let sortedByUsage := sortByUsage remainingEntries in
      let toRemove :=
        Array_slice sortedByUsage (Fin 0)
          (Some (ofNat (List.length remainingEntries)
                 - SafeMemoization.maxSize this)%js) in
      fold_left (fun cache kv => Map_delete (fst kv) cache) toRemove unexpired
    else unexpired in
  (SafeMemoization.mk cache (SafeMemoization.maxSize this)
     (SafeMemoization.ttl this),
   S calls).

Context {Args : Type}.

(** The calculation that the memoized function hands to
    [SafeMath.calculate], with the state it leaves.  [keyOf] stands for
    [keyGenerator ? keyGenerator(...args) : JSON.stringify(args)]. *)
Definition memoizedCalculation (fn : Args -> completion jsval)
    (keyOf : Args -> completion string) (args : Args)
    (s : SafeMemoization.t * nat) : completion jsval * (SafeMemoization.t * nat) :=
  let '(this, calls) := s in
  match keyOf args with
  | Throw message => (Throw message, s)
  | Return key =>
      let now := clock calls in
      let calls := S calls in
      let hit :=
        match Map_get key (SafeMemoization.cache this) with
        | Some cached =>
            if (ofZ (now - MemoEntry.timestamp cached)
                <? SafeMemoization.ttl this)%js
            then Some cached else None
        | None => None
        end in
      match hit with
      | Some cached =>
          (Return (MemoEntry.value cached),
           (SafeMemoization.mk
              (Map_set key
                 (MemoEntry.mk (MemoEntry.value cached)
                    (MemoEntry.timestamp cached)
                    (MemoEntry.hitCount cached + 1)%Z)
                 (SafeMemoization.cache this))
              (SafeMemoization.maxSize this) (SafeMemoization.ttl this),
            calls))
      | None =>
          match fn args with
          | Throw message => (Throw message, (this, calls))
          | Return result =>
              (Return result,
               cleanCache
                 (SafeMemoization.mk
                    (Map_set key (MemoEntry.mk result now 1%Z)
                       (SafeMemoization.cache this))
                    (SafeMemoization.maxSize this) (SafeMemoization.ttl this),
                  calls))
          end
      end
  end.

(** The function [memoize(fn, keyGenerator)] returns, applied to [args]:
    the [value] of the calculation result, [None] standing for [null]. *)
Definition memoized (fn : Args -> completion jsval)
    (keyOf : Args -> completion string) (args : Args)
    (s : SafeMemoization.t * nat) : option jsval * (SafeMemoization.t * nat) :=
  let '(outcome, s') := memoizedCalculation fn keyOf args s in
  (SafeCalculationResult.value
     (calculate
        (fun _ =>
           match outcome with
           | Return result => Return (nullish result)
           | Throw message => Throw message
           end)
        VUndefined),
   s').

(** [getStats()]. *)
Definition SafeMemoization_getStats (this : SafeMemoization.t) : MemoStats.t :=
  let entries := map snd (Object_entries (SafeMemoization.cache this)) in
  let totalHits :=
    fold_left (fun sum entry => (sum + MemoEntry.hitCount entry)%Z) entries 0%Z in
  let totalCalls := (Z.of_nat (List.length entries) + totalHits)%Z in
  MemoStats.mk (ofNat (List.length entries))
    (if (totalCalls >? 0)%Z
     then (ofZ totalHits / ofZ totalCalls * Fin 100)%js
     else Fin 0)
    (ofNat (List.length entries)).

(** [clear()]. *)
Definition SafeMemoization_clear (this : SafeMemoization.t) : SafeMemoization.t :=
  SafeMemoization.mk [] (SafeMemoization.maxSize this)
    (SafeMemoization.ttl this).

End SafeMemoizationMethods.

(* ================================================================== *)
(** ** The arithmetic on doubles                                       *)
(* ================================================================== *)

(** The program computes on IEEE-754 doubles, the model above on exact
    rationals.  The two agree wherever the exact result of an operation
    is itself a double, because an IEEE-754 operation returns the double
    nearest to the exact result.  The statements below that depend on
    sums, products and quotients say which results have to be doubles;
    the definitions here replay the same lines of the source on the
    doubles of the machine, for the inputs where rounding or overflow
    decides. *)

(** The start-index loop of [calculateVisibleItems] on valid items of the
    given heights, without overscan: [startIndex] stays 0 when the loop
    ends without [break]. *)
Fixpoint findStart_binary64 (heights : list PrimFloat.float) (i : nat)
    (currentOffset scrollTop : PrimFloat.float) : nat :=
  match heights with
  | [] => O
  | itemHeight :: rest =>
      if PrimFloat.ltb scrollTop (PrimFloat.add currentOffset itemHeight)
      then i
      else findStart_binary64 rest (S i)
             (PrimFloat.add currentOffset itemHeight) scrollTop
  end.

(** [safeMin + i * step] with
    [step = (safeMax - safeMin) / (safeTickCount - 1)]. *)
Definition tick_binary64 (safeMin safeMax safeTickCount i : PrimFloat.float)
    : PrimFloat.float :=
  PrimFloat.add safeMin
    (PrimFloat.mul i
       (PrimFloat.div (PrimFloat.sub safeMax safeMin)
          (PrimFloat.sub safeTickCount PrimFloat.one))).

(** [numbers.reduce((acc, num) => acc + num, 0) / numbers.length] on
    finite numbers. *)
Definition average_binary64 (numbers : list PrimFloat.float) : PrimFloat.float :=
  PrimFloat.div (fold_left PrimFloat.add numbers PrimFloat.zero)
    (PrimFloat.of_uint63 (Uint63.of_Z (Z.of_nat (List.length numbers)))).

(** The scale of [createSafeScale] on finite bounds and a finite
    argument. *)
Definition scale_binary64 (domainMin domainMax rangeMin rangeMax value
    : PrimFloat.float) : PrimFloat.float :=
  let span := PrimFloat.sub domainMax domainMin in
  let domainSpan :=
    if PrimFloat.is_nan span || PrimFloat.eqb span PrimFloat.zero
    then PrimFloat.one else span in
  let rangeSpan := PrimFloat.sub rangeMax rangeMin in
  PrimFloat.add rangeMin
    (PrimFloat.mul (PrimFloat.div (PrimFloat.sub value domainMin) domainSpan)
       rangeSpan).

(* ================================================================== *)
(** ** Definitions for the statements                                  *)
(* ================================================================== *)

(** [a.map(f)] as the specification words it: the results of [f] on the
    elements where it does not throw, in order. *)
Fixpoint returned_from (fn : jsval -> nat -> completion jsval) (i : nat)
    (l : list jsval) : list jsval :=
  match l with
  | [] => []
  | x :: rest =>
      match fn x i with
      | Return v => v :: returned_from fn (S i) rest
      | Throw _ => returned_from fn (S i) rest
      end
  end.

(** The elements, from index [i] on, for which the callback returns
    true. *)
Fixpoint accepted_from (fn : jsval -> nat -> completion bool) (i : nat)
    (l : list jsval) : list jsval :=
  match l with
  | [] => []
  | x :: rest =>
      match fn x i with
      | Return true => x :: accepted_from fn (S i) rest
      | _ => accepted_from fn (S i) rest
      end
  end.

(** Not one of the holes [null], [undefined], [NaN]. *)
Definition no_hole (v : jsval) : Prop :=
  v <> VNull /\ v <> VUndefined /\ v <> VNumber NaN.

(** The finite numbers among the elements of an array, in order; none for
    a value that is no array. *)
Fixpoint finite_values (items : list jsval) : list Q :=
  match items with
  | [] => []
  | VNumber (Fin q) :: rest => q :: finite_values rest
  | _ :: rest => finite_values rest
  end.

Definition finite_numbers (numbers : jsval) : list Q :=
  match numbers with
  | VArray items => finite_values items
  | _ => []
  end.

Definition sumQ (qs : list Q) : Q := fold_right Qplus 0 qs.

(** The default fallback of [extractCoordinates]. *)
Definition origin : Point.t := Point.mk (Fin 0) (Fin 0).

(** A value whose [x] and [y] are finite numbers. *)
Definition has_finite_xy (p : jsval) : Prop :=
  exists x y : Q,
    member p "x" = VNumber (Fin x) /\ member p "y" = VNumber (Fin y).

(** The finite doubles: the rationals [m * 2 ^ e] with [|m| < 2 ^ 53] and
    [-1074 <= e <= 971]. *)
Definition binary64 (q : Q) : Prop :=
  exists m e : Z,
    (Z.abs m < 2 ^ 53)%Z /\ (-1074 <= e <= 971)%Z /\ q == inject_Z m * 2 ^ e.



(** The running sums of [qs], taken from the left, and the mean are
    doubles. *)
Definition sums_exact (qs : list Q) : Prop :=
  (forall k : nat, (k <= List.length qs)%nat -> binary64 (sumQ (firstn k qs)))
  /\ binary64 (sumQ qs / inject_Z (Z.of_nat (List.length qs))).

(** Every step of the scale from [d0, d1] to [r0, r1] at [v] is a
    double; [span] is the divisor, 1 for a domain of width zero. *)
Definition scale_exact (d0 d1 r0 r1 v : Q) : Prop :=
  let span := if Qeq_bool (d1 - d0) 0 then 1 else d1 - d0 in
  let t := (v - d0) / span in
  binary64 (v - d0) /\ binary64 (d1 - d0) /\ binary64 t
  /\ binary64 (r1 - r0) /\ binary64 (t * (r1 - r0))
  /\ binary64 (r0 + t * (r1 - r0)).

(** [result] is [items] without the elements that are not [P], the others
    in their order and as often as they occur. *)
Inductive kept_exactly (P : jsval -> Prop) : list jsval -> list jsval -> Prop :=
| kept_none : kept_exactly P [] []
| kept_this (x : jsval) (items result : list jsval) :
    P x -> kept_exactly P items result ->
    kept_exactly P (x :: items) (x :: result)
| kept_skip (x : jsval) (items result : list jsval) :
    ~ P x -> kept_exactly P items result ->
    kept_exactly P (x :: items) result.

(** A player with strings as [id] and [name] and finite numbers as the
    [x] and [y] of its [position]. *)
Definition complete_player (player : jsval) : Prop :=
  (exists id : string, member player "id" = VString id)
  /\ (exists name : string, member player "name" = VString name)
  /\ has_finite_xy (member player "position").

(** The bytes held by a list of entries, and by a cache. *)
Definition bytesOf {T : Type} (m : list (string * CacheEntry.t T)) : Z :=
  fold_right (fun kv sum => (CacheEntry.size (snd kv) + sum)%Z) 0%Z m.

Definition totalBytes {T : Type} (this : IntelligentCache.t T) : Z :=
  bytesOf (IntelligentCache.cache this).

(** [currentMemory] is the bytes held. *)
Definition accounted {T : Type} (this : IntelligentCache.t T) : Prop :=
  IntelligentCache.currentMemory this = totalBytes this.

Definition keys {T : Type} (this : IntelligentCache.t T) : list string :=
  map fst (IntelligentCache.cache this).

(** What every eviction keeps, on the way from [this0] to [this]: distinct
    keys, exact accounting, the absence of [key], the limits, and no more
    entries than before. *)
Definition kept_by_eviction {T : Type} (key : string)
    (this0 this : IntelligentCache.t T) : Prop :=
  NoDup (keys this) /\ accounted this
  /\ ~ In key (keys this)
  /\ IntelligentCache.maxSize this = IntelligentCache.maxSize this0
  /\ IntelligentCache.maxMemory this = IntelligentCache.maxMemory this0
  /\ (List.length (IntelligentCache.cache this)
      <= List.length (IntelligentCache.cache this0))%nat.

(** A cache in which every entry can be evicted: distinct keys, none of
    them empty, sizes above zero, and no more bytes counted than held. *)
Definition evictable {T : Type} (this : IntelligentCache.t T) : Prop :=
  NoDup (keys this)
  /\ ~ In ""%string (keys this)
  /\ Forall (fun kv => (0 < CacheEntry.size (snd kv))%Z)
       (IntelligentCache.cache this)
  /\ (IntelligentCache.currentMemory this <= totalBytes this)%Z.


(** [totalHeight] as the specification words it: an item without a valid
    positive height counts with the default item height. *)
Definition claimed_totalHeight {host : Host} (items : list jsval)
    (state : VirtualScrollState.t) : number :=
  fold_left
    (fun sum item =>
       (sum + (if isVirtualScrollItem item then heightOf state item
               else VirtualScrollState.itemHeight state))%js)
    items (Fin 0).

(** The finite value of [x], or [fallback] when [x] is not finite. *)
Definition finite_or (x : number) (fallback : Q) : Q :=
  match x with Fin q => q | _ => fallback end.

(** [q] clamped to the interval from [lo] to [hi]. *)
Definition clampQ (lo hi q : Q) : Q :=
  if Qlt_bool q lo then lo else if Qlt_bool hi q then hi else q.

(* ================================================================== *)
(** ** Concrete inputs                                                 *)
(* ================================================================== *)

(** A host for the closed evaluations: it agrees with [Number()] on
    [undefined], [null], the booleans and the strings that spell no
    number; strings that spell one, arrays and objects are never
    converted in the runs below. *)
Definition sample_host : Host :=
  {| ToNumber := fun v =>
       match v with
       | VNumber n => n
       | VNull | VBoolean false => Fin 0
       | VBoolean true => Fin 1
       | _ => NaN
       end |}.

(** [{ id, height, data: null }]. *)
Definition scrollItem (id : string) (height : number) : jsval :=
  VObject [("id"%string, VString id); ("height"%string, VNumber height);
           ("data"%string, VNull)].

Definition fourItems : list jsval :=
  [scrollItem "a" (Fin 10); scrollItem "b" (Fin 10);
   scrollItem "c" (Fin 10); scrollItem "d" (Fin 10)].

(** [x => x === 2 ? null : x * 2], on numbers. *)
Definition null_on_two (item : jsval) (index : nat) : completion jsval :=
  match item with
  | VNumber x =>
      if (x === Fin 2)%js then Return VNull else Return (VNumber (x * Fin 2)%js)
  | _ => Return (VNumber NaN)
  end.

(** [x => { if (x === 2) throw new Error('Test error'); return x * 2; }],
    on numbers. *)
Definition throw_on_two (item : jsval) (index : nat) : completion jsval :=
  match item with
  | VNumber x =>
      if (x === Fin 2)%js then Throw "Test error"
      else Return (VNumber (x * Fin 2)%js)
  | _ => Return (VNumber NaN)
  end.

(** Cached values named by their size: [bytes] stands for a value whose
    JSON text fills [bytes] bytes. *)
Definition sized_set (clock : nat -> Z) (fuel : nat) (key : string) (bytes : Z)
    (s : option (IntelligentCache.t Z * nat))
    : option (IntelligentCache.t Z * nat) :=
  match s with
  | Some s => set Some (fun _ => None) clock fuel key bytes (VArray []) s
  | None => None
  end.

(** [new IntelligentCache(100, 10)]: at most 100 entries and 10 MB. *)
Definition smallCache : IntelligentCache.t Z :=
  new_IntelligentCache (host := sample_host) (Fin 100) (Fin 10).

(** A memoization cache at its limit of 10 entries, each of them hit
    once since it was stored, and a host that lists the entries as they
    were created. *)
Definition usedEntry (key : string) : string * MemoEntry.t :=
  (key, MemoEntry.mk (VNumber (Fin 1)) 1700000000000%Z 2%Z).

Definition fullMemo : SafeMemoization.t :=
  SafeMemoization.mk
    (map usedEntry
       ["a"; "b"; "c"; "d"; "e"; "f"; "g"; "h"; "i"; "j"]%string)
    (Fin 10) (Fin 300000).

Definition listedAsCreated (m : list (string * MemoEntry.t))
    : list (string * MemoEntry.t) := m.

(** [new SafeMemoization()]: at most 100 entries, kept for five minutes. *)
Definition emptyMemo : SafeMemoization.t :=
  new_SafeMemoization (host := sample_host) (Fin 100) (Fin 300000).

(** A function to memoize, on one number: its argument plus one. *)
Definition plusOne (x : number) : completion jsval :=
  Return (VNumber (x + Fin 1)%js).

(** A fixed key for every argument, as a [keyGenerator]. *)
Definition sameKey (x : number) : completion string := Return "k"%string.

(** The double nearest to an integer, for [double_rounding]. *)
Definition double (z : Z) : PrimFloat.float :=
  PrimFloat.of_uint63 (Uint63.of_Z z).

(** The double [2 ^ k]. *)
Definition twoTo (k : nat) : PrimFloat.float :=
  Nat.iter k (PrimFloat.mul (double 2)) (double 1).

(** A clock that advances by one millisecond per reading. *)
Definition tickingClock (n : nat) : Z := (1700000000000 + Z.of_nat n)%Z.

(* ================================================================== *)
(** ** Numbers: basic facts                                            *)
(* ================================================================== *)

Lemma Qlt_bool_iff (a b : Q) : Qlt_bool a b = true <-> a < b.
Proof.
  unfold Qlt_bool. rewrite negb_true_iff.
  split; intro H.
  - destruct (Qlt_le_dec a b) as [Hlt | Hle]; [exact Hlt |].
    apply Qle_bool_iff in Hle. congruence.
  - destruct (Qle_bool b a) eqn:E; [| reflexivity].
    apply Qle_bool_iff in E. exfalso. exact (Qlt_not_le _ _ H E).
Qed.

Lemma Qlt_bool_false_iff (a b : Q) : Qlt_bool a b = false <-> b <= a.
Proof.
  unfold Qlt_bool. rewrite negb_false_iff. apply Qle_bool_iff.
Qed.

Lemma Qle_bool_false_iff (a b : Q) : Qle_bool a b = false <-> b < a.
Proof.
  rewrite <- Qlt_bool_iff. unfold Qlt_bool.
  destruct (Qle_bool a b); simpl; split; congruence.
Qed.

Lemma Qfloor_inject_Z (z : Z) : Qfloor (inject_Z z) = z.
Proof. apply Qfloor_Z. Qed.

Lemma isInteger_ofZ (z : Z) : Number_isInteger (ofZ z) = true.
Proof.
  unfold Number_isInteger, ofZ. rewrite Qfloor_inject_Z. apply Qeq_bool_refl.
Qed.

Lemma lt_ofNat (i n : nat) : (ofNat i <? ofNat n)%js = Nat.ltb i n.
Proof.
  unfold ofNat, ofZ, lt.
  destruct (Nat.ltb i n) eqn:E.
  - apply Nat.ltb_lt in E. apply Qlt_bool_iff. rewrite <- Zlt_Qlt. lia.
  - apply Nat.ltb_ge in E. apply Qlt_bool_false_iff. rewrite <- Zle_Qle. lia.
Qed.

Lemma le_ofNat (i n : nat) : (ofNat i <=? ofNat n)%js = Nat.leb i n.
Proof.
  unfold ofNat, ofZ, le.
  destruct (Nat.leb i n) eqn:E.
  - apply Nat.leb_le in E. apply Qle_bool_iff. rewrite <- Zle_Qle. lia.
  - apply Nat.leb_gt in E. apply Qle_bool_false_iff. rewrite <- Zlt_Qlt. lia.
Qed.

Lemma element_ofNat (data : list jsval) (i : nat) :
  element data (ofNat i) = nth i data VUndefined.
Proof.
  pose proof (isInteger_ofZ (Z.of_nat i)) as Hint.
  assert (H : Qle_bool 0 (inject_Z (Z.of_nat i)) = true).
  { apply Qle_bool_iff. change 0 with (inject_Z 0). rewrite <- Zle_Qle. lia. }
  unfold element, ofNat, ofZ in *.
  rewrite Hint, H, Qfloor_inject_Z, Nat2Z.id. reflexivity.
Qed.

(* ================================================================== *)
(** ** SafeNumber                                                      *)
(* ================================================================== *)

Section SafeNumberProperties.
Context {host : Host}.

Lemma SafeNumberImpl_number_valid (q : Q) (fallback : number) :
  SafeNumberImpl (VNumber (Fin q)) fallback
  = SafeNumber.mk (Fin q) true true (Number_isInteger (Fin q)).
Proof. reflexivity. Qed.

Lemma SafeNumberImpl_value_cases (input : jsval) (fallback : number) :
  SafeNumber.value (SafeNumberImpl input fallback)
  = if isFinite (coerce input) then coerce input else fallback.
Proof.
  unfold SafeNumberImpl. simpl. destruct (coerce input); reflexivity.
Qed.

(** C3 (amended).  [safeNumber(input, fallback)] carries the coerced input
    and [isValid = true] when that is finite, the fallback and
    [isValid = false] when it is not; its [value] is finite whenever the
    fallback is. *)
Theorem safeNumber_value_finite_when_fallback_is
    (input : jsval) (fallback : number) :
  let s := safeNumber input fallback in
  (isFinite (coerce input) = true ->
     SafeNumber.value s = coerce input /\ SafeNumber.isValid s = true)
  /\ (isFinite (coerce input) = false ->
     SafeNumber.value s = fallback /\ SafeNumber.isValid s = false)
  /\ (isFinite fallback = true -> isFinite (SafeNumber.value s) = true).
Proof.
  unfold safeNumber, SafeNumberImpl. simpl.
  destruct (coerce input) eqn:E; simpl; repeat split;
    intros; try discriminate; auto.
Qed.

(** C8.  Dividing by zero gives a valid SafeNumber of value [0]: for the
    literal divisor [0] on any [safeNumber(input, fallback)], and for every
    divisor, number or SafeNumber, whose value is zero. *)
Theorem divide_by_zero_is_zero (input : jsval) (fallback : number) :
  let n := safeNumber input fallback in
  SafeNumber.value (SafeNumber_divide n (Num (Fin 0))) = Fin 0
  /\ (forall other : operand,
        (otherVal other === Fin 0)%js = true ->
        SafeNumber_divide n other = SafeNumber.mk (Fin 0) true true true).
Proof.
  split.
  - reflexivity.
  - intros other H. unfold SafeNumber_divide. rewrite H. reflexivity.
Qed.

End SafeNumberProperties.

(* ================================================================== *)
(** ** SafeArray                                                       *)
(* ================================================================== *)

Section SafeArrayProperties.
Context {host : Host}.

Lemma SafeArrayImpl_array_data (items : list jsval) :
  SafeArray.data (SafeArrayImpl (VArray items) None)
  = filter default_validator items.
Proof. reflexivity. Qed.

Lemma SafeArrayImpl_length (input : jsval) (validator : option (jsval -> bool)) :
  SafeArray.length (SafeArrayImpl input validator)
  = List.length (SafeArray.data (SafeArrayImpl input validator)).
Proof. destruct input; reflexivity. Qed.

(** A throwing call leaves [null] in the mapped array, and the constructor
    removes it with the other holes. *)
Lemma filter_mapped_returned (fn : jsval -> nat -> completion jsval)
    (l : list jsval) (i : nat) :
  filter default_validator
    (mapi_from
       (fun item index =>
          match fn item index with Return v => v | Throw _ => VNull end) i l)
  = filter default_validator (returned_from fn i l).
Proof.
  revert i. induction l as [| x rest IH]; intro i; simpl.
  - reflexivity.
  - destruct (fn x i) as [v | message]; simpl.
    + rewrite IH. reflexivity.
    + apply IH.
Qed.

Lemma filter_all_true {A : Type} (p : A -> bool) (l : list A) :
  (forall x, In x l -> p x = true) -> filter p l = l.
Proof.
  induction l as [| x rest IH]; intro H; simpl.
  - reflexivity.
  - rewrite (H x (or_introl eq_refl)). f_equal. apply IH.
    intros y Hy. apply H. right. exact Hy.
Qed.

Lemma returned_from_In (fn : jsval -> nat -> completion jsval)
    (l : list jsval) (i : nat) (v : jsval) :
  In v (returned_from fn i l) -> exists x j, fn x j = Return v.
Proof.
  revert i. induction l as [| x rest IH]; intro i; simpl.
  - intros [].
  - destruct (fn x i) as [w | message] eqn:E.
    + intros [-> | H]; [exists x, i; exact E | exact (IH _ H)].
    + apply IH.
Qed.

(** C7 (amended).  [a.map(f)] holds, in order, the results of [f] on the
    elements where it does not throw, without those results that are
    [null], [undefined] or [NaN]; it drops exactly the throwing elements
    when [f] returns none of these three. *)
Theorem map_drops_throwing_and_hole_results (a : SafeArray.t)
    (fn : jsval -> nat -> completion jsval) :
  let kept := filter default_validator (returned_from fn 0 (SafeArray.data a)) in
  SafeArray.data (SafeArray_map a fn) = kept
  /\ SafeArray.length (SafeArray_map a fn) = List.length kept
  /\ ((forall x i v, fn x i = Return v -> default_validator v = true) ->
      SafeArray.data (SafeArray_map a fn)
      = returned_from fn 0 (SafeArray.data a)).
Proof.
  assert (Hdata : SafeArray.data (SafeArray_map a fn)
                  = filter default_validator
                      (returned_from fn 0 (SafeArray.data a))).
  { unfold SafeArray_map. rewrite SafeArrayImpl_array_data.
    apply filter_mapped_returned. }
  assert (Hlen : SafeArray.length (SafeArray_map a fn)
                 = List.length (SafeArray.data (SafeArray_map a fn))).
  { unfold SafeArray_map. apply SafeArrayImpl_length. }
  cbv zeta. repeat split.
  - exact Hdata.
  - rewrite Hlen, Hdata. reflexivity.
  - intro Hfn. rewrite Hdata. apply filter_all_true.
    intros v Hv. destruct (returned_from_In _ _ _ _ Hv) as (x & j & E).
    exact (Hfn _ _ _ E).
Qed.

(** An integer index below the length reads the element there, and a falsy
    element is turned into [null]. *)
Lemma SafeArray_at_ofNat (a : SafeArray.t) (i : nat) :
  (i < SafeArray.length a)%nat ->
  SafeArray_at a (ofNat i)
  = or_else (nth i (SafeArray.data a) VUndefined) VNull.
Proof.
  intro Hi. unfold SafeArray_at.
  change (SafeNumberImpl (VNumber (ofNat i)) (Fin 0))
    with (SafeNumber.mk (ofNat i) true true (Number_isInteger (ofNat i))).
  cbn [SafeNumber.isValid SafeNumber.isInteger SafeNumber.value].
  unfold ofNat at 1. rewrite isInteger_ofZ.
  change (Fin 0) with (ofNat 0). unfold ge.
  rewrite lt_ofNat, le_ofNat.
  replace (Nat.leb (SafeArray.length a) i) with false
    by (symmetry; apply Nat.leb_gt; exact Hi).
  cbn [negb orb Nat.ltb Nat.leb].
  rewrite element_ofNat. reflexivity.
Qed.

(** C10.  At an integer index below the length, [at] gives the stored
    element when it is truthy and [null] when it is falsy. *)
Theorem at_in_range_is_element_or_null (a : SafeArray.t) (i : nat) :
  (i < SafeArray.length a)%nat ->
  SafeArray_at a (ofNat i)
  = if truthy (nth i (SafeArray.data a) VUndefined)
    then nth i (SafeArray.data a) VUndefined
    else VNull.
Proof.
  intro Hi. rewrite (SafeArray_at_ofNat a i Hi). reflexivity.
Qed.

End SafeArrayProperties.

(* ================================================================== *)
(** ** ChartSafety.generateSafeTicks                                   *)
(* ================================================================== *)


Lemma same_refl (x : number) : same x x.
Proof. destruct x; simpl; auto. reflexivity. Qed.


Lemma same_trans (x y z : number) : same x y -> same y z -> same x z.
Proof.
  destruct x, y, z; simpl; auto; try contradiction.
  intros H1 H2. rewrite H1. exact H2.
Qed.


Section TicksProperties.
Context {host : Host}.

Lemma safeNumber_number_value (x : number) (fallback : Q) :
  SafeNumber.value (safeNumber (VNumber x) (Fin fallback))
  = Fin (finite_or x fallback).
Proof. destruct x; reflexivity. Qed.

Lemma clamp_value (s : SafeNumber.t) (lo hi v : Q) :
  SafeNumber.value s = Fin v -> lo <= hi ->
  exists c, SafeNumber.value (SafeNumber_clamp s (Fin lo) (Fin hi)) = Fin c
            /\ c == clampQ lo hi v.
Proof.
  intros Hv Hle. unfold SafeNumber_clamp. rewrite Hv.
  unfold Math_min, Math_max, lt, clampQ.
  destruct (Qlt_bool v hi) eqn:E1.
  - destruct (Qlt_bool lo v) eqn:E2.
    + exists v. split; [reflexivity |].
      apply Qlt_bool_iff in E1. apply Qlt_bool_iff in E2.
      replace (Qlt_bool v lo) with false
        by (symmetry; apply Qlt_bool_false_iff; lra).
      replace (Qlt_bool hi v) with false
        by (symmetry; apply Qlt_bool_false_iff; lra).
      reflexivity.
    + exists lo. split; [reflexivity |].
      apply Qlt_bool_iff in E1. apply Qlt_bool_false_iff in E2.
      destruct (Qlt_bool v lo) eqn:E3; [reflexivity |].
      apply Qlt_bool_false_iff in E3.
      replace (Qlt_bool hi v) with false
        by (symmetry; apply Qlt_bool_false_iff; lra).
      lra.
  - apply Qlt_bool_false_iff in E1.
    replace (Qlt_bool v lo) with false
      by (symmetry; apply Qlt_bool_false_iff; lra).
    destruct (Qlt_bool lo hi) eqn:E2.
    + exists hi. split; [reflexivity |].
      destruct (Qlt_bool hi v) eqn:E3; [reflexivity |].
      apply Qlt_bool_false_iff in E3. lra.
    + exists lo. split; [reflexivity |].
      apply Qlt_bool_false_iff in E2.
      destruct (Qlt_bool hi v) eqn:E3; [lra |].
      apply Qlt_bool_false_iff in E3. lra.
Qed.

Lemma clampQ_range (lo hi q : Q) :
  lo <= hi -> lo <= clampQ lo hi q <= hi.
Proof.
  intro Hle. unfold clampQ.
  destruct (Qlt_bool q lo) eqn:E1; [lra |].
  apply Qlt_bool_false_iff in E1.
  destruct (Qlt_bool hi q) eqn:E2; [lra |].
  apply Qlt_bool_false_iff in E2. lra.
Qed.





End TicksProperties.

(* ================================================================== *)
(** ** SafeVirtualScrolling.calculateVisibleItems                      *)
(* ================================================================== *)

Lemma filter_idempotent {A : Type} (p : A -> bool) (l : list A) :
  filter p (filter p l) = filter p l.
Proof.
  apply filter_all_true. intros x Hx. apply filter_In in Hx. apply Hx.
Qed.

Lemma reducei_from_fold_left {A U : Type} (f : U -> A -> U) (l : list A) :
  forall (i : nat) (acc : U),
    reducei_from (fun acc x _ => f acc x) i l acc = fold_left f l acc.
Proof.
  induction l as [| x rest IH]; intros i acc; simpl; [reflexivity | apply IH].
Qed.


Section VirtualScrollingProperties.
Context {host : Host}.

Lemma calculateVisibleItems_value (items : jsval) (state : VirtualScrollState.t) :
  calculateVisibleItems items state = Some (visibleItems items state).
Proof. reflexivity. Qed.

(** The validator decides once and for all: items it rejects are gone
    before any height is read. *)
Lemma visibleItems_rejected_dropped (items : list jsval)
    (state : VirtualScrollState.t) :
  visibleItems (VArray items) state
  = visibleItems (VArray (filter isVirtualScrollItem items)) state.
Proof.
  unfold visibleItems, safeArray, SafeArrayImpl.
  rewrite filter_idempotent. reflexivity.
Qed.

Lemma visibleItems_totalHeight (items : list jsval)
    (state : VirtualScrollState.t) :
  VisibleRange.totalHeight (visibleItems (VArray items) state)
  = fold_left (fun sum item => (sum + heightOf state item)%js)
      (filter isVirtualScrollItem items) (Fin 0).
Proof.
  unfold visibleItems.
  set (safeItems := safeArray (VArray items) (Some isVirtualScrollItem)).
  assert (Hdata : SafeArray.data safeItems = filter isVirtualScrollItem items)
    by reflexivity.
  assert (Hlen : SafeArray.length safeItems
                 = List.length (filter isVirtualScrollItem items))
    by reflexivity.
  unfold SafeArray_isEmpty. rewrite Hlen.
  destruct (filter isVirtualScrollItem items) as [| x kept] eqn:E.
  - reflexivity.
  - simpl Nat.eqb. cbv iota. cbn [VisibleRange.totalHeight].
    unfold SafeArray_reduce. rewrite Hdata.
    apply (reducei_from_fold_left
             (fun sum item => (sum + heightOf state item)%js)).
Qed.

(** What an accepted item contributes: its height, or the default height
    when its height is [Infinity]. *)
Lemma heightOf_accepted (state : VirtualScrollState.t) (item : jsval) :
  isVirtualScrollItem item = true ->
  (exists q, member item "height" = VNumber (Fin q) /\ 0 < q
             /\ heightOf state item = Fin q)
  \/ (member item "height" = VNumber PosInfinity
      /\ heightOf state item = defaultItemHeight state).
Proof.
  unfold isVirtualScrollItem, heightOf. intro H.
  apply andb_true_iff in H. destruct H as [_ H].
  destruct (member item "height") as [| | | height | | |]; try discriminate.
  destruct height as [| | | q]; try discriminate.
  - right. split; reflexivity.
  - left. exists q. apply andb_true_iff in H. destruct H as [_ H].
    apply Qlt_bool_iff in H. split; [reflexivity |].
    split; [exact H | reflexivity].
Qed.

(** C4 (amended).  An item without a valid positive height is dropped by
    the validator and contributes nothing: the result is that of the
    accepted items alone, and [totalHeight] adds up their heights only,
    where an accepted item counts with its own height when that is finite
    and with the default item height when it is [Infinity]. *)
Theorem invalid_height_items_are_dropped (items : list jsval)
    (state : VirtualScrollState.t) :
  let accepted := filter isVirtualScrollItem items in
  exists r,
    calculateVisibleItems (VArray items) state = Some r
    /\ calculateVisibleItems (VArray accepted) state = Some r
    /\ VisibleRange.totalHeight r
       = fold_left (fun sum item => (sum + heightOf state item)%js)
           accepted (Fin 0)
    /\ (forall item, In item accepted ->
          (exists q, member item "height" = VNumber (Fin q) /\ 0 < q
                     /\ heightOf state item = Fin q)
          \/ (member item "height" = VNumber PosInfinity
              /\ heightOf state item = defaultItemHeight state)).
Proof.
  cbv zeta. exists (visibleItems (VArray items) state).
  split; [apply calculateVisibleItems_value |].
  split; [rewrite calculateVisibleItems_value, <- visibleItems_rejected_dropped;
          reflexivity |].
  split; [apply visibleItems_totalHeight |].
  intros item Hin. apply filter_In in Hin.
  apply heightOf_accepted. apply Hin.
Qed.




Lemma findStart_S (safeItems : SafeArray.t) (state : VirtualScrollState.t)
    (scrollTop overscan : number) (remaining i : nat) (currentOffset : number) :
  findStart safeItems state scrollTop overscan (S remaining) i currentOffset
  = if negb (truthy (SafeArray_at safeItems (ofNat i)))
    then findStart safeItems state scrollTop overscan remaining (S i)
           currentOffset
    else
      if (currentOffset + heightOf state (SafeArray_at safeItems (ofNat i))
          >? scrollTop)%js
      then Math_max (Fin 0) (ofNat i - overscan)%js
      else findStart safeItems state scrollTop overscan remaining (S i)
             (currentOffset + heightOf state (SafeArray_at safeItems (ofNat i)))%js.
Proof. reflexivity. Qed.

Section EqualHeights.
Variable state : VirtualScrollState.t.
Variable items : list jsval.
Variables h s : Q.
Hypothesis h_positive : 0 < h.
Hypothesis items_equal :
  forall item, In item items ->
    typeof (member item "id") = TString /\ member item "height" = VNumber (Fin h).



End EqualHeights.


(** *** The loops bounded by the number of items

    [offsetBefore] and [findEnd] count their iterations down from
    [safeItems.length]; the loops of the source test [i < startIndex] and
    [i < safeItems.length].  More iterations would change nothing: the
    tests have failed by the time the count is used up. *)

Lemma overscan_clamped (x : number) :
  exists o,
    SafeNumber.value
      (SafeNumber_clamp (safeNumber (VNumber x) (Fin 5)) (Fin 0) (Fin 20))
    = Fin o /\ 0 <= o <= 20.
Proof.
  destruct (clamp_value (safeNumber (VNumber x) (Fin 5)) 0 20 (finite_or x 5)
              (safeNumber_number_value _ _)) as (o & Ho & Heq); [lra |].
  exists o. split; [exact Ho |]. rewrite Heq. apply clampQ_range. lra.
Qed.

Lemma findStart_range (safeItems : SafeArray.t) (state : VirtualScrollState.t)
    (scrollTop : number) (o : Q) :
  0 <= o ->
  forall (k i : nat) (currentOffset : number),
    exists x,
      findStart safeItems state scrollTop (Fin o) k i currentOffset = Fin x
      /\ 0 <= x <= inject_Z (Z.of_nat (i + k)).
Proof.
  intros Ho k. induction k as [| k IH]; intros i currentOffset.
  - exists 0. split; [reflexivity |]. split; [lra |].
    change 0 with (inject_Z 0). rewrite <- Zle_Qle. lia.
  - rewrite findStart_S. replace (i + S k)%nat with (S i + k)%nat by lia.
    destruct (negb (truthy (SafeArray_at safeItems (ofNat i)))); [apply IH |].
    destruct (_ >? scrollTop)%js; [| apply IH].
    assert (Hi : inject_Z (Z.of_nat i) <= inject_Z (Z.of_nat (S i + k)))
      by (rewrite <- Zle_Qle; lia).
    assert (Hi0 : 0 <= inject_Z (Z.of_nat i))
      by (change 0 with (inject_Z 0); rewrite <- Zle_Qle; lia).
    unfold sub, neg, add, ofNat, ofZ, Math_max, lt.
    destruct (Qlt_bool 0 (Qred (inject_Z (Z.of_nat i) + Qred (- o)))) eqn:E.
    + eexists. split; [reflexivity |].
      apply Qlt_bool_iff in E. rewrite !Qred_correct in *. lra.
    + exists 0. split; [reflexivity | lra].
Qed.

Lemma offsetBefore_S (safeItems : SafeArray.t) (state : VirtualScrollState.t)
    (remaining i : nat) (startIndex currentOffset : number) :
  offsetBefore safeItems state (S remaining) i startIndex currentOffset
  = if (ofNat i <? startIndex)%js
    then offsetBefore safeItems state remaining (S i) startIndex
           (if truthy (SafeArray_at safeItems (ofNat i))
            then (currentOffset
                  + heightOf state (SafeArray_at safeItems (ofNat i)))%js
            else currentOffset)
    else currentOffset.
Proof. reflexivity. Qed.

Lemma findEnd_S (safeItems : SafeArray.t) (state : VirtualScrollState.t)
    (containerHeight overscan : number) (remaining : nat)
    (i visibleHeight : number) :
  findEnd safeItems state containerHeight overscan (S remaining) i visibleHeight
  = if (i <? ofNat (SafeArray.length safeItems))%js then
      if negb (truthy (SafeArray_at safeItems i))
      then findEnd safeItems state containerHeight overscan remaining
             (i + Fin 1)%js visibleHeight
      else
        if (visibleHeight + heightOf state (SafeArray_at safeItems i)
            >? containerHeight)%js
        then Math_min (ofNat (SafeArray.length safeItems) - Fin 1)%js
                      (i + overscan)%js
        else findEnd safeItems state containerHeight overscan remaining
               (i + Fin 1)%js
               (visibleHeight + heightOf state (SafeArray_at safeItems i))%js
    else Fin 0.
Proof. reflexivity. Qed.

Lemma offsetBefore_more_iterations (safeItems : SafeArray.t)
    (state : VirtualScrollState.t) (startIndex : number) (extra : nat) :
  forall (k i : nat) (currentOffset : number),
    (ofNat (i + k) <? startIndex)%js = false ->
    offsetBefore safeItems state (k + extra) i startIndex currentOffset
    = offsetBefore safeItems state k i startIndex currentOffset.
Proof.
  induction k as [| k IH]; intros i currentOffset Hstop.
  - rewrite Nat.add_0_r in Hstop.
    destruct extra as [| extra]; cbn [Nat.add]; [reflexivity |].
    rewrite offsetBefore_S, Hstop. reflexivity.
  - cbn [Nat.add]. rewrite !offsetBefore_S.
    destruct (ofNat i <? startIndex)%js; [| reflexivity].
    apply IH. replace (S i + k)%nat with (i + S k)%nat by lia. exact Hstop.
Qed.

Lemma findEnd_more_iterations (safeItems : SafeArray.t)
    (state : VirtualScrollState.t) (containerHeight overscan : number)
    (extra : nat) :
  forall (k : nat) (x : Q) (visibleHeight : number),
    inject_Z (Z.of_nat (SafeArray.length safeItems))
    <= x + inject_Z (Z.of_nat k) ->
    findEnd safeItems state containerHeight overscan (k + extra) (Fin x)
      visibleHeight
    = findEnd safeItems state containerHeight overscan k (Fin x) visibleHeight.
Proof.
  induction k as [| k IH]; intros x visibleHeight Hx.
  - change (inject_Z (Z.of_nat 0)) with 0 in Hx.
    destruct extra as [| extra]; cbn [Nat.add]; [reflexivity |].
    rewrite findEnd_S.
    replace (Fin x <? ofNat (SafeArray.length safeItems))%js with false;
      [reflexivity |].
    symmetry. apply Qlt_bool_false_iff. lra.
  - assert (Hnext : inject_Z (Z.of_nat (SafeArray.length safeItems))
                    <= Qred (x + 1) + inject_Z (Z.of_nat k)).
    { rewrite Qred_correct. rewrite Nat2Z.inj_succ in Hx. unfold Z.succ in Hx.
      rewrite inject_Z_plus in Hx. change (inject_Z 1) with 1 in Hx. lra. }
    cbn [Nat.add]. rewrite !findEnd_S.
    destruct (Fin x <? ofNat (SafeArray.length safeItems))%js;
      [| reflexivity].
    change (Fin x + Fin 1)%js with (Fin (Qred (x + 1))).
    destruct (negb (truthy (SafeArray_at safeItems (Fin x))));
      [exact (IH _ _ Hnext) |].
    destruct (_ >? containerHeight)%js; [reflexivity | exact (IH _ _ Hnext)].
Qed.

(** In [calculateVisibleItems] the start index lies between 0 and the
    number of items, so both loops have ended within that many turns. *)
Lemma visibleItems_loops_complete (safeItems : SafeArray.t)
    (state : VirtualScrollState.t) (scrollTop containerHeight : number)
    (extra : nat) :
  let overscan :=
    SafeNumber.value
      (SafeNumber_clamp
         (safeNumber (VNumber (VirtualScrollState.overscan state)) (Fin 5))
         (Fin 0) (Fin 20)) in
  let n := SafeArray.length safeItems in
  let startIndex := findStart safeItems state scrollTop overscan n 0 (Fin 0) in
  offsetBefore safeItems state (n + extra) 0 startIndex (Fin 0)
  = offsetBefore safeItems state n 0 startIndex (Fin 0)
  /\ findEnd safeItems state containerHeight overscan (n + extra) startIndex
       (Fin 0)
     = findEnd safeItems state containerHeight overscan n startIndex (Fin 0).
Proof.
  cbv zeta.
  destruct (overscan_clamped (VirtualScrollState.overscan state))
    as (o & Ho & Ho0 & _). rewrite Ho.
  destruct (findStart_range safeItems state scrollTop o Ho0
              (SafeArray.length safeItems) 0 (Fin 0)) as (x & Hx & Hx0 & Hxn).
  rewrite Hx. split.
  - apply offsetBefore_more_iterations. apply Qlt_bool_false_iff. exact Hxn.
  - apply findEnd_more_iterations. simpl in Hxn. lra.
Qed.

Lemma inject_Z_pred (n : nat) :
  inject_Z (Z.of_nat n) - 1 <= inject_Z (Z.of_nat (Nat.pred n))
  /\ 0 <= inject_Z (Z.of_nat (Nat.pred n)).
Proof.
  split.
  - change 1 with (inject_Z 1). unfold Qminus.
    rewrite <- inject_Z_opp, <- inject_Z_plus, <- Zle_Qle. lia.
  - change 0 with (inject_Z 0). rewrite <- Zle_Qle. lia.
Qed.

Lemma findStart_below (safeItems : SafeArray.t) (state : VirtualScrollState.t)
    (scrollTop : number) (o : Q) :
  0 <= o ->
  forall (k i : nat) (currentOffset : number),
    exists x,
      findStart safeItems state scrollTop (Fin o) k i currentOffset = Fin x
      /\ 0 <= x <= inject_Z (Z.of_nat (Nat.pred (i + k))).
Proof.
  intros Ho k. induction k as [| k IH]; intros i currentOffset.
  - exists 0. split; [reflexivity |]. split; [lra | apply inject_Z_pred].
  - rewrite findStart_S.
    replace (Nat.pred (i + S k)) with (Nat.pred (S i + k)) by lia.
    destruct (negb (truthy (SafeArray_at safeItems (ofNat i)))); [apply IH |].
    destruct (_ >? scrollTop)%js; [| apply IH].
    assert (Hi : inject_Z (Z.of_nat i) <= inject_Z (Z.of_nat (Nat.pred (S i + k))))
      by (rewrite <- Zle_Qle; lia).
    unfold sub, neg, add, ofNat, ofZ, Math_max, lt.
    destruct (Qlt_bool 0 (Qred (inject_Z (Z.of_nat i) + Qred (- o)))) eqn:E.
    + eexists. split; [reflexivity |].
      apply Qlt_bool_iff in E. rewrite !Qred_correct in *. lra.
    + exists 0. split; [reflexivity |]. split; [lra | apply inject_Z_pred].
Qed.

Lemma findEnd_below (safeItems : SafeArray.t) (state : VirtualScrollState.t)
    (containerHeight : number) (o : Q) :
  forall (k : nat) (x : Q) (visibleHeight : number),
    exists e,
      findEnd safeItems state containerHeight (Fin o) k (Fin x) visibleHeight
      = Fin e
      /\ e <= inject_Z (Z.of_nat (Nat.pred (SafeArray.length safeItems))).
Proof.
  induction k as [| k IH]; intros x visibleHeight.
  - exists 0. split; [reflexivity | apply inject_Z_pred].
  - rewrite findEnd_S.
    destruct (Fin x <? ofNat (SafeArray.length safeItems))%js;
      [| exists 0; split; [reflexivity | apply inject_Z_pred]].
    change (Fin x + Fin 1)%js with (Fin (Qred (x + 1))).
    destruct (negb (truthy (SafeArray_at safeItems (Fin x)))); [apply IH |].
    destruct (_ >? containerHeight)%js; [| apply IH].
    pose proof (inject_Z_pred (SafeArray.length safeItems)) as [Hpred _].
    unfold sub, neg, add, ofNat, ofZ, Math_min, lt.
    destruct (Qlt_bool (Qred (x + o)) _) eqn:E.
    + eexists. split; [reflexivity |].
      apply Qlt_bool_iff in E. rewrite !Qred_correct in *.
      change (- (1)) with (- 1) in E. lra.
    + eexists. split; [reflexivity |]. rewrite !Qred_correct. lra.
Qed.

(** X26.  The range [calculateVisibleItems] returns is always in order
    and inside the list: with [n] accepted items,
    [0 <= startIndex <= endIndex <= n - 1] (both 0 when [n] is 0, where
    the whole result is the zero range), for every scroll state. *)
Theorem visible_range_is_ordered (items : jsval)
    (state : VirtualScrollState.t) :
  let n := SafeArray.length (safeArray items (Some isVirtualScrollItem)) in
  exists r a b,
    calculateVisibleItems items state = Some r
    /\ VisibleRange.startIndex r = Fin a
    /\ VisibleRange.endIndex r = Fin b
    /\ 0 <= a /\ a <= b
    /\ b <= inject_Z (Z.of_nat (Nat.pred n))
    /\ (n = 0%nat -> r = emptyRange).
Proof.
  cbv zeta. rewrite calculateVisibleItems_value. unfold visibleItems.
  set (safeItems := safeArray items (Some isVirtualScrollItem)).
  unfold SafeArray_isEmpty.
  destruct (Nat.eqb (SafeArray.length safeItems) 0) eqn:Hempty.
  - exists emptyRange, 0, 0. split; [reflexivity |].
    split; [reflexivity |]. split; [reflexivity |].
    split; [lra |]. split; [lra |].
    split; [apply inject_Z_pred | reflexivity].
  - apply Nat.eqb_neq in Hempty.
    destruct (overscan_clamped (VirtualScrollState.overscan state))
      as (o & Ho & Ho0 & _). rewrite Ho.
    match goal with
    | |- context [findStart safeItems state ?st (Fin o) ?n 0 (Fin 0)] =>
        destruct (findStart_below safeItems state st o Ho0 n 0 (Fin 0))
          as (a & Ha & Ha0 & Han)
    end.
    rewrite Ha.
    match goal with
    | |- context [findEnd safeItems state ?ch (Fin o) ?n (Fin a) (Fin 0)] =>
        destruct (findEnd_below safeItems state ch o n a (Fin 0))
          as (e & He & Hen)
    end.
    rewrite He. cbn [Nat.add] in Han.
    unfold Math_max, lt. destruct (Qlt_bool e a) eqn:E.
    + eexists. exists a, a. split; [reflexivity |].
      split; [reflexivity |]. split; [reflexivity |].
      split; [exact Ha0 |]. split; [lra |]. split; [exact Han |].
      intro H. contradiction.
    + apply Qlt_bool_false_iff in E.
      eexists. exists a, e. split; [reflexivity |].
      split; [reflexivity |]. split; [reflexivity |].
      split; [exact Ha0 |]. split; [exact E |]. split; [exact Hen |].
      intro H. contradiction.
Qed.

End VirtualScrollingProperties.

(* ================================================================== *)
(** ** IntelligentCache                                                *)
(* ================================================================== *)

Lemma while_stuck {S : Type} (cond : S -> bool) (body : S -> S) (s : S) :
  cond s = true -> body s = s -> forall fuel, while fuel cond body s = None.
Proof.
  intros Hcond Hbody fuel. induction fuel as [| fuel IH]; simpl.
  - reflexivity.
  - rewrite Hcond, Hbody. exact IH.
Qed.

Lemma while_fixed {S : Type} (cond : S -> bool) (body : S -> S) (s s' : S) :
  body s = s -> forall fuel, while fuel cond body s = Some s' -> s' = s.
Proof.
  intros Hbody fuel. induction fuel as [| fuel IH]; simpl.
  - discriminate.
  - destruct (cond s).
    + rewrite Hbody. exact IH.
    + congruence.
Qed.

Section IntelligentCacheProperties.
Context {T : Type}.
Variable blobSize : T -> option Z.
Variable stringLength : T -> option Z.
Variable clock : nat -> Z.

Lemma evictLeastUsed_empty (this : IntelligentCache.t T) (calls : nat) :
  IntelligentCache.cache this = [] ->
  evictLeastUsed clock (this, calls) = (this, calls).
Proof. intro H. unfold evictLeastUsed. rewrite H. reflexivity. Qed.

Lemma evictLargest_empty (this : IntelligentCache.t T) (calls : nat) :
  IntelligentCache.cache this = [] ->
  evictLargest (this, calls) = (this, calls).
Proof. intro H. unfold evictLargest. rewrite H. reflexivity. Qed.

(** With nothing to evict, [ensureSpace] cannot make room: no amount of
    fuel ends its second loop. *)
Lemma ensureSpace_empty_over_budget (this : IntelligentCache.t T)
    (calls : nat) (requiredSize : Z) :
  IntelligentCache.cache this = [] ->
  overMemory requiredSize (this, calls) = true ->
  forall fuel, ensureSpace clock fuel requiredSize (this, calls) = None.
Proof.
  intros Hempty Hover fuel. unfold ensureSpace.
  destruct (while fuel overSize (evictLeastUsed clock) (this, calls))
    as [s' |] eqn:E; [| reflexivity].
  apply while_fixed in E; [| apply evictLeastUsed_empty; exact Hempty].
  subst s'. apply while_stuck; [exact Hover |].
  apply evictLargest_empty. exact Hempty.
Qed.

(** The byte loop runs on for good as well when what it picks cannot be
    evicted. *)
Lemma ensureSpace_stuck_over_budget (s : IntelligentCache.t T * nat)
    (requiredSize : Z) :
  overSize s = false -> overMemory requiredSize s = true ->
  evictLargest s = s ->
  forall fuel, ensureSpace clock fuel requiredSize s = None.
Proof.
  intros Hsize Hover Hstuck fuel. unfold ensureSpace.
  destruct fuel as [| fuel]; [reflexivity |].
  simpl while at 1. rewrite Hsize.
  apply while_stuck; assumption.
Qed.

(** C2 (the code at the failing input).  On an empty cache, [set] of a
    value whose estimated size lies above what the byte budget leaves does
    not return, whatever the fuel. *)
Theorem set_never_returns_when_value_exceeds_budget
    (this : IntelligentCache.t T) (calls : nat)
    (key : string) (data : T) (dependencies : jsval) :
  IntelligentCache.cache this = [] ->
  (ofZ (IntelligentCache.currentMemory this
        + estimateSize blobSize stringLength data)
     >? IntelligentCache.maxMemory this)%js = true ->
  forall fuel,
    set blobSize stringLength clock fuel key data dependencies (this, calls)
    = None.
Proof.
  intros Hempty Hover fuel. unfold set. rewrite Hempty. simpl Map_get.
  rewrite ensureSpace_empty_over_budget; [reflexivity | exact Hempty | exact Hover].
Qed.


(** *** What does hold of the accounting

    [currentMemory] equals the bytes held as long as no replaced entry is
    evicted: after [clear], after [invalidateByDependency], and after a
    [set] under a key that was not present. *)

Lemma Map_get_In (key : string) (m : list (string * CacheEntry.t T))
    (e : CacheEntry.t T) :
  Map_get key m = Some e -> In key (map fst m).
Proof.
  induction m as [| [k v] rest IH]; simpl; [discriminate |].
  destruct (String.eqb k key) eqn:E.
  - apply String.eqb_eq in E. intros _. left. exact E.
  - intro H. right. exact (IH H).
Qed.

Lemma Map_delete_absent (key : string) (m : list (string * CacheEntry.t T)) :
  ~ In key (map fst m) -> Map_delete key m = m.
Proof.
  intro H. apply filter_all_true. intros [k v] Hin. simpl.
  destruct (String.eqb k key) eqn:E; [| reflexivity].
  apply String.eqb_eq in E. subst k. exfalso. apply H.
  apply (in_map fst) in Hin. exact Hin.
Qed.

Lemma bytesOf_Map_delete (key : string) (m : list (string * CacheEntry.t T))
    (e : CacheEntry.t T) :
  NoDup (map fst m) -> Map_get key m = Some e ->
  bytesOf (Map_delete key m) = (bytesOf m - CacheEntry.size e)%Z.
Proof.
  induction m as [| [k v] rest IH]; simpl; [discriminate |].
  intros Hnodup Hget. inversion Hnodup as [| ? ? Hnotin Hrest]; subst.
  destruct (String.eqb k key) eqn:E; simpl.
  - apply String.eqb_eq in E. subst k. injection Hget as ->.
    fold (Map_delete key rest). rewrite Map_delete_absent by exact Hnotin.
    lia.
  - fold (Map_delete key rest). rewrite (IH Hrest Hget). lia.
Qed.

Lemma Map_delete_keys_incl (key : string) (m : list (string * CacheEntry.t T))
    (k : string) :
  In k (map fst (Map_delete key m)) -> In k (map fst m).
Proof.
  unfold Map_delete. intro H. apply in_map_iff in H.
  destruct H as (kv & Hk & Hin). apply filter_In in Hin.
  apply in_map_iff. exists kv. split; [exact Hk | apply Hin].
Qed.

Lemma Map_delete_NoDup (key : string) (m : list (string * CacheEntry.t T)) :
  NoDup (map fst m) -> NoDup (map fst (Map_delete key m)).
Proof.
  induction m as [| [k v] rest IH]; simpl; intro H; [constructor |].
  inversion H as [| ? ? Hnotin Hrest]; subst.
  destruct (negb (String.eqb k key)); simpl.
  - constructor; [| exact (IH Hrest)].
    intro Hin. apply Hnotin. exact (Map_delete_keys_incl _ _ _ Hin).
  - exact (IH Hrest).
Qed.

Lemma Map_delete_length (key : string) (m : list (string * CacheEntry.t T)) :
  (List.length (Map_delete key m) <= List.length m)%nat.
Proof. apply filter_length_le. Qed.

Lemma evictKey_kept (key : string) (this0 this : IntelligentCache.t T)
    (victim : option string) :
  kept_by_eviction key this0 this ->
  kept_by_eviction key this0 (evictKey this victim).
Proof.
  intros (Hnodup & Hacc & Habsent & Hsize & Hmem & Hlen).
  unfold evictKey. destruct victim as [k |]; [| repeat split; assumption].
  destruct (String.eqb k ""); [repeat split; assumption |].
  destruct (Map_get k (IntelligentCache.cache this)) as [entry |] eqn:E;
    [| repeat split; assumption].
  unfold kept_by_eviction, keys, accounted, totalBytes in *. simpl.
  repeat split.
  - apply Map_delete_NoDup. exact Hnodup.
  - rewrite (bytesOf_Map_delete k _ entry Hnodup E). lia.
  - intro Hin. apply Habsent. exact (Map_delete_keys_incl _ _ _ Hin).
  - exact Hsize.
  - exact Hmem.
  - pose proof (Map_delete_length k (IntelligentCache.cache this)). lia.
Qed.

Lemma evictLeastUsed_kept (key : string) (this0 : IntelligentCache.t T)
    (s : IntelligentCache.t T * nat) :
  kept_by_eviction key this0 (fst s) ->
  kept_by_eviction key this0 (fst (evictLeastUsed clock s)).
Proof.
  destruct s as [this calls]. unfold evictLeastUsed.
  destruct (fold_left (scanLeastUsed clock) (IntelligentCache.cache this)
              (None, PosInfinity, calls)) as [[victim score] calls'].
  simpl. apply evictKey_kept.
Qed.

Lemma evictLargest_kept (key : string) (this0 : IntelligentCache.t T)
    (s : IntelligentCache.t T * nat) :
  kept_by_eviction key this0 (fst s) ->
  kept_by_eviction key this0 (fst (evictLargest s)).
Proof.
  destruct s as [this calls]. unfold evictLargest.
  destruct (fold_left scanLargest (IntelligentCache.cache this) (None, 0%Z))
    as [victim largest].
  simpl. apply evictKey_kept.
Qed.

Lemma Map_get_absent (key : string) (m : list (string * CacheEntry.t T)) :
  ~ In key (map fst m) -> Map_get key m = None.
Proof.
  intro H. destruct (Map_get key m) as [e |] eqn:E; [| reflexivity].
  exfalso. apply H. exact (Map_get_In _ _ _ E).
Qed.

Lemma Map_set_absent (key : string) (e : CacheEntry.t T)
    (m : list (string * CacheEntry.t T)) :
  ~ In key (map fst m) -> Map_set key e m = m ++ [(key, e)].
Proof.
  induction m as [| [k v] rest IH]; simpl; intro H; [reflexivity |].
  destruct (String.eqb k key) eqn:E.
  - apply String.eqb_eq in E. exfalso. apply H. left. exact E.
  - rewrite IH; [reflexivity |]. intro Hin. apply H. right. exact Hin.
Qed.

Lemma bytesOf_app (m1 m2 : list (string * CacheEntry.t T)) :
  bytesOf (m1 ++ m2) = (bytesOf m1 + bytesOf m2)%Z.
Proof.
  induction m1 as [| kv rest IH]; simpl; [reflexivity |]. rewrite IH. lia.
Qed.

Lemma while_invariant {S : Type} (P : S -> Prop) (cond : S -> bool)
    (body : S -> S) :
  (forall s, P s -> P (body s)) ->
  forall fuel s s',
    P s -> while fuel cond body s = Some s' -> P s' /\ cond s' = false.
Proof.
  intros Hbody fuel. induction fuel as [| fuel IH]; simpl; intros s s' HP Hrun.
  - discriminate.
  - destruct (cond s) eqn:E.
    + exact (IH _ _ (Hbody _ HP) Hrun).
    + injection Hrun as <-. split; assumption.
Qed.

(** X19.  A [set] under a key that is not present, when it returns, leaves
    distinct keys and exact accounting, the bytes within the byte limit
    and the entries within the count limit (strictly below the limit plus
    one, which is the limit itself when that is an integer). *)
Theorem set_absent_key_keeps_invariant
    (this this' : IntelligentCache.t T) (calls calls' fuel : nat)
    (key : string) (data : T) (dependencies : jsval) :
  NoDup (keys this) -> accounted this -> ~ In key (keys this) ->
  set blobSize stringLength clock fuel key data dependencies (this, calls)
  = Some (this', calls') ->
  NoDup (keys this') /\ accounted this'
  /\ (forall m, IntelligentCache.maxMemory this = Fin m ->
        inject_Z (IntelligentCache.currentMemory this') <= m)
  /\ (forall n, IntelligentCache.maxSize this = Fin n ->
        inject_Z (Z.of_nat (List.length (IntelligentCache.cache this'))) < n + 1).
Proof.
  intros Hnodup Hacc Habsent. unfold set.
  rewrite (Map_get_absent key _ Habsent).
  set (size := estimateSize blobSize stringLength data).
  unfold ensureSpace.
  destruct (while fuel overSize (evictLeastUsed clock) (this, S calls))
    as [s1 |] eqn:E1; [| discriminate].
  destruct (while fuel (overMemory size) evictLargest s1)
    as [[this2 calls2] |] eqn:E2; [| discriminate].
  intro H. injection H as <- <-.
  assert (H0 : kept_by_eviction key this (fst (this, S calls)))
    by (simpl; repeat split; auto).
  destruct (while_invariant (fun s => kept_by_eviction key this (fst s))
              overSize (evictLeastUsed clock)
              (evictLeastUsed_kept key this) fuel (this, S calls) s1 H0 E1)
    as ((Hnodup1 & Hacc1 & Habsent1 & Hsize1 & Hmem1 & _) & Hexit1).
  assert (H1 : kept_by_eviction key (fst s1) (fst s1))
    by (repeat split; auto).
  destruct (while_invariant (fun s => kept_by_eviction key (fst s1) (fst s))
              (overMemory size) evictLargest
              (evictLargest_kept key (fst s1)) fuel s1 (this2, calls2) H1 E2)
    as ((Hnodup2 & Hacc2 & Habsent2 & Hsize2 & Hmem2 & Hlen2) & Hexit2).
  simpl fst in *.
  unfold keys, accounted, totalBytes in *. simpl.
  rewrite (Map_set_absent key _ _ Habsent2).
  repeat split.
  - rewrite map_app. simpl. apply NoDup_app_remove_l with (l := []). simpl.
    apply NoDup_app; [exact Hnodup2 | constructor; [intros [] | constructor] |].
    intros k Hk [<- | []]. exact (Habsent2 Hk).
  - rewrite bytesOf_app, Hacc2. simpl. lia.
  - intros m Hm. unfold overMemory, gt, lt, ofZ in Hexit2. simpl fst in Hexit2.
    rewrite Hmem2, Hmem1, Hm in Hexit2.
    apply Qlt_bool_false_iff in Hexit2. exact Hexit2.
  - intros n Hn. unfold overSize, ge, le, ofNat, ofZ in Hexit1.
    rewrite Hsize1, Hn in Hexit1. apply Qle_bool_false_iff in Hexit1.
    rewrite length_app. simpl List.length.
    apply Qle_lt_trans
      with (inject_Z (Z.of_nat (List.length (IntelligentCache.cache (fst s1)))) + 1);
      [| lra].
    change 1 with (inject_Z 1). rewrite <- inject_Z_plus, <- Zle_Qle. lia.
Qed.

Lemma bytesOf_filter_split (hit : string * CacheEntry.t T -> bool)
    (m : list (string * CacheEntry.t T)) :
  bytesOf m = (bytesOf (filter hit m) + bytesOf (filter (fun kv => negb (hit kv)) m))%Z.
Proof.
  induction m as [| kv rest IH]; simpl; [reflexivity |].
  destruct (hit kv); simpl; rewrite IH; lia.
Qed.

Lemma fold_left_subtract (m : list (string * CacheEntry.t T)) (start : Z) :
  fold_left (fun total kv => (total - CacheEntry.size (snd kv))%Z) m start
  = (start - bytesOf m)%Z.
Proof.
  revert start. induction m as [| kv rest IH]; intro start; simpl.
  - lia.
  - rewrite IH. lia.
Qed.

(** [invalidateByDependency] keeps the accounting exact, and [clear]
    resets it. *)
Lemma invalidateByDependency_accounted (dependency : string)
    (this : IntelligentCache.t T) :
  accounted this -> accounted (snd (invalidateByDependency dependency this)).
Proof.
  unfold accounted, totalBytes, invalidateByDependency. simpl. intro H.
  rewrite fold_left_subtract, H.
  pose proof (bytesOf_filter_split
                (fun kv => includes (CacheEntry.dependencies (snd kv)) dependency)
                (IntelligentCache.cache this)) as Hsplit.
  cbv beta in Hsplit. lia.
Qed.

Lemma clear_accounted (this : IntelligentCache.t T) :
  accounted (clear this) /\ IntelligentCache.cache (clear this) = [].
Proof. split; reflexivity. Qed.

(** *** When [set] does return

    In a cache whose entries can all be evicted, [set] of a value that
    fits the byte budget returns once the fuel exceeds the entry count. *)

Lemma while_terminates {S : Type} (P : S -> Prop) (measure : S -> nat)
    (cond : S -> bool) (body : S -> S) :
  (forall s, P s -> cond s = true ->
     P (body s) /\ (measure (body s) < measure s)%nat) ->
  forall fuel s,
    P s -> (measure s < fuel)%nat ->
    exists s',
      while fuel cond body s = Some s' /\ P s'
      /\ (measure s' <= measure s)%nat /\ cond s' = false.
Proof.
  intros Hbody fuel. induction fuel as [| fuel IH]; intros s HP Hfuel; [lia |].
  simpl. destruct (cond s) eqn:E.
  - destruct (Hbody s HP E) as [HP' Hless].
    destruct (IH (body s) HP') as (s' & Hrun & HP'' & Hle & Hexit); [lia |].
    exists s'. repeat split; [exact Hrun | exact HP'' | lia | exact Hexit].
  - exists s. repeat split; [exact HP | lia | exact E].
Qed.

Lemma scanLeastUsed_step (key : option string) (score : number) (calls : nat)
    (kv : string * CacheEntry.t T) :
  scanLeastUsed clock (key, score, calls) kv
  = if (ofZ (clock calls - CacheEntry.timestamp (snd kv))
        / ofZ (Z.max (CacheEntry.accessCount (snd kv)) 1) <? score)%js
    then (Some (fst kv),
          (ofZ (clock calls - CacheEntry.timestamp (snd kv))
           / ofZ (Z.max (CacheEntry.accessCount (snd kv)) 1))%js,
          S calls)
    else (key, score, S calls).
Proof. reflexivity. Qed.

Lemma scanLargest_step (key : option string) (largest : Z)
    (kv : string * CacheEntry.t T) :
  scanLargest (key, largest) kv
  = if (CacheEntry.size (snd kv) >? largest)%Z
    then (Some (fst kv), CacheEntry.size (snd kv))
    else (key, largest).
Proof. reflexivity. Qed.

Lemma scanLeastUsed_key (m : list (string * CacheEntry.t T)) :
  forall key score calls,
    fst (fst (fold_left (scanLeastUsed clock) m (key, score, calls))) = key
    \/ exists k,
         fst (fst (fold_left (scanLeastUsed clock) m (key, score, calls)))
         = Some k /\ In k (map fst m).
Proof.
  induction m as [| kv rest IH]; intros key score calls; cbn [fold_left map].
  - left. reflexivity.
  - rewrite scanLeastUsed_step.
    destruct (_ <? score)%js.
    + right. destruct (IH (Some (fst kv))
                         (ofZ (clock calls - CacheEntry.timestamp (snd kv))
                          / ofZ (Z.max (CacheEntry.accessCount (snd kv)) 1))%js
                         (S calls)) as [H | (k & H & Hin)].
      * exists (fst kv). split; [exact H | left; reflexivity].
      * exists k. split; [exact H | right; exact Hin].
    + destruct (IH key score (S calls)) as [H | (k & H & Hin)].
      * left. exact H.
      * right. exists k. split; [exact H | right; exact Hin].
Qed.

Lemma score_below_infinity (age accessCount : Z) :
  (ofZ age / ofZ (Z.max accessCount 1) <? PosInfinity)%js = true.
Proof.
  unfold ofZ, div.
  destruct (Qeq_bool (inject_Z (Z.max accessCount 1)) 0) eqn:E.
  - apply Qeq_bool_iff in E. change 0 with (inject_Z 0) in E.
    apply (proj1 (inject_Z_injective _ _)) in E. lia.
  - reflexivity.
Qed.

Lemma evictLeastUsed_picks (kv : string * CacheEntry.t T)
    (rest : list (string * CacheEntry.t T)) (calls : nat) :
  exists k,
    fst (fst (fold_left (scanLeastUsed clock) (kv :: rest)
                (None, PosInfinity, calls))) = Some k
    /\ In k (map fst (kv :: rest)).
Proof.
  cbn [fold_left]. rewrite scanLeastUsed_step, score_below_infinity.
  destruct (scanLeastUsed_key rest (Some (fst kv))
              (ofZ (clock calls - CacheEntry.timestamp (snd kv))
               / ofZ (Z.max (CacheEntry.accessCount (snd kv)) 1))%js
              (S calls)) as [H | (k & H & Hin)].
  - exists (fst kv). split; [exact H | left; reflexivity].
  - exists k. split; [exact H | right; exact Hin].
Qed.

Lemma scanLargest_key (m : list (string * CacheEntry.t T)) :
  forall key largest,
    fst (fold_left scanLargest m (key, largest)) = key
    \/ exists k,
         fst (fold_left scanLargest m (key, largest)) = Some k
         /\ In k (map fst m).
Proof.
  induction m as [| kv rest IH]; intros key largest; cbn [fold_left map].
  - left. reflexivity.
  - rewrite scanLargest_step.
    destruct (CacheEntry.size (snd kv) >? largest)%Z.
    + right. destruct (IH (Some (fst kv)) (CacheEntry.size (snd kv)))
        as [H | (k & H & Hin)].
      * exists (fst kv). split; [exact H | left; reflexivity].
      * exists k. split; [exact H | right; exact Hin].
    + destruct (IH key largest) as [H | (k & H & Hin)].
      * left. exact H.
      * right. exists k. split; [exact H | right; exact Hin].
Qed.

Lemma evictLargest_picks (kv : string * CacheEntry.t T)
    (rest : list (string * CacheEntry.t T)) :
  (0 < CacheEntry.size (snd kv))%Z ->
  exists k,
    fst (fold_left scanLargest (kv :: rest) (None, 0%Z)) = Some k
    /\ In k (map fst (kv :: rest)).
Proof.
  intro Hsize. cbn [fold_left]. rewrite scanLargest_step.
  replace (CacheEntry.size (snd kv) >? 0)%Z with true
    by (symmetry; apply Z.gtb_lt; exact Hsize).
  destruct (scanLargest_key rest (Some (fst kv)) (CacheEntry.size (snd kv)))
    as [H | (k & H & Hin)].
  - exists (fst kv). split; [exact H | left; reflexivity].
  - exists k. split; [exact H | right; exact Hin].
Qed.

Lemma Map_get_present (key : string) (m : list (string * CacheEntry.t T)) :
  In key (map fst m) -> exists e, Map_get key m = Some e /\ In (key, e) m.
Proof.
  induction m as [| [k v] rest IH]; simpl; [intros [] |].
  destruct (String.eqb k key) eqn:E.
  - apply String.eqb_eq in E. subst k. intros _. exists v.
    split; [reflexivity | left; reflexivity].
  - intros [H | H].
    + apply String.eqb_neq in E. contradiction.
    + destruct (IH H) as (e & Hget & Hin).
      exists e. split; [exact Hget | right; exact Hin].
Qed.

Lemma Map_delete_shorter (key : string) (m : list (string * CacheEntry.t T)) :
  In key (map fst m) ->
  (List.length (Map_delete key m) < List.length m)%nat.
Proof.
  induction m as [| [k v] rest IH]; simpl; [intros [] |].
  destruct (String.eqb k key) eqn:E; simpl.
  - intros _. pose proof (Map_delete_length key rest). lia.
  - intros [H | H].
    + apply String.eqb_neq in E. contradiction.
    + fold (Map_delete key rest). pose proof (IH H). lia.
Qed.

Lemma Map_delete_Forall (key : string) (Q : string * CacheEntry.t T -> Prop)
    (m : list (string * CacheEntry.t T)) :
  Forall Q m -> Forall Q (Map_delete key m).
Proof.
  intro H. apply Forall_forall. intros kv Hin. apply filter_In in Hin.
  exact (proj1 (Forall_forall Q m) H kv (proj1 Hin)).
Qed.

(** Evicting a present, non-empty key keeps the cache evictable, keeps
    the limits, and shortens it. *)
Lemma evictKey_evictable (this : IntelligentCache.t T) (k : string) :
  evictable this -> In k (keys this) ->
  evictable (evictKey this (Some k))
  /\ IntelligentCache.maxSize (evictKey this (Some k))
     = IntelligentCache.maxSize this
  /\ IntelligentCache.maxMemory (evictKey this (Some k))
     = IntelligentCache.maxMemory this
  /\ (List.length (IntelligentCache.cache (evictKey this (Some k)))
      < List.length (IntelligentCache.cache this))%nat.
Proof.
  intros (Hnodup & Hempty & Hsizes & Hbytes) Hin. unfold evictKey.
  destruct (String.eqb k "") eqn:E.
  - apply String.eqb_eq in E. subst k. contradiction.
  - destruct (Map_get_present k _ Hin) as (e & Hget & _). rewrite Hget.
    unfold evictable, keys, totalBytes in *. simpl.
    rewrite (bytesOf_Map_delete k _ e Hnodup Hget).
    repeat split.
    + apply Map_delete_NoDup. exact Hnodup.
    + intro H. apply Hempty. exact (Map_delete_keys_incl _ _ _ H).
    + apply Map_delete_Forall. exact Hsizes.
    + lia.
    + apply Map_delete_shorter. exact Hin.
Qed.

(** What the loops of [ensureSpace] keep while they run. *)
Lemma evictLeastUsed_progress (s : IntelligentCache.t T * nat) (n m : Q) :
  0 < n ->
  evictable (fst s) /\ IntelligentCache.maxSize (fst s) = Fin n
  /\ IntelligentCache.maxMemory (fst s) = Fin m ->
  overSize s = true ->
  (evictable (fst (evictLeastUsed clock s))
   /\ IntelligentCache.maxSize (fst (evictLeastUsed clock s)) = Fin n
   /\ IntelligentCache.maxMemory (fst (evictLeastUsed clock s)) = Fin m)
  /\ (List.length (IntelligentCache.cache (fst (evictLeastUsed clock s)))
      < List.length (IntelligentCache.cache (fst s)))%nat.
Proof.
  destruct s as [this calls]. simpl fst. intros Hn (Hev & Hsize & Hmem) Hover.
  unfold overSize, ge, le, ofNat, ofZ in Hover. simpl fst in Hover.
  rewrite Hsize in Hover. apply Qle_bool_iff in Hover.
  unfold evictLeastUsed. cbv beta iota.
  destruct (IntelligentCache.cache this) as [| kv rest] eqn:E.
  { exfalso. simpl in Hover. change (inject_Z 0) with 0 in Hover. lra. }
  destruct (evictLeastUsed_picks kv rest calls) as (k & Hpick & Hin).
  destruct (fold_left (scanLeastUsed clock) (kv :: rest)
              (None, PosInfinity, calls)) as [[victim score] calls'].
  cbn [fst] in Hpick. subst victim. cbn [fst].
  rewrite <- E in Hin. rewrite <- E.
  destruct (evictKey_evictable this k Hev Hin) as (H1 & H2 & H3 & H4).
  split; [split; [exact H1 | split; congruence] | exact H4].
Qed.

Lemma evictLargest_progress (s : IntelligentCache.t T * nat) (n m : Q)
    (requiredSize : Z) :
  inject_Z requiredSize <= m ->
  evictable (fst s) /\ IntelligentCache.maxSize (fst s) = Fin n
  /\ IntelligentCache.maxMemory (fst s) = Fin m ->
  overMemory requiredSize s = true ->
  (evictable (fst (evictLargest s))
   /\ IntelligentCache.maxSize (fst (evictLargest s)) = Fin n
   /\ IntelligentCache.maxMemory (fst (evictLargest s)) = Fin m)
  /\ (List.length (IntelligentCache.cache (fst (evictLargest s)))
      < List.length (IntelligentCache.cache (fst s)))%nat.
Proof.
  destruct s as [this calls]. simpl fst. intros Hfits (Hev & Hsize & Hmem) Hover.
  unfold overMemory, gt, lt, ofZ in Hover. simpl fst in Hover.
  rewrite Hmem in Hover. apply Qlt_bool_iff in Hover.
  pose proof Hev as (_ & _ & Hsizes & Hbytes).
  unfold evictLargest. cbv beta iota.
  destruct (IntelligentCache.cache this) as [| kv rest] eqn:E.
  { exfalso. unfold totalBytes in Hbytes. rewrite E in Hbytes. simpl in Hbytes.
    assert (inject_Z (IntelligentCache.currentMemory this + requiredSize)
            <= inject_Z requiredSize) by (rewrite <- Zle_Qle; lia).
    lra. }
  assert (Hkv : (0 < CacheEntry.size (snd kv))%Z)
    by (inversion Hsizes; assumption).
  destruct (evictLargest_picks kv rest Hkv) as (k & Hpick & Hin).
  destruct (fold_left scanLargest (kv :: rest) (None, 0%Z)) as [victim largest].
  cbn [fst] in Hpick. subst victim. cbn [fst].
  rewrite <- E in Hin. rewrite <- E.
  destruct (evictKey_evictable this k Hev Hin) as (H1 & H2 & H3 & H4).
  split; [split; [exact H1 | split; congruence] | exact H4].
Qed.

(** X20.  In an evictable cache with a positive count limit, [set] of a value
    whose estimated size is within the byte limit returns as soon as the
    fuel exceeds the number of entries. *)
Theorem set_returns_when_value_fits
    (this : IntelligentCache.t T) (calls fuel : nat)
    (key : string) (data : T) (dependencies : jsval) (n m : Q) :
  evictable this ->
  IntelligentCache.maxSize this = Fin n -> 0 < n ->
  IntelligentCache.maxMemory this = Fin m ->
  inject_Z (estimateSize blobSize stringLength data) <= m ->
  (List.length (IntelligentCache.cache this) < fuel)%nat ->
  exists s',
    set blobSize stringLength clock fuel key data dependencies (this, calls)
    = Some s'.
Proof.
  intros Hev Hsize Hn Hmem Hfits Hfuel. unfold set.
  set (size := estimateSize blobSize stringLength data) in *.
  set (credited :=
         match Map_get key (IntelligentCache.cache this) with
         | Some existing =>
             IntelligentCache.mk (IntelligentCache.cache this)
               (IntelligentCache.maxSize this) (IntelligentCache.maxMemory this)
               (IntelligentCache.currentMemory this - CacheEntry.size existing)%Z
         | None => this
         end).
  assert (Hcredited :
            (evictable credited /\ IntelligentCache.maxSize credited = Fin n
             /\ IntelligentCache.maxMemory credited = Fin m)
            /\ IntelligentCache.cache credited = IntelligentCache.cache this).
  { unfold credited.
    destruct (Map_get key (IntelligentCache.cache this)) as [existing |] eqn:E;
      [| split; [split; [exact Hev | split; assumption] | reflexivity]].
    destruct Hev as (Hnodup & Hempty & Hsizes & Hbytes).
    destruct (Map_get_present key _ (Map_get_In _ _ _ E)) as (e & Hget & Hin).
    assert (e = existing) by congruence. subst e.
    pose proof (proj1 (Forall_forall _ _) Hsizes _ Hin) as Hpos.
    simpl in Hpos.
    unfold evictable, keys, totalBytes in *. simpl.
    repeat split; try assumption. simpl in Hbytes. lia. }
  destruct Hcredited as [HP Hcache].
  unfold ensureSpace.
  destruct (while_terminates
              (fun s => evictable (fst s)
                        /\ IntelligentCache.maxSize (fst s) = Fin n
                        /\ IntelligentCache.maxMemory (fst s) = Fin m)
              (fun s => List.length (IntelligentCache.cache (fst s)))
              overSize (evictLeastUsed clock)
              (fun s HPs => evictLeastUsed_progress s n m Hn HPs)
              fuel (credited, S calls) HP)
    as (s1 & Hrun1 & HP1 & Hle1 & _).
  { simpl fst. rewrite Hcache. exact Hfuel. }
  rewrite Hrun1.
  destruct (while_terminates
              (fun s => evictable (fst s)
                        /\ IntelligentCache.maxSize (fst s) = Fin n
                        /\ IntelligentCache.maxMemory (fst s) = Fin m)
              (fun s => List.length (IntelligentCache.cache (fst s)))
              (overMemory size) evictLargest
              (fun s HPs => evictLargest_progress s n m size Hfits HPs)
              fuel s1 HP1)
    as ([this2 calls2] & Hrun2 & _).
  { simpl fst in Hle1. rewrite Hcache in Hle1. lia. }
  rewrite Hrun2. eexists. reflexivity.
Qed.


(** *** More of the cache: get, invalidation, eviction, constructor *)

Lemma Map_get_set_same (key : string) (e : CacheEntry.t T)
    (m : list (string * CacheEntry.t T)) :
  Map_get key (Map_set key e m) = Some e.
Proof.
  induction m as [| [k v] rest IH]; simpl.
  - rewrite String.eqb_refl. reflexivity.
  - destruct (String.eqb k key) eqn:E; simpl; rewrite E; [reflexivity | exact IH].
Qed.

Lemma Map_set_present_keys (key : string) (e e' : CacheEntry.t T)
    (m : list (string * CacheEntry.t T)) :
  Map_get key m = Some e -> map fst (Map_set key e' m) = map fst m.
Proof.
  induction m as [| [k v] rest IH]; simpl; [discriminate |].
  destruct (String.eqb k key) eqn:E; simpl; [reflexivity |].
  intro H. rewrite (IH H). reflexivity.
Qed.

Lemma Map_set_present_bytes (key : string) (e e' : CacheEntry.t T)
    (m : list (string * CacheEntry.t T)) :
  Map_get key m = Some e ->
  bytesOf (Map_set key e' m)
  = (bytesOf m - CacheEntry.size e + CacheEntry.size e')%Z.
Proof.
  induction m as [| [k v] rest IH]; simpl; [discriminate |].
  destruct (String.eqb k key) eqn:E; simpl.
  - intro H. injection H as ->. lia.
  - intro H. rewrite (IH H). lia.
Qed.

Lemma accessCount_sum (l : list (CacheEntry.t T)) (start : Z) :
  fold_left (fun sum entry => (sum + CacheEntry.accessCount entry)%Z) l start
  = (start
     + fold_left (fun sum entry => (sum + CacheEntry.accessCount entry)%Z) l 0)%Z.
Proof.
  revert start. induction l as [| e rest IH]; intro start; simpl; [lia |].
  rewrite (IH (start + CacheEntry.accessCount e)%Z).
  rewrite (IH (CacheEntry.accessCount e)). lia.
Qed.

Lemma Map_set_present_access (key : string) (e e' : CacheEntry.t T)
    (m : list (string * CacheEntry.t T)) :
  Map_get key m = Some e ->
  fold_left (fun sum entry => (sum + CacheEntry.accessCount entry)%Z)
    (map snd (Map_set key e' m)) 0%Z
  = (fold_left (fun sum entry => (sum + CacheEntry.accessCount entry)%Z)
       (map snd m) 0
     - CacheEntry.accessCount e + CacheEntry.accessCount e')%Z.
Proof.
  induction m as [| [k v] rest IH]; simpl; [discriminate |].
  destruct (String.eqb k key) eqn:E; simpl.
  - intro H. injection H as ->.
    rewrite (accessCount_sum _ (CacheEntry.accessCount e')).
    rewrite (accessCount_sum _ (CacheEntry.accessCount e)). lia.
  - intro H. rewrite (accessCount_sum _ (CacheEntry.accessCount v)).
    rewrite (IH H).
    rewrite (accessCount_sum (map snd rest) (CacheEntry.accessCount v)). lia.
Qed.

(** X21.  After [set(key, data)] has returned, [get(key)] returns that
    data. *)
Theorem get_after_set_returns_the_data
    (s s' : IntelligentCache.t T * nat) (fuel : nat)
    (key : string) (data : T) (dependencies : jsval) :
  set blobSize stringLength clock fuel key data dependencies s = Some s' ->
  fst (get clock key s') = Some data.
Proof.
  destruct s as [this calls]. unfold set.
  destruct (ensureSpace _ _ _ _) as [[this1 calls1] |]; [| discriminate].
  intro H. injection H as <-. unfold get.
  cbn [IntelligentCache.cache]. rewrite Map_get_set_same. reflexivity.
Qed.

(** X22.  [get] of a key that is not cached returns [null] and changes
    nothing, not even the clock readings.  [get] of a cached key returns
    its data, keeps the keys, their order and the memory count, and
    counts one more access: the entry's [accessCount] and the total over
    the cache go up by one, and the entry's timestamp becomes the time of
    the call. *)
Theorem get_counts_one_access (key : string) (this : IntelligentCache.t T)
    (calls : nat) :
  (Map_get key (IntelligentCache.cache this) = None ->
     get clock key (this, calls) = (None, (this, calls)))
  /\ (forall e,
        Map_get key (IntelligentCache.cache this) = Some e ->
        let r := get clock key (this, calls) in
        let this' := fst (snd r) in
        fst r = Some (CacheEntry.data e)
        /\ keys this' = keys this
        /\ IntelligentCache.currentMemory this'
           = IntelligentCache.currentMemory this
        /\ totalBytes this' = totalBytes this
        /\ totalAccess this' = (totalAccess this + 1)%Z
        /\ Map_get key (IntelligentCache.cache this')
           = Some (CacheEntry.mk (CacheEntry.data e) (clock calls)
                     (CacheEntry.accessCount e + 1)%Z (CacheEntry.size e)
                     (CacheEntry.dependencies e))).
Proof.
  split.
  - intro H. unfold get. rewrite H. reflexivity.
  - intros e H. cbv zeta. unfold get. rewrite H.
    cbn [fst snd]. unfold keys, totalBytes, totalAccess.
    cbn [IntelligentCache.cache IntelligentCache.currentMemory].
    split; [reflexivity |].
    split; [exact (Map_set_present_keys _ _ _ _ H) |].
    split; [reflexivity |].
    split; [rewrite (Map_set_present_bytes _ _ _ _ H);
            cbn [CacheEntry.size]; lia |].
    split; [rewrite (Map_set_present_access _ _ _ _ H);
            cbn [CacheEntry.accessCount]; lia |].
    apply Map_get_set_same.
Qed.

(** X23.  [invalidateByDependency(d)] removes exactly the entries that
    list [d] among their dependencies and returns their number: none of
    them is left, every other entry stays, in its place, the limits
    stay, and an exact memory count stays exact. *)
Theorem invalidateByDependency_removes_the_tagged (dependency : string)
    (this : IntelligentCache.t T) :
  let r := invalidateByDependency dependency this in
  let tagged (kv : string * CacheEntry.t T) :=
    includes (CacheEntry.dependencies (snd kv)) dependency in
  IntelligentCache.cache (snd r)
  = filter (fun kv => negb (tagged kv)) (IntelligentCache.cache this)
  /\ Forall (fun kv => tagged kv = false) (IntelligentCache.cache (snd r))
  /\ (fst r + List.length (IntelligentCache.cache (snd r))
      = List.length (IntelligentCache.cache this))%nat
  /\ IntelligentCache.maxSize (snd r) = IntelligentCache.maxSize this
  /\ IntelligentCache.maxMemory (snd r) = IntelligentCache.maxMemory this
  /\ (accounted this -> accounted (snd r)).
Proof.
  cbv zeta. split; [reflexivity |]. split; [| split; [| split; [| split]]].
  - apply Forall_forall. intros kv Hkv.
    unfold invalidateByDependency in Hkv. cbn [snd IntelligentCache.cache] in Hkv.
    apply filter_In in Hkv. destruct Hkv as [_ Hkv].
    apply negb_true_iff in Hkv. exact Hkv.
  - unfold invalidateByDependency. cbn [fst snd IntelligentCache.cache].
    apply filter_length.
  - reflexivity.
  - reflexivity.
  - apply invalidateByDependency_accounted.
Qed.

Lemma scanLargest_max (m : list (string * CacheEntry.t T)) :
  forall key largest,
    let r := fold_left scanLargest m (key, largest) in
    (forall kv, In kv m -> (CacheEntry.size (snd kv) <= snd r)%Z)
    /\ ((fst r = key /\ snd r = largest)
        \/ exists k e,
             fst r = Some k /\ In (k, e) m
             /\ CacheEntry.size e = snd r /\ (largest < snd r)%Z).
Proof.
  induction m as [| [k0 e0] rest IH]; intros key largest; cbn [fold_left].
  - cbv zeta. split; [intros kv [] | left; split; reflexivity].
  - rewrite scanLargest_step. cbn [fst snd].
    destruct (CacheEntry.size e0 >? largest)%Z eqn:E.
    + apply Z.gtb_lt in E.
      specialize (IH (Some k0) (CacheEntry.size e0)). cbv zeta in IH |- *.
      destruct IH as [Hall Hkey]. split.
      * intros kv [<- | Hkv]; [| exact (Hall _ Hkv)].
        cbn [snd]. destruct Hkey as [[_ ->] | (k & e & _ & _ & _ & Hlt)]; lia.
      * right. destruct Hkey as [[Hk Hs] | (k & e & Hk & Hin & Hs & Hlt)].
        -- exists k0, e0. repeat split;
             [exact Hk | left; reflexivity | symmetry; exact Hs | lia].
        -- exists k, e. repeat split;
             [exact Hk | right; exact Hin | exact Hs | lia].
    + rewrite Z.gtb_ltb in E. apply Z.ltb_ge in E.
      specialize (IH key largest). cbv zeta in IH |- *.
      destruct IH as [Hall Hkey]. split.
      * intros kv [<- | Hkv]; [| exact (Hall _ Hkv)].
        cbn [snd]. destruct Hkey as [[_ ->] | (k & e & _ & _ & _ & Hlt)]; lia.
      * destruct Hkey as [Hsame | (k & e & Hk & Hin & Hs & Hlt)];
          [left; exact Hsame |].
        right. exists k, e. repeat split;
          [exact Hk | right; exact Hin | exact Hs | exact Hlt].
Qed.

Lemma Map_get_NoDup (key : string) (e : CacheEntry.t T)
    (m : list (string * CacheEntry.t T)) :
  NoDup (map fst m) -> In (key, e) m -> Map_get key m = Some e.
Proof.
  induction m as [| [k v] rest IH]; simpl; [intros _ [] |].
  intros Hnodup Hin. inversion Hnodup as [| ? ? Hnotin Hrest]; subst.
  destruct Hin as [Heq | Hin].
  - injection Heq as -> ->. rewrite String.eqb_refl. reflexivity.
  - destruct (String.eqb k key) eqn:E; [| exact (IH Hrest Hin)].
    apply String.eqb_eq in E. subst k. exfalso. apply Hnotin.
    apply in_map_iff. exists (key, e). split; [reflexivity | exact Hin].
Qed.

(** X24.  [evictLargest] removes an entry of the largest size and takes
    its size off the memory count, in a cache whose entries can all be
    evicted; when no entry has a size above zero it removes nothing. *)
Theorem evictLargest_evicts_a_largest_entry (this : IntelligentCache.t T)
    (calls : nat) :
  (Forall (fun kv => (CacheEntry.size (snd kv) <= 0)%Z)
     (IntelligentCache.cache this) ->
   evictLargest (this, calls) = (this, calls))
  /\ (evictable this -> IntelligentCache.cache this <> [] ->
      exists k e,
        In (k, e) (IntelligentCache.cache this)
        /\ (forall kv, In kv (IntelligentCache.cache this) ->
              (CacheEntry.size (snd kv) <= CacheEntry.size e)%Z)
        /\ evictLargest (this, calls)
           = (IntelligentCache.mk
                (Map_delete k (IntelligentCache.cache this))
                (IntelligentCache.maxSize this)
                (IntelligentCache.maxMemory this)
                (IntelligentCache.currentMemory this - CacheEntry.size e)%Z,
              calls)).
Proof.
  pose proof (scanLargest_max (IntelligentCache.cache this) None 0%Z) as Hmax.
  cbv zeta in Hmax. destruct Hmax as [Hall Hkey].
  unfold evictLargest.
  destruct (fold_left scanLargest (IntelligentCache.cache this) (None, 0%Z))
    as [largestKey largestSize].
  cbn [fst snd] in Hall, Hkey. split.
  - intro Hsizes.
    destruct Hkey as [[-> _] | (k & e & _ & Hin & Hs & Hlt)]; [reflexivity |].
    exfalso.
    pose proof (proj1 (Forall_forall _ _) Hsizes (k, e) Hin) as Hle.
    cbn [snd] in Hle. lia.
  - intros (Hnodup & Hempty & Hsizes & _) Hne.
    destruct Hkey as [[_ ->] | (k & e & -> & Hin & Hs & Hlt)].
    + exfalso. destruct (IntelligentCache.cache this) as [| kv rest];
        [contradiction |].
      pose proof (Hall kv (or_introl eq_refl)) as Hle.
      inversion Hsizes as [| ? ? Hpos _]; subst. lia.
    + exists k, e. split; [exact Hin |].
      split; [intros kv Hkv; rewrite Hs; exact (Hall kv Hkv) |].
      unfold evictKey.
      destruct (String.eqb k "") eqn:E.
      { apply String.eqb_eq in E. subst k. exfalso. apply Hempty.
        unfold keys. apply in_map_iff. exists (""%string, e).
        split; [reflexivity | exact Hin]. }
      rewrite (Map_get_NoDup k e _ Hnodup Hin). reflexivity.
Qed.

End IntelligentCacheProperties.

Section IntelligentCacheConstructor.
Context {host : Host}.

Lemma clamped_argument (x : number) (fallback lo hi : Q) :
  lo <= hi ->
  exists c,
    SafeNumber.value
      (SafeNumber_clamp (safeNumber (VNumber x) (Fin fallback)) (Fin lo) (Fin hi))
    = Fin c
    /\ lo <= c <= hi
    /\ (isFinite x = false -> c == clampQ lo hi fallback).
Proof.
  intro Hle.
  destruct (clamp_value (safeNumber (VNumber x) (Fin fallback)) lo hi _
              (safeNumber_number_value _ _) Hle) as (c & Hc & Heq).
  exists c. split; [exact Hc |].
  split; [rewrite Heq; apply clampQ_range; exact Hle |].
  intro Hx. rewrite Heq. destruct x; try discriminate; reflexivity.
Qed.

(** X25.  Whatever numbers the constructor is given, the new cache is
    empty with a memory count of zero, its entry limit lies from 100 to
    10000 and its byte limit from 10 MB to 1000 MB; arguments that are
    not finite give the defaults, 1000 entries and 100 MB. *)
Theorem new_IntelligentCache_limits (T : Type) (maxSize maxMemoryMB : number) :
  let this : IntelligentCache.t T := new_IntelligentCache maxSize maxMemoryMB in
  IntelligentCache.cache this = []
  /\ IntelligentCache.currentMemory this = 0%Z
  /\ exists n m,
       IntelligentCache.maxSize this = Fin n
       /\ 100 <= n <= 10000
       /\ IntelligentCache.maxMemory this = Fin m
       /\ 10485760 <= m <= 1048576000
       /\ (isFinite maxSize = false -> n == 1000)
       /\ (isFinite maxMemoryMB = false -> m == 104857600).
Proof.
  cbv zeta. split; [reflexivity |]. split; [reflexivity |].
  unfold new_IntelligentCache.
  cbn [IntelligentCache.maxSize IntelligentCache.maxMemory].
  destruct (clamped_argument maxSize 1000 100 10000) as (n & -> & Hn & Hn');
    [lra |].
  destruct (clamped_argument maxMemoryMB 100 10 1000) as (c & -> & Hc & Hc');
    [lra |].
  cbn [mul].
  exists n, (Qred (Qred (c * 1024) * 1024)).
  split; [reflexivity |]. split; [exact Hn |]. split; [reflexivity |].
  rewrite !Qred_correct. split; [lra |]. split.
  - intro H. rewrite (Hn' H). reflexivity.
  - intro H. rewrite (Hc' H). reflexivity.
Qed.

End IntelligentCacheConstructor.

(* ================================================================== *)
(** ** More of SafeNumber and SafeArray                                *)
(* ================================================================== *)

Section SafeNumberArrayMore.
Context {host : Host}.

Lemma SafeNumberImpl_number_finite (x : number) :
  isFinite (SafeNumber.value (SafeNumberImpl (VNumber x) (Fin 0))) = true.
Proof. destruct x; reflexivity. Qed.

(** X1.  No arithmetic method hands on a value that is not finite:
    whatever the operands, the results of [add], [subtract], [multiply],
    [divide] and [clamp] have a finite [value]. *)
Theorem SafeNumber_methods_stay_finite
    (this : SafeNumber.t) (other : operand) (min max : number) :
  isFinite (SafeNumber.value (SafeNumber_add this other)) = true
  /\ isFinite (SafeNumber.value (SafeNumber_subtract this other)) = true
  /\ isFinite (SafeNumber.value (SafeNumber_multiply this other)) = true
  /\ isFinite (SafeNumber.value (SafeNumber_divide this other)) = true
  /\ isFinite (SafeNumber.value (SafeNumber_clamp this min max)) = true.
Proof.
  unfold SafeNumber_add, SafeNumber_subtract, SafeNumber_multiply,
    SafeNumber_divide, SafeNumber_clamp.
  destruct (otherVal other === Fin 0)%js;
    repeat split; apply SafeNumberImpl_number_finite.
Qed.

(** X2.  For bounds [lo <= hi], [clamp(lo, hi)] of a SafeNumber whose value
    is not [NaN] lies between the bounds, and a value already between
    them is kept. *)
Theorem clamp_within_bounds (this : SafeNumber.t) (lo hi : Q) :
  lo <= hi ->
  isNaN (SafeNumber.value this) = false ->
  exists c,
    SafeNumber.value (SafeNumber_clamp this (Fin lo) (Fin hi)) = Fin c
    /\ lo <= c <= hi
    /\ (forall v, SafeNumber.value this = Fin v -> lo <= v <= hi -> c == v).
Proof.
  intros Hle Hnan. destruct (SafeNumber.value this) as [| | | v] eqn:E.
  - discriminate.
  - unfold SafeNumber_clamp. rewrite E. unfold Math_min, Math_max, lt.
    destruct (Qlt_bool lo hi) eqn:E1.
    + exists hi. split; [reflexivity |]. split; [lra | discriminate].
    + exists lo. split; [reflexivity |]. split; [lra | discriminate].
  - unfold SafeNumber_clamp. rewrite E. exists lo.
    split; [reflexivity |]. split; [lra | discriminate].
  - destruct (clamp_value this lo hi v E Hle) as (c & Hc & Heq).
    exists c. split; [exact Hc |].
    pose proof (clampQ_range lo hi v Hle) as Hrange.
    split; [rewrite Heq; exact Hrange |].
    intros v' Hv' Hin. injection Hv' as <-. rewrite Heq. unfold clampQ.
    replace (Qlt_bool v lo) with false
      by (symmetry; apply Qlt_bool_false_iff; lra).
    replace (Qlt_bool hi v) with false
      by (symmetry; apply Qlt_bool_false_iff; lra).
    reflexivity.
Qed.

Lemma default_validator_no_hole (v : jsval) :
  default_validator v = true <-> no_hole v.
Proof.
  unfold no_hole. split.
  - intro H. repeat split; intro E; subst v; discriminate.
  - intros (H1 & H2 & H3).
    destruct v as [| | b | n | s | items | props]; try reflexivity;
      try contradiction.
    destruct n; try reflexivity. contradiction.
Qed.

(** X3.  A SafeArray built without validator holds no [null], [undefined]
    or [NaN]; it is the input array without these, so never longer, and
    the same array when there are none; an input that is no array gives
    the empty SafeArray. *)
Theorem safeArray_holds_no_holes (input : jsval) :
  let a := safeArray input None in
  Forall no_hole (SafeArray.data a)
  /\ SafeArray.length a = List.length (SafeArray.data a)
  /\ (forall items, input = VArray items ->
        (SafeArray.length a <= List.length items)%nat
        /\ (forall v, In v (SafeArray.data a) -> In v items)
        /\ (Forall no_hole items -> SafeArray.data a = items))
  /\ ((forall items, input <> VArray items) -> SafeArray.data a = []).
Proof.
  cbv zeta. unfold safeArray. split; [| split; [| split]].
  - destruct input; simpl; try constructor.
    apply Forall_forall. intros v Hv. apply filter_In in Hv.
    apply default_validator_no_hole. apply Hv.
  - apply SafeArrayImpl_length.
  - intros items ->. simpl. split; [apply filter_length_le |]. split.
    + intros v Hv. apply filter_In in Hv. apply Hv.
    + intro H. apply filter_all_true. intros v Hv.
      apply default_validator_no_hole.
      exact (proj1 (Forall_forall _ _) H v Hv).
  - intro H. destruct input; try reflexivity. exfalso. exact (H _ eq_refl).
Qed.

Lemma accepted_from_incl (fn : jsval -> nat -> completion bool)
    (l : list jsval) :
  forall i v, In v (accepted_from fn i l) -> In v l.
Proof.
  induction l as [| x rest IH]; intros i v; simpl; [intros [] |].
  destruct (fn x i) as [[|] | message]; simpl.
  - intros [H | H]; [left; exact H | right; exact (IH _ _ H)].
  - intro H. right. exact (IH _ _ H).
  - intro H. right. exact (IH _ _ H).
Qed.

Lemma filter_kept_is_accepted (fn : jsval -> nat -> completion bool)
    (l : list jsval) :
  forall i,
    map fst
      (filter snd
         (mapi_from
            (fun item index =>
               match fn item index with
               | Return b => (item, b)
               | Throw _ => (item, false)
               end) i l))
    = accepted_from fn i l.
Proof.
  induction l as [| x rest IH]; intro i; simpl; [reflexivity |].
  destruct (fn x i) as [[|] | message]; simpl; rewrite IH; reflexivity.
Qed.

(** X4.  [filter] on a SafeArray built without validator keeps, in order,
    exactly the elements for which the callback returns true; an element
    on which it throws is left out like one it rejects. *)
Theorem filter_keeps_the_accepted (input : jsval)
    (fn : jsval -> nat -> completion bool) :
  let a := safeArray input None in
  SafeArray.data (SafeArray_filter a fn)
  = accepted_from fn 0 (SafeArray.data a)
  /\ SafeArray.length (SafeArray_filter a fn)
     = List.length (accepted_from fn 0 (SafeArray.data a)).
Proof.
  cbv zeta.
  assert (Hdata : SafeArray.data (SafeArray_filter (safeArray input None) fn)
                  = accepted_from fn 0 (SafeArray.data (safeArray input None))).
  { unfold SafeArray_filter. rewrite SafeArrayImpl_array_data.
    rewrite filter_kept_is_accepted. apply filter_all_true.
    intros v Hv. apply accepted_from_incl in Hv.
    destruct (safeArray_holds_no_holes input) as (Hholes & _).
    apply default_validator_no_hole.
    exact (proj1 (Forall_forall _ _) Hholes v Hv). }
  split; [exact Hdata |].
  unfold SafeArray_filter at 1. rewrite SafeArrayImpl_length.
  fold (SafeArray_filter (safeArray input None) fn). rewrite Hdata. reflexivity.
Qed.

Lemma find_from_first (fn : jsval -> nat -> completion bool)
    (before : list jsval) :
  forall (i : nat) (x : jsval) (after : list jsval),
    fn x (i + List.length before)%nat = Return true ->
    (forall j y, nth_error before j = Some y -> fn y (i + j)%nat <> Return true) ->
    find_from fn i (before ++ x :: after) = x.
Proof.
  induction before as [| b rest IH]; intros i x after Hx Hbefore; simpl.
  - rewrite Nat.add_0_r in Hx. rewrite Hx. reflexivity.
  - assert (Hb : fn b i <> Return true).
    { specialize (Hbefore O b eq_refl). rewrite Nat.add_0_r in Hbefore.
      exact Hbefore. }
    assert (Hrest : find_from fn (S i) (rest ++ x :: after) = x).
    { apply IH.
      - simpl in Hx. rewrite Nat.add_succ_r in Hx. exact Hx.
      - intros j y Hj. specialize (Hbefore (S j) y Hj).
        rewrite Nat.add_succ_r in Hbefore. exact Hbefore. }
    destruct (fn b i) as [[|] | message]; [contradiction | exact Hrest ..].
Qed.

Lemma find_from_none (fn : jsval -> nat -> completion bool) (l : list jsval) :
  forall i,
    (forall j y, nth_error l j = Some y -> fn y (i + j)%nat <> Return true) ->
    find_from fn i l = VNull.
Proof.
  induction l as [| b rest IH]; intros i Hnone; simpl; [reflexivity |].
  assert (Hb : fn b i <> Return true).
  { specialize (Hnone O b eq_refl). rewrite Nat.add_0_r in Hnone. exact Hnone. }
  assert (Hrest : find_from fn (S i) rest = VNull).
  { apply IH. intros j y Hj. specialize (Hnone (S j) y Hj).
    rewrite Nat.add_succ_r in Hnone. exact Hnone. }
  destruct (fn b i) as [[|] | message]; [contradiction | exact Hrest ..].
Qed.

(** X5.  [find] returns the first element for which the callback returns
    true, passing over the elements where it returns false or throws, and
    [null] when there is no such element. *)
Theorem find_returns_first_match (a : SafeArray.t)
    (fn : jsval -> nat -> completion bool) :
  (forall before x after,
     SafeArray.data a = before ++ x :: after ->
     fn x (List.length before) = Return true ->
     (forall j y, nth_error before j = Some y -> fn y j <> Return true) ->
     SafeArray_find a fn = x)
  /\ ((forall j y, nth_error (SafeArray.data a) j = Some y ->
                   fn y j <> Return true) ->
      SafeArray_find a fn = VNull).
Proof.
  unfold SafeArray_find. split.
  - intros before x after -> Hx Hbefore.
    apply find_from_first; [exact Hx | exact Hbefore].
  - intro Hnone. apply find_from_none. exact Hnone.
Qed.

(** X6.  [at] answers with [null] or with a truthy element of the array,
    never with [undefined]; it answers [null] for every index that is not
    an integer from 0 to below the length. *)
Theorem at_is_null_or_an_element (a : SafeArray.t) (index : number) :
  (SafeArray_at a index = VNull
   \/ (In (SafeArray_at a index) (SafeArray.data a)
       /\ truthy (SafeArray_at a index) = true))
  /\ (Number_isInteger index = false
      \/ (index <? Fin 0)%js = true
      \/ (index >=? ofNat (SafeArray.length a))%js = true ->
      SafeArray_at a index = VNull).
Proof.
  unfold SafeArray_at.
  destruct index as [| | | q]; try (split; [left |]; reflexivity).
  change (SafeNumberImpl (VNumber (Fin q)) (Fin 0))
    with (SafeNumber.mk (Fin q) true true (Number_isInteger (Fin q))).
  cbn [SafeNumber.isValid SafeNumber.isInteger SafeNumber.value negb orb].
  destruct (Number_isInteger (Fin q)) eqn:Hint; cbn [negb];
    [| split; [left |]; reflexivity].
  destruct ((Fin q <? Fin 0)%js || (Fin q >=? ofNat (SafeArray.length a))%js)
    eqn:Hrange.
  { split; [left |]; reflexivity. }
  apply orb_false_iff in Hrange. destruct Hrange as [Hneg Hlen]. split.
  - unfold or_else, element. rewrite Hint.
    destruct (Qle_bool 0 q); cbn [andb]; [| left; reflexivity].
    destruct (truthy (nth (Z.to_nat (Qfloor q)) (SafeArray.data a) VUndefined))
      eqn:Htruthy; [| left; reflexivity].
    right. split; [| exact Htruthy].
    destruct (nth_in_or_default (Z.to_nat (Qfloor q)) (SafeArray.data a)
                VUndefined) as [Hin | Hdef]; [exact Hin |].
    rewrite Hdef in Htruthy. discriminate.
  - intros [H | [H | H]]; congruence.
Qed.

Lemma truncate_ofZ (z : Z) : truncate (inject_Z z) = z.
Proof.
  unfold truncate. destruct (Qlt_bool (inject_Z z) 0).
  - apply Qceiling_Z.
  - apply Qfloor_Z.
Qed.

Lemma relativeIndex_ofNat (k len : nat) :
  relativeIndex (ofNat k) len = Nat.min k len.
Proof.
  unfold relativeIndex, ofNat, ofZ. rewrite truncate_ofZ.
  replace (Z.of_nat k <? 0)%Z with false by (symmetry; apply Z.ltb_ge; lia).
  rewrite Nat2Z.id. reflexivity.
Qed.

Lemma relativeIndex_negative (k len : nat) :
  (0 < k)%nat ->
  relativeIndex (ofZ (- Z.of_nat k)) len = (len - k)%nat.
Proof.
  intro Hk. unfold relativeIndex, ofZ. rewrite truncate_ofZ.
  replace (- Z.of_nat k <? 0)%Z with true by (symmetry; apply Z.ltb_lt; lia).
  lia.
Qed.

Lemma In_firstn {A : Type} (n : nat) (l : list A) (v : A) :
  In v (firstn n l) -> In v l.
Proof.
  intro H. rewrite <- (firstn_skipn n l). apply in_or_app. left. exact H.
Qed.

Lemma In_skipn {A : Type} (n : nat) (l : list A) (v : A) :
  In v (skipn n l) -> In v l.
Proof.
  intro H. rewrite <- (firstn_skipn n l). apply in_or_app. right. exact H.
Qed.

Lemma filter_default_sublist (l sub : list jsval) :
  Forall no_hole l -> (forall v, In v sub -> In v l) ->
  filter default_validator sub = sub.
Proof.
  intros Hl Hsub. apply filter_all_true. intros v Hv.
  apply default_validator_no_hole.
  exact (proj1 (Forall_forall _ _) Hl v (Hsub v Hv)).
Qed.

(** X7.  On a SafeArray built without validator, [slice(0, k)] and
    [slice(k)] cut the array in two that put together give it back, for
    every natural number [k]; and [slice(-k)] holds the last [k]
    elements. *)
Theorem slice_splits_the_array (input : jsval) (k : nat) :
  let a := safeArray input None in
  SafeArray.data (SafeArray_slice a (Fin 0) (Some (ofNat k)))
  ++ SafeArray.data (SafeArray_slice a (ofNat k) None)
  = SafeArray.data a
  /\ SafeArray.data (SafeArray_slice a (Fin 0) (Some (ofNat k)))
     = firstn k (SafeArray.data a)
  /\ ((0 < k)%nat ->
      SafeArray.data (SafeArray_slice a (ofZ (- Z.of_nat k)) None)
      = skipn (List.length (SafeArray.data a) - k) (SafeArray.data a)).
Proof.
  cbv zeta. set (a := safeArray input None).
  destruct (safeArray_holds_no_holes input) as (Hholes & _). fold a in Hholes.
  set (l := SafeArray.data a) in *.
  assert (Hhead : SafeArray.data (SafeArray_slice a (Fin 0) (Some (ofNat k)))
                  = firstn k l).
  { unfold SafeArray_slice. rewrite SafeArrayImpl_array_data. fold l.
    change (SafeNumber.value (SafeNumberImpl (VNumber (Fin 0)) (Fin 0)))
      with (ofNat 0).
    change (SafeNumber.value (SafeNumberImpl (VNumber (ofNat k)) (Fin 0)))
      with (ofNat k).
    unfold Array_slice. rewrite !relativeIndex_ofNat.
    cbn [Nat.min skipn]. rewrite Nat.sub_0_r.
    rewrite (filter_default_sublist l).
    - destruct (Nat.le_ge_cases k (List.length l)) as [H | H].
      + rewrite Nat.min_l by exact H. reflexivity.
      + rewrite Nat.min_r by exact H.
        rewrite !firstn_all2 by lia. reflexivity.
    - exact Hholes.
    - intros v Hv. exact (In_firstn _ _ _ Hv). }
  assert (Htail : SafeArray.data (SafeArray_slice a (ofNat k) None)
                  = skipn k l).
  { unfold SafeArray_slice. rewrite SafeArrayImpl_array_data. fold l.
    change (SafeNumber.value (SafeNumberImpl (VNumber (ofNat k)) (Fin 0)))
      with (ofNat k).
    unfold Array_slice. rewrite relativeIndex_ofNat.
    rewrite (filter_default_sublist l).
    - destruct (Nat.le_ge_cases k (List.length l)) as [H | H].
      + rewrite Nat.min_l by exact H.
        apply firstn_all2. rewrite length_skipn. lia.
      + rewrite Nat.min_r by exact H. rewrite Nat.sub_diag.
        rewrite (skipn_all2 l H). reflexivity.
    - exact Hholes.
    - intros v Hv. apply In_firstn in Hv. exact (In_skipn _ _ _ Hv). }
  split; [rewrite Hhead, Htail; apply firstn_skipn |].
  split; [exact Hhead |].
  intro Hk. unfold SafeArray_slice. rewrite SafeArrayImpl_array_data. fold l.
  change (SafeNumber.value
            (SafeNumberImpl (VNumber (ofZ (- Z.of_nat k))) (Fin 0)))
    with (ofZ (- Z.of_nat k)).
  unfold Array_slice. rewrite (relativeIndex_negative k _ Hk).
  rewrite (filter_default_sublist l).
  - apply firstn_all2. rewrite length_skipn. lia.
  - exact Hholes.
  - intros v Hv. apply In_firstn in Hv. exact (In_skipn _ _ _ Hv).
Qed.

End SafeNumberArrayMore.

(* ================================================================== *)
(** ** SafeMath                                                        *)
(* ================================================================== *)

Section SafeMathFacts.
Context {host : Host}.

Lemma filter_isFiniteNumber (items : list jsval) :
  filter isFiniteNumber items
  = map (fun q => VNumber (Fin q)) (finite_values items).
Proof.
  induction items as [| v rest IH]; [reflexivity |].
  destruct v as [| | b | n | s | l | props]; try exact IH.
  destruct n; try exact IH. simpl. rewrite IH. reflexivity.
Qed.

Lemma safeNumbers_data (numbers : jsval) :
  SafeArray.data (safeArray numbers (Some isFiniteNumber))
  = map (fun q => VNumber (Fin q)) (finite_numbers numbers)
  /\ SafeArray.length (safeArray numbers (Some isFiniteNumber))
     = List.length (finite_numbers numbers).
Proof.
  destruct numbers; try (split; reflexivity).
  unfold safeArray, SafeArrayImpl, finite_numbers.
  cbn [SafeArray.data SafeArray.length].
  rewrite filter_isFiniteNumber, length_map. split; reflexivity.
Qed.

Lemma safeNumbers_isEmpty (numbers : jsval) :
  SafeArray_isEmpty (safeArray numbers (Some isFiniteNumber)) = true
  <-> finite_numbers numbers = [].
Proof.
  unfold SafeArray_isEmpty. rewrite (proj2 (safeNumbers_data numbers)).
  rewrite Nat.eqb_eq. apply length_zero_iff_nil.
Qed.

Lemma min_reduce (f : number -> jsval -> nat -> number) (qs : list Q) :
  (forall acc q i, f acc (VNumber (Fin q)) i = Math_min acc (Fin q)) ->
  forall i a,
  exists m,
    reducei_from f i (map (fun q => VNumber (Fin q)) qs) (Fin a) = Fin m
    /\ (m = a \/ In m qs) /\ m <= a /\ (forall q, In q qs -> m <= q).
Proof.
  intro Hf. induction qs as [| q rest IH]; intros i a.
  - exists a. repeat split; [left; reflexivity | lra | intros q []].
  - cbn [map reducei_from]. rewrite Hf. unfold Math_min, lt.
    destruct (Qlt_bool q a) eqn:E.
    + apply Qlt_bool_iff in E.
      destruct (IH (S i) q) as (m & Hm & Hin & Hle & Hall).
      exists m. split; [exact Hm |]. split; [| split].
      * right. destruct Hin as [-> | Hin]; [left; reflexivity | right; exact Hin].
      * lra.
      * intros q' [<- | Hq']; [exact Hle | exact (Hall _ Hq')].
    + apply Qlt_bool_false_iff in E.
      destruct (IH (S i) a) as (m & Hm & Hin & Hle & Hall).
      exists m. split; [exact Hm |]. split; [| split].
      * destruct Hin as [-> | Hin]; [left; reflexivity | right; right; exact Hin].
      * exact Hle.
      * intros q' [<- | Hq']; [lra | exact (Hall _ Hq')].
Qed.

Lemma max_reduce (f : number -> jsval -> nat -> number) (qs : list Q) :
  (forall acc q i, f acc (VNumber (Fin q)) i = Math_max acc (Fin q)) ->
  forall i a,
  exists m,
    reducei_from f i (map (fun q => VNumber (Fin q)) qs) (Fin a) = Fin m
    /\ (m = a \/ In m qs) /\ a <= m /\ (forall q, In q qs -> q <= m).
Proof.
  intro Hf. induction qs as [| q rest IH]; intros i a.
  - exists a. repeat split; [left; reflexivity | lra | intros q []].
  - cbn [map reducei_from]. rewrite Hf. unfold Math_max, lt.
    destruct (Qlt_bool a q) eqn:E.
    + apply Qlt_bool_iff in E.
      destruct (IH (S i) q) as (m & Hm & Hin & Hle & Hall).
      exists m. split; [exact Hm |]. split; [| split].
      * right. destruct Hin as [-> | Hin]; [left; reflexivity | right; exact Hin].
      * lra.
      * intros q' [<- | Hq']; [exact Hle | exact (Hall _ Hq')].
    + apply Qlt_bool_false_iff in E.
      destruct (IH (S i) a) as (m & Hm & Hin & Hle & Hall).
      exists m. split; [exact Hm |]. split; [| split].
      * destruct Hin as [-> | Hin]; [left; reflexivity | right; right; exact Hin].
      * exact Hle.
      * intros q' [<- | Hq']; [lra | exact (Hall _ Hq')].
Qed.

Lemma SafeMath_min_least (numbers : jsval) (fallback : number) :
  finite_numbers numbers <> [] ->
  exists m,
    SafeMath_min numbers fallback = Fin m
    /\ In m (finite_numbers numbers)
    /\ (forall q, In q (finite_numbers numbers) -> m <= q).
Proof.
  intro Hne. unfold SafeMath_min. cbv zeta.
  destruct (SafeArray_isEmpty (safeArray numbers (Some isFiniteNumber))) eqn:E.
  { apply safeNumbers_isEmpty in E. contradiction. }
  unfold SafeArray_reduce. rewrite (proj1 (safeNumbers_data numbers)).
  destruct (finite_numbers numbers) as [| q rest]; [contradiction |].
  cbn [map reducei_from].
  match goal with
  | |- exists m, reducei_from ?f _ _ _ = _ /\ _ =>
      destruct (min_reduce f rest (fun _ _ _ => eq_refl) 1%nat q)
        as (m & Hm & Hin & Hle & Hall)
  end.
  exists m. split; [exact Hm |]. split.
  - destruct Hin as [-> | Hin]; [left; reflexivity | right; exact Hin].
  - intros q' [<- | Hq']; [exact Hle | exact (Hall _ Hq')].
Qed.

Lemma SafeMath_max_greatest (numbers : jsval) (fallback : number) :
  finite_numbers numbers <> [] ->
  exists m,
    SafeMath_max numbers fallback = Fin m
    /\ In m (finite_numbers numbers)
    /\ (forall q, In q (finite_numbers numbers) -> q <= m).
Proof.
  intro Hne. unfold SafeMath_max. cbv zeta.
  destruct (SafeArray_isEmpty (safeArray numbers (Some isFiniteNumber))) eqn:E.
  { apply safeNumbers_isEmpty in E. contradiction. }
  unfold SafeArray_reduce. rewrite (proj1 (safeNumbers_data numbers)).
  destruct (finite_numbers numbers) as [| q rest]; [contradiction |].
  cbn [map reducei_from].
  match goal with
  | |- exists m, reducei_from ?f _ _ _ = _ /\ _ =>
      destruct (max_reduce f rest (fun _ _ _ => eq_refl) 1%nat q)
        as (m & Hm & Hin & Hle & Hall)
  end.
  exists m. split; [exact Hm |]. split.
  - destruct Hin as [-> | Hin]; [left; reflexivity | right; exact Hin].
  - intros q' [<- | Hq']; [exact Hle | exact (Hall _ Hq')].
Qed.

(** X8.  [SafeMath.min] looks only at the finite numbers of the array:
    without any (or for a value that is no array) it returns the
    fallback; otherwise it returns one of them, and none of them is
    smaller. *)
Theorem SafeMath_min_is_least_finite_number
    (numbers : jsval) (fallback : number) :
  (finite_numbers numbers = [] -> SafeMath_min numbers fallback = fallback)
  /\ (finite_numbers numbers <> [] ->
      exists m,
        SafeMath_min numbers fallback = Fin m
        /\ In m (finite_numbers numbers)
        /\ (forall q, In q (finite_numbers numbers) -> m <= q)).
Proof.
  split; [| apply SafeMath_min_least].
  intro Hnil. unfold SafeMath_min. cbv zeta.
  rewrite (proj2 (safeNumbers_isEmpty numbers) Hnil). reflexivity.
Qed.

(** X9.  [SafeMath.max] likewise returns the fallback when the array has
    no finite number, and otherwise one of its finite numbers that none
    of them exceeds. *)
Theorem SafeMath_max_is_greatest_finite_number
    (numbers : jsval) (fallback : number) :
  (finite_numbers numbers = [] -> SafeMath_max numbers fallback = fallback)
  /\ (finite_numbers numbers <> [] ->
      exists m,
        SafeMath_max numbers fallback = Fin m
        /\ In m (finite_numbers numbers)
        /\ (forall q, In q (finite_numbers numbers) -> q <= m)).
Proof.
  split; [| apply SafeMath_max_greatest].
  intro Hnil. unfold SafeMath_max. cbv zeta.
  rewrite (proj2 (safeNumbers_isEmpty numbers) Hnil). reflexivity.
Qed.

Lemma sum_reduce (f : number -> jsval -> nat -> number) (qs : list Q) :
  (forall acc q i, f acc (VNumber (Fin q)) i = (acc + Fin q)%js) ->
  forall i a,
  exists s,
    reducei_from f i (map (fun q => VNumber (Fin q)) qs) (Fin a) = Fin s
    /\ s == a + sumQ qs.
Proof.
  intro Hf. induction qs as [| q rest IH]; intros i a.
  - exists a. split; [reflexivity | unfold sumQ; simpl; lra].
  - cbn [map reducei_from]. rewrite Hf. cbn [add].
    destruct (IH (S i) (Qred (a + q))) as (s & Hs & Heq).
    exists s. split; [exact Hs |].
    rewrite Heq, Qred_correct. unfold sumQ. simpl. lra.
Qed.

Lemma inject_Z_of_nat_S (n : nat) :
  inject_Z (Z.of_nat (S n)) == inject_Z (Z.of_nat n) + 1.
Proof.
  rewrite Nat2Z.inj_succ, <- Z.add_1_r, inject_Z_plus. reflexivity.
Qed.

Lemma sumQ_bounds (lo hi : Q) (qs : list Q) :
  (forall q, In q qs -> lo <= q <= hi) ->
  lo * inject_Z (Z.of_nat (List.length qs)) <= sumQ qs
  /\ sumQ qs <= hi * inject_Z (Z.of_nat (List.length qs)).
Proof.
  induction qs as [| q rest IH]; intro Hall.
  - unfold sumQ. simpl. change (inject_Z 0) with 0. lra.
  - assert (Hq : lo <= q <= hi) by (apply Hall; left; reflexivity).
    destruct IH as [IHlo IHhi]; [intros q' Hq'; apply Hall; right; exact Hq' |].
    cbn [List.length]. rewrite inject_Z_of_nat_S.
    unfold sumQ in *. cbn [fold_right]. split; lra.
Qed.

Lemma finite_values_of_numbers (qs : list Q) :
  finite_values (map (fun q => VNumber (Fin q)) qs) = qs.
Proof.
  induction qs as [| q rest IH]; simpl; [reflexivity |].
  rewrite IH. reflexivity.
Qed.

(** X10.  [SafeMath.average] returns the fallback when the array has no
    finite number, and depends on nothing but the finite numbers of the
    array, in their order.  Where the doubles add them up and divide
    without rounding ([sums_exact]), the result is their sum over their
    count and lies between [SafeMath.min] and [SafeMath.max] of the same
    array. *)
Theorem SafeMath_average_between_min_and_max
    (numbers : jsval) (fallback : number) :
  (finite_numbers numbers = [] -> SafeMath_average numbers fallback = fallback)
  /\ SafeMath_average numbers fallback
     = SafeMath_average
         (VArray (map (fun q => VNumber (Fin q)) (finite_numbers numbers)))
         fallback
  /\ (finite_numbers numbers <> [] ->
      sums_exact (finite_numbers numbers) ->
      exists a,
        SafeMath_average numbers fallback = Fin a
        /\ a * inject_Z (Z.of_nat (List.length (finite_numbers numbers)))
           == sumQ (finite_numbers numbers)
        /\ (SafeMath_min numbers fallback <=? Fin a)%js = true
        /\ (Fin a <=? SafeMath_max numbers fallback)%js = true).
Proof.
  split; [| split].
  { intro Hnil. unfold SafeMath_average. cbv zeta.
    rewrite (proj2 (safeNumbers_isEmpty numbers) Hnil). reflexivity. }
  { unfold SafeMath_average, SafeArray_isEmpty, SafeArray_reduce. cbv zeta.
    rewrite !(proj1 (safeNumbers_data _)), !(proj2 (safeNumbers_data _)).
    cbn [finite_numbers]. rewrite finite_values_of_numbers. reflexivity. }
  intros Hne _.
  destruct (SafeMath_min_least numbers fallback Hne) as (lo & Hlo & _ & Hlo_all).
  destruct (SafeMath_max_greatest numbers fallback Hne)
    as (hi & Hhi & _ & Hhi_all).
  rewrite Hlo, Hhi. unfold SafeMath_average. cbv zeta.
  destruct (SafeArray_isEmpty (safeArray numbers (Some isFiniteNumber))) eqn:E.
  { apply safeNumbers_isEmpty in E. contradiction. }
  unfold SafeArray_reduce.
  rewrite (proj1 (safeNumbers_data numbers)), (proj2 (safeNumbers_data numbers)).
  match goal with
  | |- context [reducei_from ?f 0%nat _ (Fin 0)] =>
      destruct (sum_reduce f (finite_numbers numbers)
                  (fun _ _ _ => eq_refl) 0%nat 0) as (s & Hs & Hsum)
  end.
  rewrite Hs.
  destruct (sumQ_bounds lo hi (finite_numbers numbers)) as [Hlow Hhigh].
  { intros q Hq. split; [exact (Hlo_all _ Hq) | exact (Hhi_all _ Hq)]. }
  set (n := inject_Z (Z.of_nat (List.length (finite_numbers numbers)))) in *.
  assert (Hn : 0 < n).
  { unfold n. change 0 with (inject_Z 0). rewrite <- Zlt_Qlt.
    destruct (finite_numbers numbers); [contradiction | simpl; lia]. }
  unfold ofNat, ofZ. fold n. cbn [div].
  destruct (Qeq_bool n 0) eqn:Hzero; [apply Qeq_bool_eq in Hzero; lra |].
  exists (Qred (s / n)). split; [reflexivity |].
  assert (Hs' : s == sumQ (finite_numbers numbers)) by (rewrite Hsum; lra).
  split; [rewrite Qred_correct; field_simplify_eq; [lra | lra] |].
  cbn [le]. split; apply Qle_bool_iff; rewrite Qred_correct.
  - apply Qle_shift_div_l; [exact Hn | lra].
  - apply Qle_shift_div_r; [exact Hn | lra].
Qed.

End SafeMathFacts.

(* ================================================================== *)
(** ** DataValidators                                                  *)
(* ================================================================== *)

Section DataValidatorsFacts.
Context {host : Host}.

Lemma SafeNumberImpl_value_finite (input : jsval) (fallback : number) :
  isFinite fallback = true ->
  isFinite (SafeNumber.value (SafeNumberImpl input fallback)) = true.
Proof.
  intro H. unfold SafeNumberImpl. cbn [SafeNumber.value].
  destruct (coerce input); simpl; try exact H. reflexivity.
Qed.

(** X11.  [extractCoordinates] with a finite fallback point always gives a
    point of finite coordinates; a value that is no object (or is
    [null]) gives the fallback itself, and an object whose [x] and [y]
    are finite numbers gives exactly these. *)
Theorem extractCoordinates_is_finite (obj : jsval) (fallback : Point.t) :
  isFinite (Point.x fallback) = true ->
  isFinite (Point.y fallback) = true ->
  let p := extractCoordinates obj fallback in
  isFinite (Point.x p) = true /\ isFinite (Point.y p) = true
  /\ (truthy obj = false \/ typeof obj <> TObject -> p = fallback)
  /\ (forall props x y,
        obj = VObject props ->
        lookup "x" props = VNumber (Fin x) ->
        lookup "y" props = VNumber (Fin y) ->
        p = Point.mk (Fin x) (Fin y)).
Proof.
  intros Hx Hy. cbv zeta. unfold extractCoordinates.
  split; [| split; [| split]].
  - destruct (negb (truthy obj) || negb (jstype_eqb (typeof obj) TObject));
      [exact Hx |].
    apply SafeNumberImpl_value_finite. exact Hx.
  - destruct (negb (truthy obj) || negb (jstype_eqb (typeof obj) TObject));
      [exact Hy |].
    apply SafeNumberImpl_value_finite. exact Hy.
  - intros [H | H].
    + rewrite H. reflexivity.
    + destruct obj; cbn [typeof jstype_eqb negb]; rewrite ?orb_true_r;
        try reflexivity; exfalso; apply H; reflexivity.
  - intros props x y -> Hpx Hpy. cbn [truthy typeof jstype_eqb negb orb member].
    rewrite Hpx, Hpy. reflexivity.
Qed.

Lemma accepted_from_filter (g : jsval -> bool) (l : list jsval) :
  forall i, accepted_from (fun item _ => Return (g item)) i l = filter g l.
Proof.
  induction l as [| x rest IH]; intro i; simpl; [reflexivity |].
  destruct (g x); rewrite IH; reflexivity.
Qed.

Lemma SafeArray_filter_data (a : SafeArray.t)
    (fn : jsval -> nat -> completion bool) :
  SafeArray.data (SafeArray_filter a fn)
  = filter default_validator (accepted_from fn 0 (SafeArray.data a)).
Proof.
  unfold SafeArray_filter. rewrite SafeArrayImpl_array_data.
  rewrite filter_kept_is_accepted. reflexivity.
Qed.

Lemma SafeArray_map_data (a : SafeArray.t)
    (fn : jsval -> nat -> completion jsval) :
  SafeArray.data (SafeArray_map a fn)
  = filter default_validator (returned_from fn 0 (SafeArray.data a)).
Proof.
  unfold SafeArray_map. rewrite SafeArrayImpl_array_data.
  apply filter_mapped_returned.
Qed.

Lemma returned_from_map (f : jsval -> jsval) (l : list jsval) :
  forall i, returned_from (fun item _ => Return (f item)) i l = map f l.
Proof.
  induction l as [| x rest IH]; intro i; simpl; [reflexivity |].
  rewrite IH. reflexivity.
Qed.

Lemma validateCoordinateArray_eq (arr : jsval) :
  validateCoordinateArray arr
  = filter onBoard
      (map (fun item => pointObject (extractCoordinates item origin))
         (SafeArray.data (safeArray arr None))).
Proof.
  unfold validateCoordinateArray, SafeArray_toArray.
  rewrite SafeArray_filter_data, accepted_from_filter.
  rewrite SafeArray_map_data.
  rewrite (returned_from_map
             (fun item => pointObject (extractCoordinates item origin))).
  rewrite (filter_all_true default_validator
             (map (fun item => pointObject (extractCoordinates item origin)) _)).
  - apply filter_all_true. intros v Hv. apply filter_In in Hv.
    destruct Hv as [Hv _]. apply in_map_iff in Hv.
    destruct Hv as (item & <- & _). reflexivity.
  - intros v Hv. apply in_map_iff in Hv. destruct Hv as (item & <- & _).
    reflexivity.
Qed.

(** X12.  Every point [validateCoordinateArray] returns is an object
    [{ x, y }] with both coordinates from 0 to 100.  An element that is
    no object is not dropped: it is read as the point (0, 0), which is
    then part of the result. *)
Theorem validateCoordinateArray_points_on_board (arr : jsval) :
  Forall
    (fun p => exists x y : Q,
       p = pointObject (Point.mk (Fin x) (Fin y))
       /\ 0 <= x <= 100 /\ 0 <= y <= 100)
    (validateCoordinateArray arr)
  /\ (forall item,
        In item (SafeArray.data (safeArray arr None)) ->
        typeof item <> TObject ->
        In (pointObject origin) (validateCoordinateArray arr)).
Proof.
  rewrite validateCoordinateArray_eq. split.
  - apply Forall_forall. intros p Hp. apply filter_In in Hp.
    destruct Hp as [Hin Hboard]. apply in_map_iff in Hin.
    destruct Hin as (item & <- & _).
    destruct (extractCoordinates_is_finite item origin eq_refl eq_refl)
      as (Hx & Hy & _).
    destruct (extractCoordinates item origin) as [[| | | x] [| | | y]];
      try discriminate.
    exists x, y. split; [reflexivity |].
    unfold onBoard, pointObject in Hboard.
    cbn [member lookup String.eqb Ascii.eqb Bool.eqb coerce ge le] in Hboard.
    simpl in Hboard.
    apply andb_true_iff in Hboard. destruct Hboard as [Hboard Hy100].
    apply andb_true_iff in Hboard. destruct Hboard as [Hboard Hy0].
    apply andb_true_iff in Hboard. destruct Hboard as [Hx0 Hx100].
    apply Qle_bool_iff in Hx0, Hx100, Hy0, Hy100. lra.
  - intros item Hitem Htype. apply filter_In. split; [| reflexivity].
    apply in_map_iff. exists item. split; [| exact Hitem].
    f_equal. unfold extractCoordinates.
    destruct item; cbn [typeof jstype_eqb negb]; rewrite ?orb_true_r;
      try reflexivity; exfalso; apply Htype; reflexivity.
Qed.

Lemma has_finite_xy_object (item : jsval) :
  has_finite_xy item -> exists props, item = VObject props.
Proof.
  intros (x & y & Hx & _).
  destruct item as [| | b | n | s | l | props]; try discriminate.
  exists props. reflexivity.
Qed.

Lemma isChartPoint_finite_xy (item : jsval) :
  isChartPoint item = true <-> has_finite_xy item.
Proof.
  unfold isChartPoint, has_finite_xy. split.
  - intro H. apply andb_true_iff in H. destruct H as [_ H].
    destruct (member item "x") as [| | | [| | | x] | | |]; try discriminate;
      destruct (member item "y") as [| | | [| | | y] | | |]; try discriminate.
    exists x, y. split; reflexivity.
  - intro H. destruct (has_finite_xy_object item H) as (props & ->).
    destruct H as (x & y & Hx & Hy). rewrite Hx, Hy. reflexivity.
Qed.

Lemma filter_kept_exactly (guard : jsval -> bool) (P : jsval -> Prop)
    (items : list jsval) :
  (forall item, guard item = true <-> P item) ->
  kept_exactly P items (filter guard items).
Proof.
  intro Hguard. induction items as [| x rest IH]; simpl; [constructor |].
  destruct (guard x) eqn:E.
  - apply kept_this; [apply Hguard; exact E | exact IH].
  - apply kept_skip; [| exact IH].
    intro HP. apply Hguard in HP. congruence.
Qed.

(** X13.  [validateChartData] returns, in their order, exactly the
    elements that are objects with finite numbers as [x] and [y]: none of
    them is left out and nothing else is let through; validating the
    result again changes nothing, and a value that is no array gives the
    empty list. *)
Theorem validateChartData_points_are_finite (data : jsval) :
  Forall has_finite_xy (validateChartData data)
  /\ validateChartData (VArray (validateChartData data))
     = validateChartData data
  /\ (forall items, data = VArray items ->
        kept_exactly has_finite_xy items (validateChartData data))
  /\ ((forall items, data <> VArray items) -> validateChartData data = []).
Proof.
  unfold validateChartData, SafeArray_toArray, safeArray.
  split; [| split; [| split]].
  - destruct data; simpl; try constructor.
    apply Forall_forall. intros p Hp. apply filter_In in Hp.
    apply isChartPoint_finite_xy. apply Hp.
  - destruct data; try reflexivity. simpl. apply filter_idempotent.
  - intros items ->. cbn [SafeArrayImpl SafeArray.data].
    apply filter_kept_exactly. exact isChartPoint_finite_xy.
  - intro H. destruct data; try reflexivity. exfalso. exact (H _ eq_refl).
Qed.

Lemma typeof_string (v : jsval) :
  jstype_eqb (typeof v) TString = true <-> exists s, v = VString s.
Proof.
  split.
  - destruct v; try discriminate. intros _. eexists. reflexivity.
  - intros (s & ->). reflexivity.
Qed.

Lemma isPlayer_complete (player : jsval) :
  isPlayer player = true <-> complete_player player.
Proof.
  unfold isPlayer, complete_player. split.
  - intro H.
    apply andb_true_iff in H. destruct H as [H Hxy].
    apply andb_true_iff in H. destruct H as [H _].
    apply andb_true_iff in H. destruct H as [H Hname].
    apply andb_true_iff in H. destruct H as [_ Hid].
    split; [apply typeof_string; exact Hid |].
    split; [apply typeof_string; exact Hname |].
    unfold has_finite_xy.
    destruct (member (member player "position") "x")
      as [| | | [| | | x] | | |]; try discriminate;
      destruct (member (member player "position") "y")
      as [| | | [| | | y] | | |]; try discriminate.
    exists x, y. split; reflexivity.
  - intros (Hid & Hname & Hpos).
    assert (Hobject : exists props, player = VObject props).
    { destruct Hid as (id & Hid).
      destruct player as [| | b | n | s | l | props]; try discriminate.
      exists props. reflexivity. }
    destruct Hobject as (props & ->).
    rewrite (proj2 (typeof_string _) Hid), (proj2 (typeof_string _) Hname).
    destruct (has_finite_xy_object _ Hpos) as (position & Hposition).
    destruct Hpos as (x & y & Hx & Hy). rewrite Hx, Hy, Hposition.
    reflexivity.
Qed.

(** X14.  [validatePlayerData] returns, in their order, exactly the
    elements that have strings as [id] and [name] (an empty string will
    do) and a [position] whose [x] and [y] are finite numbers: none of
    them is left out and nothing else is let through; validating the
    result again changes nothing. *)
Theorem validatePlayerData_players_are_complete (players : jsval) :
  Forall complete_player (validatePlayerData players)
  /\ validatePlayerData (VArray (validatePlayerData players))
     = validatePlayerData players
  /\ (forall items, players = VArray items ->
        kept_exactly complete_player items (validatePlayerData players)).
Proof.
  unfold validatePlayerData, SafeArray_toArray, safeArray.
  split; [| split].
  - destruct players; simpl; try constructor.
    apply Forall_forall. intros p Hp. apply filter_In in Hp.
    apply isPlayer_complete. apply Hp.
  - destruct players; try reflexivity. simpl. apply filter_idempotent.
  - intros items ->. cbn [SafeArrayImpl SafeArray.data].
    apply filter_kept_exactly. exact isPlayer_complete.
Qed.

End DataValidatorsFacts.

(* ================================================================== *)
(** ** ChartSafety: scales and paths                                   *)
(* ================================================================== *)

Section ChartSafetyFacts.
Context {host : Host}.

Lemma createSafeScale_value (d0 d1 r0 r1 value : number) :
  let a := finite_or d0 0 in
  let b := finite_or d1 0 in
  let c := finite_or r0 0 in
  let e := finite_or r1 0 in
  let v := finite_or value 0 in
  exists s,
    createSafeScale (d0, d1) (r0, r1) value = Fin s
    /\ (b - a == 0 -> s == c + (v - a) * (e - c))
    /\ (~ b - a == 0 -> s == c + (v - a) / (b - a) * (e - c)).
Proof.
  cbv zeta. unfold createSafeScale. cbn [fst snd].
  rewrite !safeNumber_number_value.
  set (a := finite_or d0 0). set (b := finite_or d1 0).
  set (c := finite_or r0 0). set (e := finite_or r1 0).
  set (v := finite_or value 0).
  cbn [sub neg add truthy isNaN strict_eq orb].
  destruct (Qeq_bool (Qred (b + Qred (- a))) 0) eqn:Hspan; cbn [negb].
  - apply Qeq_bool_eq in Hspan. rewrite !Qred_correct in Hspan.
    cbn [div]. change (Qeq_bool 1 0) with false. cbn [mul add].
    eexists. split; [reflexivity |]. split.
    + intros _. rewrite !Qred_correct. field.
    + intro Hne. exfalso. apply Hne. lra.
  - assert (Hne : ~ b - a == 0).
    { intro Heq. apply Qeq_bool_neq in Hspan. apply Hspan.
      rewrite !Qred_correct. lra. }
    cbn [div]. rewrite Hspan. cbn [mul add].
    eexists. split; [reflexivity |]. split.
    + intro Heq. contradiction.
    + intros _. rewrite !Qred_correct. field. lra.
Qed.

(** X15.  [createSafeScale] reads bounds and arguments that are not
    finite as 0 and never divides by zero: the divisor is the width of
    the domain, or 1 when that is zero.  Where the doubles compute every
    step without rounding or overflow ([scale_exact]), the result is on
    the straight line [r0 + (v - d0) / span * (r1 - r0)], and for
    [d0 < d1] and [r0 <= r1] an argument of the domain has its value in
    the range. *)
Theorem createSafeScale_is_linear_where_exact
    (domain range : number * number) (value : number) :
  let d0 := finite_or (fst domain) 0 in
  let d1 := finite_or (snd domain) 0 in
  let r0 := finite_or (fst range) 0 in
  let r1 := finite_or (snd range) 0 in
  let v := finite_or value 0 in
  let span := if Qeq_bool (d1 - d0) 0 then 1 else d1 - d0 in
  scale_exact d0 d1 r0 r1 v ->
  exists s,
    createSafeScale domain range value = Fin s
    /\ s == r0 + (v - d0) / span * (r1 - r0)
    /\ (d0 < d1 -> r0 <= r1 -> d0 <= v <= d1 -> r0 <= s <= r1).
Proof.
  destruct domain as [x0 x1], range as [y0 y1]. cbn [fst snd]. cbv zeta.
  intros _.
  destruct (createSafeScale_value x0 x1 y0 y1 value) as (s & Hs & Hzero & Hline).
  cbv zeta in Hzero, Hline.
  set (d0 := finite_or x0 0) in *. set (d1 := finite_or x1 0) in *.
  set (r0 := finite_or y0 0) in *. set (r1 := finite_or y1 0) in *.
  set (v := finite_or value 0) in *.
  exists s. split; [exact Hs |].
  destruct (Qeq_bool (d1 - d0) 0) eqn:E.
  - apply Qeq_bool_eq in E. split.
    + rewrite (Hzero E). field.
    + intros Hlt. lra.
  - apply Qeq_bool_neq in E. split; [exact (Hline E) |].
    intros Hlt Hle Hv. rewrite (Hline E).
    set (t := (v - d0) / (d1 - d0)).
    assert (Ht0 : 0 <= t) by (unfold t; apply Qle_shift_div_l; lra).
    assert (Ht1 : t <= 1) by (unfold t; apply Qle_shift_div_r; lra).
    assert (H0 : 0 <= t * (r1 - r0)) by (apply Qmult_le_0_compat; lra).
    assert (H1 : 0 <= (1 - t) * (r1 - r0)) by (apply Qmult_le_0_compat; lra).
    lra.
Qed.

(** X16.  For a finite domain [d0, d1] with [d0 <> d1], where the
    differences [d1 - d0] and [r1 - r0] are doubles (no rounding, no
    overflow), the scale takes [d0] to [r0] and [d1] to [r1]. *)
Theorem createSafeScale_interpolates (d0 d1 r0 r1 : Q) :
  ~ d0 == d1 ->
  binary64 (d1 - d0) -> binary64 (r1 - r0) ->
  let scale := createSafeScale (Fin d0, Fin d1) (Fin r0, Fin r1) in
  same (scale (Fin d0)) (Fin r0) /\ same (scale (Fin d1)) (Fin r1).
Proof.
  intros Hne _ _. cbv zeta.
  assert (Hspan : ~ d1 - d0 == 0) by (intro H; apply Hne; lra).
  assert (Hline : forall v, exists s,
            createSafeScale (Fin d0, Fin d1) (Fin r0, Fin r1) (Fin v) = Fin s
            /\ s == r0 + (v - d0) / (d1 - d0) * (r1 - r0)).
  { intro v.
    destruct (createSafeScale_value (Fin d0) (Fin d1) (Fin r0) (Fin r1) (Fin v))
      as (s & Hs & _ & Hs').
    exists s. split; [exact Hs | exact (Hs' Hspan)]. }
  split.
  - destruct (Hline d0) as (s & -> & Hs). cbn [same]. rewrite Hs. field. lra.
  - destruct (Hline d1) as (s & -> & Hs). cbn [same]. rewrite Hs. field. lra.
Qed.

(** X17.  For a domain of width zero the divisor is 1, not 0.  Where the
    difference [r1 - r0] is a double, the scale takes the one point [d]
    of the domain to [r0]; and an argument [v] for which [v - d], the
    product [(v - d) * (r1 - r0)] and the sum are doubles goes to
    [r0 + (v - d) * (r1 - r0)]. *)
Theorem createSafeScale_zero_width_domain (d r0 r1 v : Q) :
  binary64 (r1 - r0) ->
  let scale := createSafeScale (Fin d, Fin d) (Fin r0, Fin r1) in
  same (scale (Fin d)) (Fin r0)
  /\ (binary64 (v - d) -> binary64 ((v - d) * (r1 - r0)) ->
      binary64 (r0 + (v - d) * (r1 - r0)) ->
      same (scale (Fin v)) (Fin (r0 + (v - d) * (r1 - r0)))).
Proof.
  intros _. cbv zeta. split.
  - destruct (createSafeScale_value (Fin d) (Fin d) (Fin r0) (Fin r1) (Fin d))
      as (s & -> & Hs & _).
    cbn [same]. cbn [finite_or] in Hs. rewrite Hs; lra.
  - intros _ _ _.
    destruct (createSafeScale_value (Fin d) (Fin d) (Fin r0) (Fin r1) (Fin v))
      as (s & -> & Hs & _).
    cbn [same]. cbn [finite_or] in Hs. rewrite Hs; lra.
Qed.

Variable numberToString : number -> string.

(** X18.  [createSafePath] gives the empty string exactly when the input
    has no valid point (also for a value that is no array); any other
    path starts with the move command ["M "]; and the points that are
    not valid do not show in the path. *)
Theorem createSafePath_starts_with_move (points : jsval) :
  (validateChartData points = [] ->
     createSafePath numberToString points = ""%string)
  /\ (validateChartData points <> [] ->
      exists rest,
        createSafePath numberToString points
        = String "M" (String " " rest))
  /\ createSafePath numberToString (VArray (validateChartData points))
     = createSafePath numberToString points.
Proof.
  split; [| split].
  - intro Hnil. unfold createSafePath. rewrite Hnil. reflexivity.
  - intro Hne. unfold createSafePath.
    destruct (validateChartData points) as [| p rest]; [contradiction |].
    cbn [List.length Nat.eqb mapi_from].
    destruct (mapi_from (pathCommand numberToString) 1 rest);
      cbn [String.concat]; unfold pathCommand;
      cbn [Nat.eqb String.append]; eexists; reflexivity.
  - assert (Hsame : validateChartData (VArray (validateChartData points))
                    = validateChartData points).
    { unfold validateChartData, SafeArray_toArray, safeArray.
      destruct points; try reflexivity. simpl. apply filter_idempotent. }
    unfold createSafePath. rewrite Hsame. reflexivity.
Qed.

End ChartSafetyFacts.

(* ================================================================== *)
(** ** SafeMemoization                                                 *)
(* ================================================================== *)

Section ObjectProperties.
Context {V : Type}.

Lemma In_Map_delete (key : string) (m : list (string * V)) (kv : string * V) :
  In kv (Map_delete key m) <-> In kv m /\ fst kv <> key.
Proof.
  unfold Map_delete. rewrite filter_In, negb_true_iff.
  split; intros [Hin Hkey]; (split; [exact Hin |]).
  - intro Heq. apply String.eqb_neq in Hkey. contradiction.
  - apply String.eqb_neq. exact Hkey.
Qed.

Lemma NoDup_keys_filter (p : string * V -> bool) (m : list (string * V)) :
  NoDup (map fst m) -> NoDup (map fst (filter p m)).
Proof.
  induction m as [| kv rest IH]; simpl; intro H; [constructor |].
  inversion H as [| ? ? Hnotin Hrest]; subst.
  destruct (p kv); [| exact (IH Hrest)].
  simpl. constructor; [| exact (IH Hrest)].
  intro Hin. apply Hnotin. apply in_map_iff in Hin.
  destruct Hin as (kv' & Hfst & Hin'). apply filter_In in Hin'.
  apply in_map_iff. exists kv'. split; [exact Hfst | apply Hin'].
Qed.

Lemma keys_unique (m : list (string * V)) (kv kv' : string * V) :
  NoDup (map fst m) -> In kv m -> In kv' m -> fst kv = fst kv' -> kv = kv'.
Proof.
  induction m as [| x rest IH]; simpl; intros Hnodup Hin Hin' Hfst;
    [contradiction |].
  inversion Hnodup as [| ? ? Hnotin Hrest]; subst.
  destruct Hin as [<- | Hin], Hin' as [<- | Hin'].
  - reflexivity.
  - exfalso. apply Hnotin. rewrite Hfst. apply in_map. exact Hin'.
  - exfalso. apply Hnotin. rewrite <- Hfst. apply in_map. exact Hin.
  - exact (IH Hrest Hin Hin' Hfst).
Qed.

Lemma Map_get_Map_set (key : string) (v : V) (m : list (string * V)) :
  Map_get key (Map_set key v m) = Some v.
Proof.
  induction m as [| [k v0] rest IH]; simpl.
  - rewrite String.eqb_refl. reflexivity.
  - destruct (String.eqb k key) eqn:E; simpl; rewrite E; [reflexivity | exact IH].
Qed.

Lemma Map_get_pair (key : string) (v : V) (m : list (string * V)) :
  Map_get key m = Some v -> In (key, v) m.
Proof.
  induction m as [| [k v0] rest IH]; simpl; [discriminate |].
  destruct (String.eqb k key) eqn:E.
  - apply String.eqb_eq in E. subst k. intro H. injection H as ->.
    left. reflexivity.
  - intro H. right. exact (IH H).
Qed.


Lemma In_Map_set (key : string) (v : V) (m : list (string * V))
    (kv : string * V) :
  In kv (Map_set key v m) -> kv = (key, v) \/ In kv m.
Proof.
  induction m as [| [k v0] rest IH]; simpl.
  - intros [<- | []]. left. reflexivity.
  - destruct (String.eqb k key) eqn:E.
    + apply String.eqb_eq in E. subst k.
      intros [<- | Hin]; [left; reflexivity | right; right; exact Hin].
    + intros [<- | Hin]; [right; left; reflexivity |].
      destruct (IH Hin) as [-> | Hin']; [left; reflexivity | right; right; exact Hin'].
Qed.

Lemma Map_set_keeps (key : string) (v : V) (m : list (string * V))
    (kv : string * V) :
  In kv m -> fst kv <> key -> In kv (Map_set key v m).
Proof.
  induction m as [| [k v0] rest IH]; simpl; [intros [] |].
  intros [<- | Hin] Hne.
  - cbn [fst] in Hne. apply String.eqb_neq in Hne. rewrite Hne.
    left. reflexivity.
  - destruct (String.eqb k key); right; [exact Hin | exact (IH Hin Hne)].
Qed.

Lemma Map_set_new (key : string) (v : V) (m : list (string * V)) :
  ~ In key (map fst m) -> Map_set key v m = m ++ [(key, v)].
Proof.
  induction m as [| [k v0] rest IH]; simpl; [reflexivity |].
  intro H. destruct (String.eqb k key) eqn:E.
  - apply String.eqb_eq in E. exfalso. apply H. left. exact E.
  - rewrite IH; [reflexivity |]. intro Hin. apply H. right. exact Hin.
Qed.

Lemma Map_set_keys (key : string) (v : V) (m : list (string * V)) :
  In key (map fst m) -> map fst (Map_set key v m) = map fst m.
Proof.
  induction m as [| [k v0] rest IH]; simpl; [intros [] |].
  destruct (String.eqb k key) eqn:E; [reflexivity |].
  apply String.eqb_neq in E. intros [Hk | Hin]; [contradiction |].
  simpl. rewrite (IH Hin). reflexivity.
Qed.

Lemma Map_set_NoDup (key : string) (v : V) (m : list (string * V)) :
  NoDup (map fst m) -> NoDup (map fst (Map_set key v m)).
Proof.
  intro H. destruct (in_dec string_dec key (map fst m)) as [Hin | Hnotin].
  - rewrite (Map_set_keys key v m Hin). exact H.
  - rewrite (Map_set_new key v m Hnotin), map_app. cbn [map fst].
    apply NoDup_app; [exact H | constructor; [intros [] | constructor] |].
    intros k Hk [<- | []]. contradiction.
Qed.

Lemma In_fold_delete (p : string * V -> bool) (es : list (string * V)) :
  forall (m : list (string * V)) (kv : string * V),
    In kv (fold_left
             (fun cache e => if p e then Map_delete (fst e) cache else cache)
             es m)
    <-> In kv m /\ (forall e, In e es -> p e = true -> fst e <> fst kv).
Proof.
  induction es as [| e rest IH]; intros m kv; cbn [fold_left].
  - split; [intro H; split; [exact H | intros e []] | intros [H _]; exact H].
  - rewrite IH. destruct (p e) eqn:E.
    + rewrite In_Map_delete. split.
      * intros [[Hin Hne] Hrest]. split; [exact Hin |].
        intros e' [<- | He'] Hp;
          [intro Heq; apply Hne; symmetry; exact Heq | exact (Hrest e' He' Hp)].
      * intros [Hin Hall]. split; [split; [exact Hin |] |].
        -- intro Heq. exact (Hall e (or_introl eq_refl) E (eq_sym Heq)).
        -- intros e' He' Hp. exact (Hall e' (or_intror He') Hp).
    + split.
      * intros [Hin Hrest]. split; [exact Hin |].
        intros e' [<- | He'] Hp; [congruence | exact (Hrest e' He' Hp)].
      * intros [Hin Hall]. split; [exact Hin |].
        intros e' He' Hp. exact (Hall e' (or_intror He') Hp).
Qed.

Lemma NoDup_fold_delete (p : string * V -> bool) (es : list (string * V)) :
  forall m : list (string * V),
    NoDup (map fst m) ->
    NoDup (map fst
             (fold_left
                (fun cache e => if p e then Map_delete (fst e) cache else cache)
                es m)).
Proof.
  induction es as [| e rest IH]; intros m H; cbn [fold_left]; [exact H |].
  apply IH. destruct (p e); [apply NoDup_keys_filter |]; exact H.
Qed.

Lemma In_fold_delete_all (es m : list (string * V)) (kv : string * V) :
  In kv (fold_left (fun cache e => Map_delete (fst e) cache) es m)
  <-> In kv m /\ (forall e, In e es -> fst e <> fst kv).
Proof.
  pose proof (In_fold_delete (fun _ => true) es m kv) as H. cbv beta iota in H.
  rewrite H. split; intros [Hin Hall]; (split; [exact Hin |]).
  - intros e He. exact (Hall e He eq_refl).
  - intros e He _. exact (Hall e He).
Qed.

Lemma NoDup_fold_delete_all (es m : list (string * V)) :
  NoDup (map fst m) ->
  NoDup (map fst (fold_left (fun cache e => Map_delete (fst e) cache) es m)).
Proof. exact (NoDup_fold_delete (fun _ => true) es m). Qed.

End ObjectProperties.

Lemma NoDup_app_disjoint {A : Type} (l1 l2 : list A) (a : A) :
  NoDup (l1 ++ l2) -> In a l1 -> ~ In a l2.
Proof.
  induction l1 as [| x rest IH]; simpl; intros Hnodup Hin; [contradiction |].
  inversion Hnodup as [| ? ? Hnotin Hrest]; subst.
  destruct Hin as [<- | Hin].
  - intro H2. apply Hnotin. apply in_or_app. right. exact H2.
  - exact (IH Hrest Hin).
Qed.

Lemma insertByUsage_Permutation (x : string * MemoEntry.t)
    (l : list (string * MemoEntry.t)) :
  Permutation (insertByUsage x l) (x :: l).
Proof.
  induction l as [| y rest IH]; simpl; [reflexivity |].
  destruct (_ <=? 0)%Z; [reflexivity |].
  rewrite IH. apply perm_swap.
Qed.

Lemma sortByUsage_Permutation (l : list (string * MemoEntry.t)) :
  Permutation (sortByUsage l) l.
Proof.
  induction l as [| x rest IH]; simpl; [reflexivity |].
  rewrite insertByUsage_Permutation. apply perm_skip. exact IH.
Qed.

Lemma insertByUsage_sorted (x : string * MemoEntry.t)
    (l : list (string * MemoEntry.t)) :
  StronglySorted
    (fun a b => (MemoEntry.hitCount (snd a) <= MemoEntry.hitCount (snd b))%Z) l ->
  StronglySorted
    (fun a b => (MemoEntry.hitCount (snd a) <= MemoEntry.hitCount (snd b))%Z)
    (insertByUsage x l).
Proof.
  induction l as [| y rest IH]; simpl; intro Hsorted.
  - constructor; constructor.
  - apply StronglySorted_inv in Hsorted. destruct Hsorted as [Hrest Hy].
    destruct (_ <=? 0)%Z eqn:E.
    + apply Z.leb_le in E. constructor.
      * constructor; assumption.
      * constructor; [lia |].
        apply Forall_forall. intros z Hz.
        pose proof (proj1 (Forall_forall _ _) Hy z Hz). cbv beta in *. lia.
    + apply Z.leb_gt in E. constructor; [exact (IH Hrest) |].
      apply Forall_forall. intros z Hz.
      apply (Permutation_in _ (insertByUsage_Permutation x rest)) in Hz.
      destruct Hz as [<- | Hz]; [lia |].
      exact (proj1 (Forall_forall _ _) Hy z Hz).
Qed.

Lemma sortByUsage_sorted (l : list (string * MemoEntry.t)) :
  StronglySorted
    (fun a b => (MemoEntry.hitCount (snd a) <= MemoEntry.hitCount (snd b))%Z)
    (sortByUsage l).
Proof.
  induction l as [| x rest IH]; simpl; [constructor |].
  apply insertByUsage_sorted. exact IH.
Qed.

Lemma sorted_firstn_skipn {A : Type} (R : A -> A -> Prop) (l : list A) :
  StronglySorted R l ->
  forall (k : nat) (x y : A),
    In x (firstn k l) -> In y (skipn k l) -> R x y.
Proof.
  induction 1 as [| a l Hsorted IH Ha]; intros k x y Hx Hy.
  - destruct k; contradiction.
  - destruct k as [| k]; [contradiction |].
    cbn [firstn skipn] in Hx, Hy. destruct Hx as [<- | Hx].
    + apply (proj1 (Forall_forall _ _) Ha). exact (In_skipn _ _ _ Hy).
    + exact (IH k x y Hx Hy).
Qed.

Lemma Array_slice_prefix {A : Type} (l : list A) (d : Q) :
  0 <= d ->
  Array_slice l (Fin 0) (Some (Fin d))
  = firstn (Nat.min (Z.to_nat (Qfloor d)) (List.length l)) l.
Proof.
  intro Hd. unfold Array_slice, relativeIndex, truncate.
  change (Qlt_bool 0 0) with false. change (Qfloor 0) with 0%Z.
  change (0 <? 0)%Z with false. cbn [Z.to_nat Nat.min skipn].
  replace (Qlt_bool d 0) with false
    by (symmetry; apply Qlt_bool_false_iff; exact Hd).
  pose proof (Qfloor_resp_le _ _ Hd) as Hfloor.
  change (Qfloor 0) with 0%Z in Hfloor.
  replace (Qfloor d <? 0)%Z with false by (symmetry; apply Z.ltb_ge; exact Hfloor).
  rewrite Nat.sub_0_r. reflexivity.
Qed.

Section SafeMemoizationFacts.
Context {host : Host}.
Variable clock : nat -> Z.
Variable Object_entries :
  list (string * MemoEntry.t) -> list (string * MemoEntry.t).

(** [Object.entries] lists every own property once. *)
Hypothesis entries_listed : forall m, Permutation (Object_entries m) m.

Lemma cleanCache_result (this : SafeMemoization.t) (calls : nat) (q : Q) :
  NoDup (map fst (SafeMemoization.cache this)) ->
  SafeMemoization.maxSize this = Fin q -> 0 <= q ->
  exists (unexpired sorted : list (string * MemoEntry.t)) (k : nat),
    (forall kv, In kv unexpired
                <-> In kv (SafeMemoization.cache this)
                    /\ expired this (clock calls) (snd kv) = false)
    /\ NoDup (map fst unexpired)
    /\ Permutation sorted unexpired
    /\ StronglySorted
         (fun a b => (MemoEntry.hitCount (snd a) <= MemoEntry.hitCount (snd b))%Z)
         sorted
    /\ (forall kv,
          In kv (SafeMemoization.cache
                   (fst (cleanCache clock Object_entries (this, calls))))
          <-> In kv (skipn k sorted))
    /\ NoDup (map fst (SafeMemoization.cache
                         (fst (cleanCache clock Object_entries (this, calls)))))
    /\ List.length (SafeMemoization.cache
                      (fst (cleanCache clock Object_entries (this, calls))))
       = (List.length unexpired - k)%nat
    /\ ((inject_Z (Z.of_nat (List.length unexpired)) <= q /\ k = 0%nat)
        \/ (q < inject_Z (Z.of_nat (List.length unexpired))
            /\ k = Z.to_nat
                     (Qfloor (inject_Z (Z.of_nat (List.length unexpired)) - q)))).
Proof.
  intros Hnodup Hmax Hq. unfold cleanCache. cbv zeta.
  set (unexpired :=
         fold_left
           (fun cache kv =>
              if expired this (clock calls) (snd kv)
              then Map_delete (fst kv) cache else cache)
           (Object_entries (SafeMemoization.cache this))
           (SafeMemoization.cache this)).
  set (remaining := Object_entries unexpired).
  set (sorted := sortByUsage remaining).
  assert (Hunexpired : forall kv,
            In kv unexpired
            <-> In kv (SafeMemoization.cache this)
                /\ expired this (clock calls) (snd kv) = false).
  { intro kv. unfold unexpired.
    rewrite (In_fold_delete (fun e => expired this (clock calls) (snd e))).
    split.
    - intros [Hin Hall]. split; [exact Hin |].
      destruct (expired this (clock calls) (snd kv)) eqn:E; [| reflexivity].
      exfalso. apply (Hall kv); [| exact E | reflexivity].
      apply (Permutation_in _ (Permutation_sym (entries_listed _))). exact Hin.
    - intros [Hin Hfresh]. split; [exact Hin |].
      intros e He Hexp Heq.
      apply (Permutation_in _ (entries_listed _)) in He.
      rewrite (keys_unique _ e kv Hnodup He Hin Heq) in Hexp. congruence. }
  assert (Hnodup1 : NoDup (map fst unexpired)).
  { unfold unexpired.
    apply (NoDup_fold_delete (fun e => expired this (clock calls) (snd e))).
    exact Hnodup. }
  assert (Hperm : Permutation sorted unexpired).
  { unfold sorted, remaining. rewrite sortByUsage_Permutation.
    apply entries_listed. }
  assert (Hlen : List.length remaining = List.length unexpired).
  { unfold remaining. apply Permutation_length. apply entries_listed. }
  assert (Hlen' : List.length sorted = List.length unexpired).
  { apply Permutation_length. exact Hperm. }
  rewrite Hlen, Hmax. cbn [gt lt ofNat ofZ].
  set (n := inject_Z (Z.of_nat (List.length unexpired))).
  destruct (Qlt_bool q n) eqn:Hover.
  - apply Qlt_bool_iff in Hover.
    cbn [SafeMemoization.cache fst].
    change (ofNat (List.length unexpired) - Fin q)%js
      with (Fin (Qred (n + Qred (- q)))).
    rewrite Array_slice_prefix by (rewrite !Qred_correct; lra).
    assert (Hfloor : Qfloor (Qred (n + Qred (- q))) = Qfloor (n - q)).
    { apply Qfloor_comp. rewrite !Qred_correct. reflexivity. }
    rewrite Hfloor.
    set (k := Z.to_nat (Qfloor (n - q))).
    assert (Hk0 : (0 <= Qfloor (n - q))%Z).
    { change 0%Z with (Qfloor 0). apply Qfloor_resp_le. lra. }
    assert (Hkn : (k <= List.length unexpired)%nat).
    { unfold k. apply Nat2Z.inj_le. rewrite Z2Nat.id by exact Hk0.
      rewrite <- (Qfloor_Z (Z.of_nat (List.length unexpired))).
      apply Qfloor_resp_le. fold n. lra. }
    rewrite Hlen', (Nat.min_l _ _ Hkn).
    set (cache' :=
           fold_left (fun cache e => Map_delete (fst e) cache)
             (firstn k sorted) unexpired).
    assert (Hsorted_nodup : NoDup sorted).
    { apply (Permutation_NoDup (Permutation_sym Hperm)).
      exact (NoDup_map_inv _ _ Hnodup1). }
    assert (Hcache' : forall kv, In kv cache' <-> In kv (skipn k sorted)).
    { intro kv. unfold cache'.
      rewrite In_fold_delete_all. split.
      - intros [Hin Hall].
        apply (Permutation_in _ (Permutation_sym Hperm)) in Hin.
        rewrite <- (firstn_skipn k sorted) in Hin.
        apply in_app_or in Hin. destruct Hin as [Hin | Hin]; [| exact Hin].
        exfalso. exact (Hall kv Hin eq_refl).
      - intro Hin. split.
        + apply (Permutation_in _ Hperm). exact (In_skipn _ _ _ Hin).
        + intros e He Heq.
          assert (e = kv).
          { apply (keys_unique unexpired); [exact Hnodup1 | | | exact Heq].
            - apply (Permutation_in _ Hperm). exact (In_firstn _ _ _ He).
            - apply (Permutation_in _ Hperm). exact (In_skipn _ _ _ Hin). }
          subst e. rewrite <- (firstn_skipn k sorted) in Hsorted_nodup.
          exact (NoDup_app_disjoint _ _ kv Hsorted_nodup He Hin). }
    assert (Hnodup' : NoDup (map fst cache')).
    { unfold cache'. apply NoDup_fold_delete_all. exact Hnodup1. }
    exists unexpired, sorted, k.
    split; [exact Hunexpired |]. split; [exact Hnodup1 |].
    split; [exact Hperm |]. split; [apply sortByUsage_sorted |].
    split; [exact Hcache' |]. split; [exact Hnodup' |]. split.
    + rewrite <- Hlen', <- length_skipn. apply Permutation_length.
      apply NoDup_Permutation.
      * exact (NoDup_map_inv _ _ Hnodup').
      * rewrite <- (firstn_skipn k sorted) in Hsorted_nodup.
        exact (NoDup_app_remove_l _ _ Hsorted_nodup).
      * exact Hcache'.
    + right. split; [exact Hover | reflexivity].
  - apply Qlt_bool_false_iff in Hover. cbn [SafeMemoization.cache fst].
    exists unexpired, sorted, 0%nat.
    split; [exact Hunexpired |]. split; [exact Hnodup1 |].
    split; [exact Hperm |]. split; [apply sortByUsage_sorted |].
    split.
    { intro kv. cbn [skipn]. split; intro H.
      - exact (Permutation_in _ (Permutation_sym Hperm) H).
      - exact (Permutation_in _ Hperm H). }
    split; [exact Hnodup1 |]. split; [lia |].
    left. split; [exact Hover | reflexivity].
Qed.

(** X27.  [cleanCache] on a cache with entry limit [q >= 0]: what stays
    was there before and has not expired; fewer than [q + 1] entries
    stay (at most [q] when [q] is a whole number); an unexpired entry is
    only removed in favour of entries with at least its hit count; and
    when the cache is within its limit, every unexpired entry stays. *)
Theorem cleanCache_keeps_fresh_most_used
    (this : SafeMemoization.t) (calls : nat) (q : Q) :
  NoDup (map fst (SafeMemoization.cache this)) ->
  SafeMemoization.maxSize this = Fin q -> 0 <= q ->
  let this' := fst (cleanCache clock Object_entries (this, calls)) in
  NoDup (map fst (SafeMemoization.cache this'))
  /\ (forall kv,
        In kv (SafeMemoization.cache this') ->
        In kv (SafeMemoization.cache this)
        /\ expired this (clock calls) (snd kv) = false)
  /\ inject_Z (Z.of_nat (List.length (SafeMemoization.cache this'))) < q + 1
  /\ (forall kv kv',
        In kv (SafeMemoization.cache this) ->
        expired this (clock calls) (snd kv) = false ->
        ~ In kv (SafeMemoization.cache this') ->
        In kv' (SafeMemoization.cache this') ->
        (MemoEntry.hitCount (snd kv) <= MemoEntry.hitCount (snd kv'))%Z)
  /\ (inject_Z (Z.of_nat (List.length (SafeMemoization.cache this))) <= q ->
      forall kv,
        In kv (SafeMemoization.cache this) ->
        expired this (clock calls) (snd kv) = false ->
        In kv (SafeMemoization.cache this')).
Proof.
  intros Hnodup Hmax Hq. cbv zeta.
  destruct (cleanCache_result this calls q Hnodup Hmax Hq)
    as (unexpired & sorted & k & Hunexpired & Hnodup1 & Hperm & Hsorted
        & Hcache' & Hnodup' & Hlen & Hk).
  set (cache' := SafeMemoization.cache
                   (fst (cleanCache clock Object_entries (this, calls)))) in *.
  assert (Hsub : forall kv, In kv cache' -> In kv unexpired).
  { intros kv Hkv. apply (Permutation_in _ Hperm).
    apply Hcache' in Hkv. exact (In_skipn _ _ _ Hkv). }
  split; [exact Hnodup' |].
  split; [intros kv Hkv; apply Hunexpired; exact (Hsub kv Hkv) |].
  split; [| split].
  - rewrite Hlen. destruct Hk as [[Hunder ->] | [Hover ->]].
    + rewrite Nat.sub_0_r. lra.
    + set (n := inject_Z (Z.of_nat (List.length unexpired))) in *.
      assert (Hk0 : (0 <= Qfloor (n - q))%Z).
      { change 0%Z with (Qfloor 0). apply Qfloor_resp_le. lra. }
      assert (Hkn : (Qfloor (n - q) <= Z.of_nat (List.length unexpired))%Z).
      { rewrite <- (Qfloor_Z (Z.of_nat (List.length unexpired))).
        apply Qfloor_resp_le. fold n. lra. }
      rewrite Nat2Z.inj_sub by (apply Nat2Z.inj_le; rewrite Z2Nat.id; lia).
      rewrite Z2Nat.id by exact Hk0.
      unfold Z.sub. rewrite inject_Z_plus, inject_Z_opp. fold n.
      pose proof (Qlt_floor (n - q)) as Hfloor.
      rewrite inject_Z_plus in Hfloor. change (inject_Z 1) with 1 in Hfloor.
      lra.
  - intros kv kv' Hkv Hfresh Hgone Hkept.
    assert (Hin : In kv sorted).
    { apply (Permutation_in _ (Permutation_sym Hperm)).
      apply Hunexpired. split; assumption. }
    rewrite <- (firstn_skipn k sorted) in Hin. apply in_app_or in Hin.
    destruct Hin as [Hin | Hin];
      [| exfalso; apply Hgone; apply Hcache'; exact Hin].
    apply Hcache' in Hkept.
    exact (sorted_firstn_skipn _ _ Hsorted k kv kv' Hin Hkept).
  - intros Hunder kv Hkv Hfresh.
    assert (Hshort : (List.length unexpired
                      <= List.length (SafeMemoization.cache this))%nat).
    { apply NoDup_incl_length; [exact (NoDup_map_inv _ _ Hnodup1) |].
      intros x Hx. apply Hunexpired in Hx. apply Hx. }
    assert (Hk0 : k = 0%nat).
    { destruct Hk as [[_ ->] | [Hover _]]; [reflexivity |]. exfalso.
      assert (inject_Z (Z.of_nat (List.length unexpired))
              <= inject_Z (Z.of_nat (List.length (SafeMemoization.cache this))))
        by (rewrite <- Zle_Qle; lia).
      lra. }
    apply Hcache'. rewrite Hk0. cbn [skipn].
    apply (Permutation_in _ (Permutation_sym Hperm)).
    apply Hunexpired. split; assumption.
Qed.

Context {Args : Type}.

Lemma cleanCache_limits (this : SafeMemoization.t) (calls : nat) :
  SafeMemoization.maxSize (fst (cleanCache clock Object_entries (this, calls)))
  = SafeMemoization.maxSize this
  /\ SafeMemoization.ttl (fst (cleanCache clock Object_entries (this, calls)))
     = SafeMemoization.ttl this
  /\ snd (cleanCache clock Object_entries (this, calls)) = S calls.
Proof. repeat split. Qed.

Lemma cleanCache_subset (this : SafeMemoization.t) (calls : nat)
    (kv : string * MemoEntry.t) :
  In kv (SafeMemoization.cache
           (fst (cleanCache clock Object_entries (this, calls)))) ->
  In kv (SafeMemoization.cache this).
Proof.
  unfold cleanCache. cbv zeta. cbn [fst SafeMemoization.cache].
  destruct (_ >? SafeMemoization.maxSize this)%js; intro H.
  - apply In_fold_delete_all in H. destruct H as [H _].
    apply (In_fold_delete (fun e => expired this (clock calls) (snd e))) in H.
    apply H.
  - apply (In_fold_delete (fun e => expired this (clock calls) (snd e))) in H.
    apply H.
Qed.

Lemma calculate_nullish (result : jsval) :
  SafeCalculationResult.value
    (calculate (fun _ => Return (nullish result)) VUndefined)
  = nullish result.
Proof. unfold calculate. destruct (nullish result); reflexivity. Qed.

Lemma memoized_hit (fn : Args -> completion jsval)
    (keyOf : Args -> completion string) (args : Args)
    (this : SafeMemoization.t) (calls : nat) (key : string)
    (cached : MemoEntry.t) :
  keyOf args = Return key ->
  Map_get key (SafeMemoization.cache this) = Some cached ->
  (ofZ (clock calls - MemoEntry.timestamp cached)
   <? SafeMemoization.ttl this)%js = true ->
  memoized clock Object_entries fn keyOf args (this, calls)
  = (nullish (MemoEntry.value cached),
     (SafeMemoization.mk
        (Map_set key
           (MemoEntry.mk (MemoEntry.value cached) (MemoEntry.timestamp cached)
              (MemoEntry.hitCount cached + 1)%Z)
           (SafeMemoization.cache this))
        (SafeMemoization.maxSize this) (SafeMemoization.ttl this),
      S calls)).
Proof.
  intros Hkey Hget Hfresh. unfold memoized, memoizedCalculation.
  rewrite Hkey, Hget, Hfresh. rewrite calculate_nullish. reflexivity.
Qed.

Lemma memoized_miss (fn : Args -> completion jsval)
    (keyOf : Args -> completion string) (args : Args)
    (this : SafeMemoization.t) (calls : nat) (key : string) (result : jsval) :
  keyOf args = Return key ->
  (forall cached,
     Map_get key (SafeMemoization.cache this) = Some cached ->
     (ofZ (clock calls - MemoEntry.timestamp cached)
      <? SafeMemoization.ttl this)%js = false) ->
  fn args = Return result ->
  memoized clock Object_entries fn keyOf args (this, calls)
  = (nullish result,
     cleanCache clock Object_entries
       (SafeMemoization.mk
          (Map_set key (MemoEntry.mk result (clock calls) 1%Z)
             (SafeMemoization.cache this))
          (SafeMemoization.maxSize this) (SafeMemoization.ttl this),
        S calls)).
Proof.
  intros Hkey Hmiss Hfn. unfold memoized, memoizedCalculation. rewrite Hkey.
  destruct (Map_get key (SafeMemoization.cache this)) as [cached |] eqn:Hget.
  - rewrite (Hmiss cached eq_refl), Hfn, calculate_nullish. reflexivity.
  - rewrite Hfn, calculate_nullish. reflexivity.
Qed.

(** X28.  A call that finds no fresh entry under its key and whose
    function returns gives the function's result ([null] for [null] and
    [undefined]); if the entry is still cached afterwards, the next call
    with the same key within the time to live returns the same result
    without the function: whatever function is memoized then. *)
Theorem memoized_result_is_served_again
    (fn fn' : Args -> completion jsval) (keyOf : Args -> completion string)
    (args : Args) (this : SafeMemoization.t) (calls : nat) (key : string)
    (result : jsval) :
  NoDup (map fst (SafeMemoization.cache this)) ->
  keyOf args = Return key ->
  (forall cached,
     Map_get key (SafeMemoization.cache this) = Some cached ->
     (ofZ (clock calls - MemoEntry.timestamp cached)
      <? SafeMemoization.ttl this)%js = false) ->
  fn args = Return result ->
  let first := memoized clock Object_entries fn keyOf args (this, calls) in
  fst first = nullish result
  /\ snd (snd first) = S (S calls)
  /\ (Map_get key (SafeMemoization.cache (fst (snd first))) <> None ->
      (ofZ (clock (S (S calls)) - clock calls)
       <? SafeMemoization.ttl this)%js = true ->
      fst (memoized clock Object_entries fn' keyOf args (snd first))
      = nullish result).
Proof.
  intros Hnodup Hkey Hmiss Hfn. cbv zeta.
  rewrite (memoized_miss fn keyOf args this calls key result Hkey Hmiss Hfn).
  cbn [fst snd].
  set (this1 :=
         SafeMemoization.mk
           (Map_set key (MemoEntry.mk result (clock calls) 1%Z)
              (SafeMemoization.cache this))
           (SafeMemoization.maxSize this) (SafeMemoization.ttl this)).
  destruct (cleanCache_limits this1 (S calls)) as (_ & Httl & Hcalls).
  split; [reflexivity |]. split; [exact Hcalls |].
  intros Hkept Hfresh.
  destruct (cleanCache clock Object_entries (this1, S calls))
    as [this2 calls2] eqn:Hclean.
  cbn [fst snd] in *. subst calls2.
  destruct (Map_get key (SafeMemoization.cache this2)) as [e |] eqn:Hget;
    [| contradiction].
  assert (He : e = MemoEntry.mk result (clock calls) 1%Z).
  { apply Map_get_pair in Hget.
    assert (Hin : In (key, e) (SafeMemoization.cache this1)).
    { apply (cleanCache_subset this1 (S calls)). rewrite Hclean. exact Hget. }
    assert (Hnew : In (key, MemoEntry.mk result (clock calls) 1%Z)
                     (SafeMemoization.cache this1)).
    { apply Map_get_pair. apply Map_get_Map_set. }
    assert (Hnodup1 : NoDup (map fst (SafeMemoization.cache this1)))
      by (apply Map_set_NoDup; exact Hnodup).
    pose proof (keys_unique _ _ _ Hnodup1 Hin Hnew eq_refl) as Heq.
    injection Heq as ->. reflexivity. }
  subst e.
  rewrite (memoized_hit fn' keyOf args this2 (S (S calls)) key _ Hkey Hget).
  - reflexivity.
  - cbn [MemoEntry.timestamp]. rewrite Httl. exact Hfresh.
Qed.


Lemma hits_at_least_length (l : list MemoEntry.t) :
  Forall (fun entry => (1 <= MemoEntry.hitCount entry)%Z) l ->
  forall start,
    (start + Z.of_nat (List.length l)
     <= fold_left (fun sum entry => (sum + MemoEntry.hitCount entry)%Z) l start)%Z.
Proof.
  induction 1 as [| e rest He _ IH]; intro start; cbn [fold_left List.length].
  - lia.
  - specialize (IH (start + MemoEntry.hitCount e)%Z). lia.
Qed.

Lemma hits_all_one (l : list MemoEntry.t) :
  Forall (fun entry => MemoEntry.hitCount entry = 1%Z) l ->
  forall start,
    fold_left (fun sum entry => (sum + MemoEntry.hitCount entry)%Z) l start
    = (start + Z.of_nat (List.length l))%Z.
Proof.
  induction 1 as [| e rest He _ IH]; intro start; cbn [fold_left List.length].
  - lia.
  - rewrite IH, He. lia.
Qed.

(** X30.  Every entry is created with a hit count of 1 and no call lowers
    it: the memoized function keeps all hit counts at 1 or above.  For
    such a cache [getStats] reports a hit rate of 0 when it is empty and
    from 50 to below 100 otherwise, exactly 50 when no call was ever
    answered from the cache (every hit count still 1). *)
Theorem SafeMemoization_hitRate_counts_first_calls
    (this : SafeMemoization.t) :
  Forall (fun kv => (1 <= MemoEntry.hitCount (snd kv))%Z)
    (SafeMemoization.cache this) ->
  (forall (fn : Args -> completion jsval) (keyOf : Args -> completion string)
          (args : Args) (calls : nat),
     Forall (fun kv => (1 <= MemoEntry.hitCount (snd kv))%Z)
       (SafeMemoization.cache
          (fst (snd (memoized clock Object_entries fn keyOf args
                       (this, calls))))))
  /\ (SafeMemoization.cache this = [] ->
      MemoStats.hitRate (SafeMemoization_getStats Object_entries this) = Fin 0)
  /\ (SafeMemoization.cache this <> [] ->
      exists r,
        MemoStats.hitRate (SafeMemoization_getStats Object_entries this) = Fin r
        /\ 50 <= r < 100
        /\ (Forall (fun kv => MemoEntry.hitCount (snd kv) = 1%Z)
              (SafeMemoization.cache this) -> r == 50)).
Proof.
  intro Hhits. split; [| split].
  - intros fn keyOf args calls. apply Forall_forall. intros kv Hkv.
    unfold memoized, memoizedCalculation in Hkv.
    destruct (keyOf args) as [key | message];
      [| exact (proj1 (Forall_forall _ _) Hhits kv Hkv)].
    destruct (Map_get key (SafeMemoization.cache this)) as [cached |] eqn:Hget.
    + apply Map_get_pair in Hget.
      pose proof (proj1 (Forall_forall _ _) Hhits _ Hget) as Hcached.
      cbn [snd] in Hcached.
      destruct (_ <? SafeMemoization.ttl this)%js.
      * cbn [fst snd SafeMemoization.cache] in Hkv.
        apply In_Map_set in Hkv. destruct Hkv as [-> | Hkv];
          [cbn [snd MemoEntry.hitCount]; lia
          | exact (proj1 (Forall_forall _ _) Hhits kv Hkv)].
      * destruct (fn args) as [result | message];
          [| exact (proj1 (Forall_forall _ _) Hhits kv Hkv)].
        cbn [snd] in Hkv. apply cleanCache_subset in Hkv.
        apply In_Map_set in Hkv. destruct Hkv as [-> | Hkv];
          [cbn [snd MemoEntry.hitCount]; lia
          | exact (proj1 (Forall_forall _ _) Hhits kv Hkv)].
    + destruct (fn args) as [result | message];
        [| exact (proj1 (Forall_forall _ _) Hhits kv Hkv)].
      cbn [snd] in Hkv. apply cleanCache_subset in Hkv.
      apply In_Map_set in Hkv. destruct Hkv as [-> | Hkv];
        [cbn [snd MemoEntry.hitCount]; lia
        | exact (proj1 (Forall_forall _ _) Hhits kv Hkv)].
  - intro Hnil. unfold SafeMemoization_getStats. rewrite Hnil.
    pose proof (Permutation_length (entries_listed [])) as Hlen.
    destruct (Object_entries []); [reflexivity | discriminate].
  - intro Hne. unfold SafeMemoization_getStats. cbv zeta.
    cbn [MemoStats.hitRate].
    set (entries := map snd (Object_entries (SafeMemoization.cache this))).
    set (totalHits :=
           fold_left (fun sum entry => (sum + MemoEntry.hitCount entry)%Z)
             entries 0%Z).
    assert (Hentries : Forall (fun entry => (1 <= MemoEntry.hitCount entry)%Z)
                         entries).
    { apply Forall_forall. intros e He. apply in_map_iff in He.
      destruct He as (kv & <- & Hkv).
      apply (Permutation_in _ (entries_listed _)) in Hkv.
      exact (proj1 (Forall_forall _ _) Hhits kv Hkv). }
    assert (Hlen : List.length entries
                   = List.length (SafeMemoization.cache this)).
    { unfold entries. rewrite length_map.
      apply Permutation_length. apply entries_listed. }
    assert (Hpos : (0 < List.length entries)%nat).
    { rewrite Hlen. destruct (SafeMemoization.cache this);
        [contradiction | simpl; lia]. }
    pose proof (hits_at_least_length entries Hentries 0%Z) as Hsum.
    fold totalHits in Hsum.
    replace (Z.of_nat (List.length entries) + totalHits >? 0)%Z with true
      by (symmetry; apply Z.gtb_lt; lia).
    unfold ofZ. cbn [div].
    set (len := Z.of_nat (List.length entries)) in *.
    assert (Hlenq : 0 < inject_Z len)
      by (change 0 with (inject_Z 0); rewrite <- Zlt_Qlt; lia).
    assert (Hsumq : inject_Z len <= inject_Z totalHits)
      by (rewrite <- Zle_Qle; lia).
    destruct (Qeq_bool (inject_Z (len + totalHits)) 0) eqn:Hzero.
    { apply Qeq_bool_eq in Hzero. rewrite inject_Z_plus in Hzero. lra. }
    cbn [mul]. eexists. split; [reflexivity |].
    rewrite !Qred_correct, inject_Z_plus.
    set (h := inject_Z totalHits) in *. set (n := inject_Z len) in *.
    assert (Hhalf : 1 # 2 <= h / (n + h))
      by (apply Qle_shift_div_l; lra).
    assert (Hone : h / (n + h) < 1)
      by (apply Qlt_shift_div_r; lra).
    split; [lra |].
    intro Hones.
    assert (Hentries1 : Forall (fun entry => MemoEntry.hitCount entry = 1%Z)
                          entries).
    { apply Forall_forall. intros e He. apply in_map_iff in He.
      destruct He as (kv & <- & Hkv).
      apply (Permutation_in _ (entries_listed _)) in Hkv.
      exact (proj1 (Forall_forall _ _) Hones kv Hkv). }
    pose proof (hits_all_one entries Hentries1 0%Z) as Heq.
    fold totalHits in Heq.
    assert (Hh : h == n) by (unfold h, n, len; rewrite Heq; reflexivity).
    rewrite Hh. field. lra.
Qed.

End SafeMemoizationFacts.

(* ================================================================== *)
(** ** Doubles                                                         *)
(* ================================================================== *)

Lemma binary64_Qeq (q q' : Q) : q == q' -> binary64 q -> binary64 q'.
Proof.
  intros Heq (m & e & Hm & He & Hq). exists m, e.
  split; [exact Hm |]. split; [exact He |]. rewrite <- Heq. exact Hq.
Qed.

(** The whole numbers below [2 ^ 53] are doubles. *)
Lemma binary64_Z (z : Z) : (Z.abs z < 2 ^ 53)%Z -> binary64 (inject_Z z).
Proof.
  intro Hz. exists z, 0%Z. split; [exact Hz |]. split; [lia |].
  change (2 ^ 0) with 1. ring.
Qed.

(** So are their halves, quarters, and so on. *)
Lemma binary64_dyadic (z : Z) (k : positive) :
  (Z.abs z < 2 ^ 53)%Z -> (Z.pos k <= 1074)%Z ->
  binary64 (inject_Z z * 2 ^ (Z.neg k)).
Proof.
  intros Hz Hk. exists z, (Z.neg k). split; [exact Hz |].
  split; [lia | reflexivity].
Qed.

(* ================================================================== *)
(** ** Concrete runs                                                   *)
(* ================================================================== *)

#[local] Existing Instance sample_host.

(** *** The runs of the repository's tests *)

Example test_safeNumber_valid :
  safeNumber (VNumber (Fin 42)) (Fin 0) = SafeNumber.mk (Fin 42) true true true.
Proof. reflexivity. Qed.

Example test_safeNumber_fallback :
  let num := safeNumber (VNumber NaN) (Fin 100) in
  SafeNumber.value num = Fin 100 /\ SafeNumber.isValid num = false.
Proof. split; reflexivity. Qed.

Example test_safeNumber_operations :
  let num1 := safeNumber (VNumber (Fin 10)) (Fin 0) in
  let num2 := safeNumber (VNumber (Fin 5)) (Fin 0) in
  SafeNumber.value (SafeNumber_add num1 (Safe num2)) = Fin 15
  /\ SafeNumber.value (SafeNumber_subtract num1 (Safe num2)) = Fin 5
  /\ SafeNumber.value (SafeNumber_multiply num1 (Safe num2)) = Fin 50
  /\ SafeNumber.value (SafeNumber_divide num1 (Safe num2)) = Fin 2
  /\ SafeNumber.value (SafeNumber_divide num1 (Num (Fin 0))) = Fin 0
  /\ SafeNumber.value
       (SafeNumber_clamp (safeNumber (VNumber (Fin 150)) (Fin 0)) (Fin 0) (Fin 100))
     = Fin 100.
Proof. repeat split; reflexivity. Qed.

Example test_safeArray_filters_holes :
  SafeArray_toArray
    (safeArray (VArray [VNumber (Fin 1); VNull; VNumber (Fin 2); VUndefined;
                        VNumber (Fin 3)]) None)
  = [VNumber (Fin 1); VNumber (Fin 2); VNumber (Fin 3)]
  /\ SafeArray.length (safeArray VNull None) = 0%nat.
Proof. split; reflexivity. Qed.

Example test_safeArray_map_with_error :
  let arr := safeArray (VArray [VNumber (Fin 1); VNumber (Fin 2); VNumber (Fin 3)])
               None in
  SafeArray.length (SafeArray_map arr throw_on_two) = 2%nat
  /\ SafeArray_toArray (SafeArray_map arr throw_on_two)
     = [VNumber (Fin 2); VNumber (Fin 6)].
Proof. split; reflexivity. Qed.

Example test_safeArray_at :
  let arr := safeArray (VArray [VNumber (Fin 1); VNumber (Fin 2); VNumber (Fin 3)])
               None in
  SafeArray_at arr (Fin 1) = VNumber (Fin 2)
  /\ SafeArray_at arr (Fin 10) = VNull
  /\ SafeArray_at arr (Fin (-1)) = VNull.
Proof. repeat split; reflexivity. Qed.

Example test_generateSafeTicks :
  generateSafeTicks 21 (Fin 0) (Fin 100) (Fin 5)
  = Some [Fin 0; Fin 25; Fin 50; Fin 75; Fin 100]
  /\ generateSafeTicks 21 (Fin 100) (Fin 0) (Fin 5) = Some [Fin 100].
Proof. split; reflexivity. Qed.

(** Falsy elements that the constructor keeps and [at] answers with
    [null]: [0], the empty string and [false]. *)
Example at_falsy_elements :
  let arr := safeArray (VArray [VNumber (Fin 0); VString ""; VBoolean false])
               None in
  SafeArray.length arr = 3%nat
  /\ SafeArray_at arr (Fin 0) = VNull
  /\ SafeArray_at arr (Fin 1) = VNull
  /\ SafeArray_at arr (Fin 2) = VNull.
Proof. repeat split; reflexivity. Qed.

(** Four items of height 10 in a viewport of 100 scrolled to 25: the
    range starts at item 2, 20 pixels down. *)
Example visible_range_of_four_items :
  calculateVisibleItems (VArray fourItems)
    (VirtualScrollState.mk (Fin 25) (Fin 100) (Fin 50) (Fin 0))
  = Some (VisibleRange.mk (Fin 2) (Fin 2) (Fin 40) (Fin 20)).
Proof. reflexivity. Qed.

(** C3, counterexample: [safeNumber(NaN, Infinity).value] is [Infinity]. *)
Lemma safeNumber_infinite_fallback :
  SafeNumber.value (safeNumber (VNumber NaN) PosInfinity) = PosInfinity
  /\ isFinite (SafeNumber.value (safeNumber (VNumber NaN) PosInfinity)) = false.
Proof. split; reflexivity. Qed.

(** C4, counterexample: of three items of heights 10, 0 and 10 the second
    is dropped, so [totalHeight] is 20 and not 70 as with the default
    height 50 in its place. *)
Lemma zero_height_item_not_defaulted :
  let items := [scrollItem "a" (Fin 10); scrollItem "b" (Fin 0);
                scrollItem "c" (Fin 10)] in
  let state := VirtualScrollState.mk (Fin 0) (Fin 400) (Fin 50) (Fin 0) in
  option_map VisibleRange.totalHeight (calculateVisibleItems (VArray items) state)
  = Some (Fin 20)
  /\ claimed_totalHeight items state = Fin 70.
Proof. split; reflexivity. Qed.



(** C7, counterexample: on [[1, 2, 3]] the callback returns [null] for 2
    and throws nowhere, and the result is [[2, 6]]. *)
Lemma map_drops_null_result :
  let a := safeArray (VArray [VNumber (Fin 1); VNumber (Fin 2); VNumber (Fin 3)])
             None in
  SafeArray.data (SafeArray_map a null_on_two) = [VNumber (Fin 2); VNumber (Fin 6)]
  /\ returned_from null_on_two 0 (SafeArray.data a)
     = [VNumber (Fin 2); VNull; VNumber (Fin 6)].
Proof. split; reflexivity. Qed.



(** C10, witness: in [safeArray([1, 0, "x"])] the element at index 1 is
    the falsy [0], and [at(1)] is [null]. *)
Lemma at_in_range_is_element_or_null_witness :
  SafeArray_at
    (safeArray (VArray [VNumber (Fin 1); VNumber (Fin 0); VString "x"]) None)
    (Fin 1)
  = VNull.
Proof.
  exact (at_in_range_is_element_or_null
           (safeArray (VArray [VNumber (Fin 1); VNumber (Fin 0); VString "x"]) None)
           1 (Nat.lt_lt_succ_r 1 2 (Nat.lt_succ_diag_r 1))).
Defined.

(** C1 (the code at the failing input).  In a cache of 10 MB, after
    [set("a", 1000 bytes)], [set("b", 6000000 bytes)] and then
    [set("b", 10485000 bytes)], the old entry under "b" is credited back
    once on replacement and once more when [evictLargest] picks it:
    [currentMemory] is 4486000 while the two entries hold 10486000 bytes,
    which is above the budget of 10485760. *)
Theorem set_replace_credits_old_entry_twice (clock : nat -> Z) (fuel : nat) :
  exists this calls,
    sized_set clock (2 + fuel) "b" 10485000
      (sized_set clock (2 + fuel) "b" 6000000
         (sized_set clock (2 + fuel) "a" 1000 (Some (smallCache, O))))
    = Some (this, calls)
    /\ map fst (IntelligentCache.cache this) = ["a"%string; "b"%string]
    /\ IntelligentCache.maxMemory this = Fin 10485760
    /\ IntelligentCache.currentMemory this = 4486000%Z
    /\ totalBytes this = 10486000%Z.
Proof.
  eexists. eexists. split.
  - vm_compute. reflexivity.
  - repeat split; reflexivity.
Qed.

(** C2, witness: an empty cache of 10 MB and a value of 10 MB and one byte. *)
Lemma set_never_returns_witness :
  set Some (fun _ => None) tickingClock 1000 "k" 10485761%Z (VArray [])
    (smallCache, O)
  = None.
Proof.
  apply (set_never_returns_when_value_exceeds_budget Some (fun _ => None)
           tickingClock smallCache O "k" 10485761%Z (VArray []));
    reflexivity.
Defined.

(** The empty string as key: the entry under it is never evicted
    ([if (largestKey)] is false for it), so a [set] that needs its room
    does not return. *)
Lemma set_never_returns_behind_empty_key (clock : nat -> Z) (fuel : nat) :
  sized_set clock fuel "x" 5000000
    (sized_set clock 1 "" 6000000 (Some (smallCache, O)))
  = None.
Proof.
  assert (Hfirst : exists this,
            sized_set clock 1 "" 6000000 (Some (smallCache, O))
            = Some (this, 1%nat)
            /\ IntelligentCache.cache this
               = [(""%string, CacheEntry.mk 6000000%Z (clock O) 1%Z 6000000%Z [])]
            /\ IntelligentCache.maxSize this = Fin 100
            /\ IntelligentCache.maxMemory this = Fin 10485760
            /\ IntelligentCache.currentMemory this = 6000000%Z).
  { eexists. split; [vm_compute; reflexivity | repeat split]. }
  destruct Hfirst as (this & Hrun & Hcache & Hsize & Hmem & Hbytes).
  rewrite Hrun. unfold sized_set, set. rewrite Hcache. simpl Map_get.
  rewrite ensureSpace_stuck_over_budget; [reflexivity | | |].
  - unfold overSize. simpl fst. rewrite Hcache, Hsize. reflexivity.
  - unfold overMemory. simpl fst. rewrite Hmem, Hbytes. reflexivity.
  - unfold evictLargest. rewrite Hcache. reflexivity.
Qed.


(** *** Instances of the further properties *)

(** X2, witness: 7 clamped to the interval from 0 to 5. *)
Lemma clamp_within_bounds_witness :
  exists c,
    SafeNumber.value
      (SafeNumber_clamp (safeNumber (VNumber (Fin 7)) (Fin 0)) (Fin 0) (Fin 5))
    = Fin c
    /\ 0 <= c <= 5.
Proof.
  destruct (clamp_within_bounds (safeNumber (VNumber (Fin 7)) (Fin 0)) 0 5)
    as (c & Hc & Hrange & _); [discriminate | reflexivity |].
  exists c. split; [exact Hc | exact Hrange].
Defined.

(** X10, witness: the average of [[1, "x", 2, 3]] is 2. *)
Lemma SafeMath_average_between_min_and_max_witness :
  exists a,
    SafeMath_average
      (VArray [VNumber (Fin 1); VString "x"; VNumber (Fin 2); VNumber (Fin 3)])
      (Fin 0)
    = Fin a
    /\ a == 2.
Proof.
  destruct (SafeMath_average_between_min_and_max
              (VArray [VNumber (Fin 1); VString "x"; VNumber (Fin 2);
                       VNumber (Fin 3)]) (Fin 0))
    as (_ & _ & Hmean).
  destruct Hmean as (a & Ha & Hsum & _).
  - discriminate.
  - split.
    + intros [| [| [| [| k]]]] Hk;
        [apply (binary64_Z 0) | apply (binary64_Z 1) | apply (binary64_Z 3)
        | apply (binary64_Z 6) | cbn in Hk; lia]; reflexivity.
    + apply (binary64_Qeq (inject_Z 2)); [reflexivity |].
      apply binary64_Z. reflexivity.
  - exists a. split; [exact Ha |].
    cbn [finite_numbers finite_values List.length] in Hsum.
    change (sumQ [1; 2; 3]) with (1 + (2 + (3 + 0))) in Hsum.
    change (inject_Z (Z.of_nat 3)) with 3 in Hsum. lra.
Defined.

(** X11, witness: an object with a number and a string, and the fallback
    point (1, 2). *)
Lemma extractCoordinates_is_finite_witness :
  extractCoordinates
    (VObject [("x"%string, VNumber (Fin 3)); ("y"%string, VString "a")])
    (Point.mk (Fin 1) (Fin 2))
  = Point.mk (Fin 3) (Fin 2)
  /\ isFinite (Point.y
       (extractCoordinates
          (VObject [("x"%string, VNumber (Fin 3)); ("y"%string, VString "a")])
          (Point.mk (Fin 1) (Fin 2)))) = true.
Proof.
  split; [reflexivity |].
  exact (proj1 (proj2
           (extractCoordinates_is_finite
              (VObject [("x"%string, VNumber (Fin 3)); ("y"%string, VString "a")])
              (Point.mk (Fin 1) (Fin 2)) eq_refl eq_refl))).
Defined.

(** X15, witness: the domain from 0 to 100 on the range from 0 to 400,
    at 25. *)
Lemma createSafeScale_is_linear_where_exact_witness :
  exists s,
    createSafeScale (Fin 0, Fin 100) (Fin 0, Fin 400) (Fin 25) = Fin s
    /\ s == 100.
Proof.
  destruct (createSafeScale_is_linear_where_exact
              (Fin 0, Fin 100) (Fin 0, Fin 400) (Fin 25))
    as (s & Hs & Hline & _).
  - cbn [fst snd finite_or]. unfold scale_exact.
    change (Qeq_bool (100 - 0) 0) with false. cbv zeta.
    split; [apply (binary64_Z 25); reflexivity |].
    split; [apply (binary64_Z 100); reflexivity |].
    split; [apply (binary64_Qeq (inject_Z 1 * 2 ^ (-2)));
            [reflexivity | apply binary64_dyadic; [reflexivity | lia]] |].
    split; [apply (binary64_Z 400); reflexivity |].
    split; apply (binary64_Qeq (inject_Z 100));
      try reflexivity; apply binary64_Z; reflexivity.
  - exists s. split; [exact Hs |]. rewrite Hline. reflexivity.
Defined.

(** X16, witness: the domain from 0 to 10 on the range from 0 to 100. *)
Lemma createSafeScale_interpolates_witness :
  same (createSafeScale (Fin 0, Fin 10) (Fin 0, Fin 100) (Fin 0)) (Fin 0)
  /\ same (createSafeScale (Fin 0, Fin 10) (Fin 0, Fin 100) (Fin 10)) (Fin 100).
Proof.
  assert (Hne : ~ 0 == 10) by (intro H; discriminate H).
  exact (createSafeScale_interpolates 0 10 0 100 Hne
           (binary64_Z 10 eq_refl) (binary64_Z 100 eq_refl)).
Defined.

(** X17, witness: the domain from 5 to 5 on the range from 0 to 100, at 5
    and at 7. *)
Lemma createSafeScale_zero_width_domain_witness :
  same (createSafeScale (Fin 5, Fin 5) (Fin 0, Fin 100) (Fin 5)) (Fin 0)
  /\ same (createSafeScale (Fin 5, Fin 5) (Fin 0, Fin 100) (Fin 7)) (Fin 200).
Proof.
  destruct (createSafeScale_zero_width_domain 5 0 100 7
              (binary64_Z 100 eq_refl)) as [Hd Hv].
  split; [exact Hd |].
  apply (same_trans _ _ _
           (Hv (binary64_Z 2 eq_refl) (binary64_Z 200 eq_refl)
               (binary64_Z 200 eq_refl))).
  reflexivity.
Defined.

(** X19, witness: the first [set] on an empty cache of 10 MB. *)
Lemma set_absent_key_keeps_invariant_witness :
  exists this' calls',
    set Some (fun _ => None) tickingClock 5 "k" 1000%Z (VArray [])
      (smallCache, O)
    = Some (this', calls')
    /\ NoDup (keys this') /\ accounted this'.
Proof.
  destruct (set Some (fun _ => None) tickingClock 5 "k" 1000%Z (VArray [])
              (smallCache, O)) as [[this' calls'] |] eqn:Hset;
    [| vm_compute in Hset; discriminate Hset].
  exists this', calls'. split; [reflexivity |].
  destruct (set_absent_key_keeps_invariant Some (fun _ => None) tickingClock
              smallCache this' O calls' 5 "k" 1000%Z (VArray []))
    as (Hnodup & Hacc & _).
  - constructor.
  - reflexivity.
  - intros [].
  - exact Hset.
  - split; [exact Hnodup | exact Hacc].
Defined.

(** X20, witness: a value of 1000 bytes for an empty cache of 10 MB. *)
Lemma set_returns_when_value_fits_witness :
  exists s',
    set Some (fun _ => None) tickingClock 1 "k" 1000%Z (VArray [])
      (smallCache, O)
    = Some s'.
Proof.
  apply (set_returns_when_value_fits Some (fun _ => None) tickingClock
           smallCache O 1 "k" 1000%Z (VArray []) 100 10485760).
  - split; [constructor |]. split; [intros [] |].
    split; [constructor | cbn; lia].
  - reflexivity.
  - reflexivity.
  - reflexivity.
  - vm_compute. discriminate.
  - cbn. lia.
Defined.

(** X21, witness: [get("k")] after [set("k", 1000)]. *)
Lemma get_after_set_returns_the_data_witness :
  exists s',
    set Some (fun _ => None) tickingClock 5 "k" 1000%Z (VArray [])
      (smallCache, O)
    = Some s'
    /\ fst (get tickingClock "k" s') = Some 1000%Z.
Proof.
  destruct (set Some (fun _ => None) tickingClock 5 "k" 1000%Z (VArray [])
              (smallCache, O)) as [s' |] eqn:Hset;
    [| vm_compute in Hset; discriminate Hset].
  exists s'. split; [reflexivity |].
  exact (get_after_set_returns_the_data Some (fun _ => None) tickingClock
           (smallCache, O) s' 5 "k" 1000%Z (VArray []) Hset).
Defined.

(** X27, witness: cleaning the cache of ten entries under a limit of 10. *)
Lemma cleanCache_keeps_fresh_most_used_witness :
  inject_Z
    (Z.of_nat
       (List.length
          (SafeMemoization.cache
             (fst (cleanCache tickingClock listedAsCreated (fullMemo, O))))))
  < 10 + 1.
Proof.
  refine (proj1 (proj2 (proj2
            (cleanCache_keeps_fresh_most_used tickingClock listedAsCreated
               (fun m => Permutation_refl m) fullMemo O 10 _ eq_refl _)))).
  - cbn [fullMemo SafeMemoization.cache map usedEntry fst].
    repeat (constructor; [cbn; intuition discriminate |]). constructor.
  - discriminate.
Defined.

(** X28, witness: the first call of the memoized [plusOne] on 1 stores 2;
    the second call returns 2 although the function given then throws. *)
Lemma memoized_result_is_served_again_witness :
  fst (memoized tickingClock listedAsCreated
         (fun _ : number => Throw "not called"%string) sameKey (Fin 1)
         (snd (memoized tickingClock listedAsCreated plusOne sameKey (Fin 1)
                 (emptyMemo, O))))
  = Some (VNumber (Fin 2)).
Proof.
  refine (proj2 (proj2
            (memoized_result_is_served_again tickingClock listedAsCreated
               plusOne (fun _ : number => Throw "not called"%string) sameKey
               (Fin 1) emptyMemo O "k" (VNumber (Fin 2)) _ eq_refl _ eq_refl))
            _ _).
  - constructor.
  - intros cached Hget. discriminate Hget.
  - vm_compute. discriminate.
  - vm_compute. reflexivity.
Defined.


(** X30, witness: the statistics of the full cache, every entry stored
    once and hit once. *)
Lemma SafeMemoization_hitRate_counts_first_calls_witness :
  exists r,
    MemoStats.hitRate (SafeMemoization_getStats listedAsCreated fullMemo)
    = Fin r
    /\ 50 <= r < 100.
Proof.
  assert (Hhits : Forall (fun kv => (1 <= MemoEntry.hitCount (snd kv))%Z)
                    (SafeMemoization.cache fullMemo)).
  { cbn [fullMemo SafeMemoization.cache map].
    repeat (constructor; [cbn; lia |]). constructor. }
  destruct (SafeMemoization_hitRate_counts_first_calls tickingClock
              listedAsCreated (fun m => Permutation_refl m) (Args := number)
              fullMemo Hhits) as (_ & _ & Hrate).
  destruct Hrate as (r & Hr & Hrange & _); [discriminate |].
  exists r. split; [exact Hr | exact Hrange].
Defined.

(** *** Doubles

    The last tick of [generateSafeTicks(0, 29, 8)] is [0 + 7 * (29 / 7)];
    in exact arithmetic this is 29, in IEEE-754 doubles it is not.
    Likewise the average of three times 0.1 is above 0.1 in doubles, the
    scale from [0, 1] to [0.3, 0.9] takes 1 above 0.9, and a range whose
    difference overflows gives [NaN]: the statements above on these
    functions ask for results that are doubles. *)

Example exact_last_tick :
  option_map (fun ticks => nth 7 ticks NaN)
    (generateSafeTicks 21 (Fin 0) (Fin 29) (Fin 8))
  = Some (Fin 29).
Proof. reflexivity. Qed.

Remark double_rounding :
  PrimFloat.eqb
    (PrimFloat.add (double 0)
       (PrimFloat.mul (double 7)
          (PrimFloat.div (PrimFloat.sub (double 29) (double 0))
             (PrimFloat.sub (double 8) (double 1)))))
    (double 29)
  = false.
Proof. vm_compute. reflexivity. Qed.

Remark average_rounding :
  let tenth := PrimFloat.div (double 1) (double 10) in
  PrimFloat.ltb tenth (average_binary64 [tenth; tenth; tenth]) = true.
Proof. vm_compute. reflexivity. Qed.

Remark scale_rounding_and_overflow :
  PrimFloat.ltb (PrimFloat.div (double 9) (double 10))
    (scale_binary64 (double 0) (double 1)
       (PrimFloat.div (double 3) (double 10))
       (PrimFloat.div (double 9) (double 10)) (double 1))
  = true
  /\ PrimFloat.is_nan
       (scale_binary64 (double 0) (double 1) (twoTo 1023)
          (PrimFloat.opp (twoTo 1023)) (double 0))
     = true.
Proof. split; vm_compute; reflexivity. Qed.

(** On the inputs of the instances above every result is a double, and
    the doubles of the machine give what the exact model gives. *)
Remark exact_cases_on_doubles :
  findStart_binary64 (repeat (double 10) 4) 0 (double 0) (double 25) = 2%nat
  /\ PrimFloat.eqb
       (tick_binary64 (double 0) (double 100) (double 5) (double 4))
       (double 100)
     = true
  /\ PrimFloat.eqb (average_binary64 [double 1; double 2; double 3]) (double 2)
     = true
  /\ PrimFloat.eqb
       (scale_binary64 (double 0) (double 100) (double 0) (double 400)
          (double 25))
       (double 100)
     = true.
Proof. repeat split; vm_compute; reflexivity. Qed.
